(** * Label Scanner PWA: hybrid OCR dispatch and offline cache layer

    A shallow embedding of the client-side logic of the label scanner:
    - [Enhance]  : the pixel transform of [OCR.applyEnhancements] (sw.js / ocr.js);
    - [OCR]      : [OCR.process], [processOnline], [processOffline],
                   [loadTesseract] and [enhanceImage] as a small
                   state-and-exception monad that records the effects a
                   dispatch performs;
    - [Loader]   : the event-driven view of [loadTesseract] (script element
                   appended, [onload] / [onerror] delivered later);
    - [SW]       : the service worker's install / activate / fetch handlers
                   over a model of [CacheStorage];
    - [Batch]    : [App.handleBatchFiles] (js/app.js).

    Platform operations (image decoding, the network, the Tesseract engine,
    the Cache API) are not part of the repository; they appear as oracles
    whose answers are the settled outcome of the corresponding promise.
    JavaScript numbers are binary64.  The running sum behind the mean
    brightness and the percentage of the recognition logger are computed
    on binary64 numbers here as well.  The per-channel arithmetic is written
    with exact rationals, which give the same byte as the binary64
    evaluation for every input byte ([enhanceChannel_binary64]). *)

From Stdlib Require Import ZArith QArith Qround Qminmax Lia Lqa Ascii String List Floats.
From stdpp Require Import base list strings gmap pretty.

Open Scope Z_scope.

(* ===================================================================== *)
(** ** JavaScript numbers                                                 *)
(* ===================================================================== *)

Module Number.

(** The rational a finite binary64 number stands for. *)
Definition exact (x : float) : Q :=
  match Prim2SF x with
  | S754_finite s m e =>
      let magnitude :=
        match e with
        | Z0 => inject_Z (Zpos m)
        | Zpos p => inject_Z (Zpos m * 2 ^ Zpos p)
        | Zneg p => Zpos m # (2 ^ p)
        end in
      if s then Qopp magnitude else magnitude
  | _ => 0
  end.

(** A natural number below 2^53 as a binary64 number. *)
Definition ofZ (v : Z) : float := PrimFloat.of_uint63 (Uint63.of_Z v).

(** [Math.round(x)] for a finite [x]: the nearest integer, a tie going up. *)
Definition round (x : float) : Z := Qfloor (exact x + (1 # 2)).

End Number.

(* ===================================================================== *)
(** ** Image enhancement: [OCR.applyEnhancements]                         *)
(* ===================================================================== *)

Module Enhance.

(** [ImageData.data] is a flat [Uint8ClampedArray], four entries (R, G, B,
    A) per pixel.  Storing a number into it rounds half to even and clamps
    to [0,255]. *)

Definition roundHalfEven (x : Q) : Z :=
  let f := Qfloor x in
  match Qcompare (x - inject_Z f) (1 # 2) with
  | Lt => f
  | Gt => f + 1
  | Eq => if Z.even f then f else f + 1
  end.

Definition toUint8Clamp (x : Q) : Z := Z.min 255 (Z.max 0 (roundHalfEven x)).

(** [const contrast = 1.3;] *)
Definition contrast : Q := 13 # 10.

(** First loop: [totalBrightness += (data[i] + data[i+1] + data[i+2]) / 3],
    with [i] advancing by 4.  The sum of three bytes is exact; the division
    by 3 and the addition to the running total each round to binary64. *)
Fixpoint sumBrightness (data : list Z) (totalBrightness : float) : float :=
  match data with
  | r :: g :: b :: _ :: rest =>
      sumBrightness rest (totalBrightness + Number.ofZ (r + g + b) / 3)%float
  | _ => totalBrightness
  end.

(** [avgBrightness = totalBrightness / (data.length / 4)]. *)
Definition avgBrightness (data : list Z) : float :=
  (sumBrightness data 0 / (Number.ofZ (Z.of_nat (length data)) / 4))%float.

(** [brightnessFactor = avgBrightness < 128 ? 20 : 0].  On an empty array
    the mean is 0/0 = NaN and [NaN < 128] is false. *)
Definition brightnessFactor (data : list Z) : Z :=
  if PrimFloat.ltb (avgBrightness data) 128 then 20 else 0.

(** The value computed for one channel before it is stored:
    [Math.min(255, Math.max(0, ((v - 128) * contrast) + 128 + brightnessFactor))]. *)
Definition stretched (v bf : Z) : Q :=
  (inject_Z v - 128) * contrast + 128 + inject_Z bf.

Definition clamped (v bf : Z) : Q := Qmin 255 (Qmax 0 (stretched v bf)).

Definition enhanceChannel (v bf : Z) : Z := toUint8Clamp (clamped v bf).

(** Second loop: entries [i], [i+1], [i+2] are rewritten, entry [i+3] (alpha)
    is not touched. *)
Fixpoint enhancePixels (data : list Z) (bf : Z) : list Z :=
  match data with
  | r :: g :: b :: a :: rest =>
      enhanceChannel r bf :: enhanceChannel g bf :: enhanceChannel b bf :: a
        :: enhancePixels rest bf
  | tail => tail
  end.

(** [applyEnhancements(ctx, w, h)]: the raster read by [getImageData] is
    returned as written back by [putImageData].  The final assignment to
    [ctx.filter] only affects later drawing calls, of which there are none. *)
Definition applyEnhancements (data : list Z) : list Z :=
  enhancePixels data (brightnessFactor data).




End Enhance.

(* ===================================================================== *)
(** ** The OCR dispatcher: [const OCR = { ... }]                           *)
(* ===================================================================== *)

Module OCR.

Open Scope string_scope.

(** *** Errors, one constructor per place an error originates *)

Inductive Error :=
| EAbort                    (* DOMException "AbortError": fetch aborted by the 30 s timer *)
| ENetwork (m : string)     (* TypeError: fetch rejected *)
| EJson (m : string)        (* SyntaxError: response.json() rejected *)
| ETimeout                  (* new Error('Request timed out') *)
| EHttp (status : Z)        (* new Error(`HTTP ${response.status}`) *)
| EApi (m : string)         (* new Error(data.ErrorMessage || 'OCR failed') *)
| ELoadImage                (* new Error('Failed to load image') *)
| EProcessing               (* new Error('Processing failed') *)
| ELoadTesseract            (* new Error('Failed to load Tesseract.js') *)
| ERecognize (m : string)   (* whatever Tesseract.recognize throws *)
| EOffline (m : string).    (* new Error('Offline OCR failed: ' + err.message) *)

Definition name (e : Error) : string :=
  match e with
  | EAbort => "AbortError"
  | ENetwork _ => "TypeError"
  | EJson _ => "SyntaxError"
  | _ => "Error"
  end.

Definition message (e : Error) : string :=
  match e with
  | EAbort => "The user aborted a request."
  | ENetwork m => m
  | EJson m => m
  | ETimeout => "Request timed out"
  | EHttp status => "HTTP " ++ pretty status
  | EApi m => m
  | ELoadImage => "Failed to load image"
  | EProcessing => "Processing failed"
  | ELoadTesseract => "Failed to load Tesseract.js"
  | ERecognize m => m
  | EOffline m => "Offline OCR failed: " ++ m
  end.

(** Errors raised by the remote attempt, and errors that end the local one. *)
Definition isRemoteError (e : Error) : bool :=
  match e with
  | EAbort | ENetwork _ | EJson _ | ETimeout | EHttp _ | EApi _ => true
  | _ => false
  end.

Definition isLocalError (e : Error) : bool :=
  match e with
  | ELoadTesseract | EOffline _ => true
  | _ => false
  end.

Inductive Result (A : Type) :=
| Ok (a : A)
| Throw (e : Error).
Arguments Ok {A} a.
Arguments Throw {A} e.

(** *** Platform data *)

Definition File := string.
Definition Blob := string.

(** A decoded [Image]: its size and what [ctx.drawImage(img, 0, 0, w, h)]
    leaves on a [w] x [h] canvas (RGBA, row-major). *)
Record Image := { width : Z; height : Z; drawn : Z -> Z -> list Z }.

Record Canvas := { canvas_width : Z; canvas_height : Z; canvas_data : list Z }.

(** The JSON body the proxy returns:
    [{ IsErroredOnProcessing, ErrorMessage?, ParsedResults: [{ ParsedText }] }]. *)
Record OcrData := {
  IsErroredOnProcessing : bool;
  ErrorMessage : option string;
  ParsedResults : option (list (option string))
}.

(** The settled outcome of [fetch(API_URL, { method: 'POST', ... })] together
    with [response.json()]: the timer fired first, the request failed, or a
    response arrived whose body parses ([Some]) or does not ([None]). *)
Inductive FetchOutcome :=
| FetchAborted
| FetchFailed (m : string)
| FetchResponse (status : Z) (body : option OcrData).

(** A message handed to the [logger] option of [Tesseract.recognize]. *)
Record LogMessage := { log_status : string; log_progress : float }.

Record Recognition := { logged : list LogMessage; outcome : Result string }.

(** The oracles of one dispatch. *)
Record Env := {
  navigator_onLine : bool;
  loadImage : File -> option Image;       (* img.onload (Some) or img.onerror (None) *)
  toBlob : Canvas -> option Blob;         (* canvas.toBlob: the JPEG, or null *)
  fetchApi : Blob -> FetchOutcome;
  jsonError : Blob -> string;             (* the message of the SyntaxError of response.json() *)
  scriptLoads : bool;                     (* script.onload (true) or script.onerror *)
  recognize : Blob -> Recognition         (* Tesseract.recognize(imageUrl, 'eng', ...) *)
}.

(** *** Effects *)

Inductive Event :=
| Progress (text : string)        (* what the progress callback displayed *)
| ConsoleWarn (text : string)
| EnhanceCall (file : File)       (* this.enhanceImage(file) *)
| RemoteFetch (body : Blob)       (* fetch(this.API_URL, ...) *)
| LocalAttempt                    (* this.processOffline(file, onProgress) entered *)
| ScriptAppended                  (* document.head.appendChild(script) *)
| Recognize (image : Blob).       (* Tesseract.recognize(...) *)

(** The mutable state shared by dispatches: [OCR.isOnline] and whether the
    global [Tesseract] is defined. *)
Record State := { isOnline : bool; tesseractDefined : bool }.

Definition M (A : Type) : Type := State -> Result A * State * list Event.

Definition ret {A} (a : A) : M A := fun s => (Ok a, s, []).

Definition throw {A} (e : Error) : M A := fun s => (Throw e, s, []).

Definition bind {A B} (m : M A) (f : A -> M B) : M B :=
  fun s =>
    let '(r, s1, t1) := m s in
    match r with
    | Ok a => let '(r2, s2, t2) := f a s1 in (r2, s2, (t1 ++ t2)%list)
    | Throw e => (Throw e, s1, t1)
    end.

(** [try { m } catch (err) { h err }] *)
Definition try_catch {A} (m : M A) (h : Error -> M A) : M A :=
  fun s =>
    let '(r, s1, t1) := m s in
    match r with
    | Ok a => (Ok a, s1, t1)
    | Throw e => let '(r2, s2, t2) := h e s1 in (r2, s2, (t1 ++ t2)%list)
    end.

Definition emit (e : Event) : M unit := fun s => (Ok tt, s, [e]).

Definition get : M State := fun s => (Ok s, s, []).

Definition put (s : State) : M unit := fun _ => (Ok tt, s, []).

Notation "x <- m ;; k" := (bind m (fun x => k))
  (at level 100, m at next level, right associativity).
Notation "m ;; k" := (bind m (fun _ => k))
  (at level 100, right associativity).

Definition result {A} (o : Result A * State * list Event) : Result A := o.1.1.
Definition final {A} (o : Result A * State * list Event) : State := o.1.2.
Definition events {A} (o : Result A * State * list Event) : list Event := o.2.

(** [onProgress && onProgress(text)]: the callback, when given, turns the
    status text into what it displays.  Both callers in app.js pass a
    callback that assigns the text to an element and returns; a callback is
    taken to return normally. *)
Definition Callback := option (string -> string).

Definition progress (onProgress : Callback) (text : string) : M unit :=
  match onProgress with
  | Some show => emit (Progress (show text))
  | None => ret tt
  end.

Definition API_URL : string := "/api/ocr".

Definition maxWidth : Z := 1400.

Section Dispatch.

Variable env : Env.

(** [enhanceImage(file)]: decode, shrink to at most [maxWidth] columns,
    enhance the raster, re-encode.  [canvas.height = h] and [getImageData]
    truncate the scaled height to an integer.  When that leaves no row (a
    wide, flat image) [getImageData] throws inside [img.onload] and the
    promise never settles; [loadImage] answers, as every oracle here does,
    for a dispatch that settles, so its images satisfy [nonEmptyCanvas]. *)
Definition enhanceImage (file : File) : M Blob :=
  emit (EnhanceCall file) ;;
  match loadImage env file with
  | None => throw ELoadImage
  | Some img =>
      let w := width img in
      let h := height img in
      let '(w, h) := if (maxWidth <? w)%Z then (maxWidth, (h * maxWidth / w)%Z) else (w, h) in
      let data := Enhance.applyEnhancements (drawn img w h) in
      match toBlob env {| canvas_width := w; canvas_height := h; canvas_data := data |} with
      | Some blob => ret blob
      | None => throw EProcessing
      end
  end.

(** [response.ok] *)
Definition ok (status : Z) : bool := ((200 <=? status) && (status <=? 299))%Z.

(** The canvas of [enhanceImage] has at least one column and one row. *)
Definition nonEmptyCanvas (img : Image) : Prop :=
  (0 < width img /\ 0 < height img /\
   (maxWidth < width img -> width img <= height img * maxWidth))%Z.

(** [data.ErrorMessage || 'OCR failed'] *)
Definition errorMessage (data : OcrData) : string :=
  match ErrorMessage data with
  | Some m => if decide (m = "") then "OCR failed" else m
  | None => "OCR failed"
  end.

(** [data.ParsedResults?.[0]?.ParsedText || ''] *)
Definition parsedText (data : OcrData) : string :=
  match ParsedResults data with
  | Some (Some text :: _) => text
  | _ => ""
  end.

(** The [try] block of [processOnline]: the request, the status check, the
    body, the service's own error flag. *)
Definition request (enhanced : Blob) (onProgress : Callback) : M string :=
  emit (RemoteFetch enhanced) ;;
  match fetchApi env enhanced with
  | FetchAborted => throw EAbort
  | FetchFailed m => throw (ENetwork m)
  | FetchResponse status body =>
      if negb (ok status) then throw (EHttp status)
      else
        match body with
        | None => throw (EJson (jsonError env enhanced))
        | Some data =>
            if IsErroredOnProcessing data then throw (EApi (errorMessage data))
            else
              progress onProgress "Done!" ;;
              ret (parsedText data)
        end
  end.

Definition processOnline (file : File) (onProgress : Callback) : M string :=
  progress onProgress "Enhancing image..." ;;
  enhanced <- enhanceImage file ;;
  progress onProgress "Sending to OCR..." ;;
  try_catch (request enhanced onProgress)
    (fun err =>
       if decide (name err = "AbortError") then throw ETimeout else throw err).

(** [loadTesseract()]: nothing to do when the global exists; otherwise a
    script element is appended and the promise settles on its [onload] or
    [onerror]. *)
Definition loadTesseract : M unit :=
  s <- get ;;
  if tesseractDefined s then ret tt
  else
    emit ScriptAppended ;;
    if scriptLoads env
    then put {| isOnline := isOnline s; tesseractDefined := true |}
    else throw ELoadTesseract.

(** [Math.round(m.progress * 100)]: the product is rounded to binary64
    before [Math.round] sees it.  Tesseract reports the fraction of the work
    done, a finite number. *)
Definition percent (m : LogMessage) : Z := Number.round (log_progress m * 100)%float.

Fixpoint logger (onProgress : Callback) (ms : list LogMessage) : M unit :=
  match ms with
  | [] => ret tt
  | m :: ms =>
      (if decide (log_status m = "recognizing text")
       then progress onProgress ("Processing... " ++ pretty (percent m) ++ "%")
       else ret tt) ;;
      logger onProgress ms
  end.

Definition processOffline (file : File) (onProgress : Callback) : M string :=
  emit LocalAttempt ;;
  progress onProgress "Loading offline OCR engine..." ;;
  s <- get ;;
  (if tesseractDefined s then ret tt else loadTesseract) ;;
  progress onProgress "Processing image offline..." ;;
  try_catch
    (enhanced <- enhanceImage file ;;
     emit (Recognize enhanced) ;;
     let r := recognize env enhanced in
     logger onProgress (logged r) ;;
     match outcome r with
     | Throw e => throw e
     | Ok text =>
         progress onProgress "Done! (Offline)" ;;
         ret text
     end)
    (fun err => throw (EOffline (message err))).

(** [process(file, onProgress)] *)
Definition process (file : File) (onProgress : Callback) : M string :=
  s <- get ;;
  put {| isOnline := navigator_onLine env; tesseractDefined := tesseractDefined s |} ;;
  s <- get ;;
  if isOnline s then
    try_catch (processOnline file onProgress)
      (fun err =>
         emit (ConsoleWarn ("[OCR] Online failed, trying offline: " ++ message err)) ;;
         progress onProgress "Online failed, using offline OCR..." ;;
         processOffline file onProgress)
  else
    progress onProgress "📴 Offline mode - using local OCR..." ;;
    processOffline file onProgress.

End Dispatch.

(** What a dispatch did, read off its events. *)
Definition isRemoteFetch (e : Event) : bool :=
  match e with RemoteFetch _ => true | _ => false end.

Definition isLocalAttempt (e : Event) : bool :=
  match e with LocalAttempt => true | _ => false end.

Definition isRecognize (e : Event) : bool :=
  match e with Recognize _ => true | _ => false end.

Definition isScriptAppended (e : Event) : bool :=
  match e with ScriptAppended => true | _ => false end.

Definition isProgress (e : Event) : bool :=
  match e with Progress _ => true | _ => false end.

Fixpoint count (p : Event -> bool) (t : list Event) : nat :=
  match t with
  | [] => 0
  | e :: t => (if p e then 1 else 0) + count p t
  end.

(** The events of one [onProgress && onProgress(text)], and of a whole run of
    the recognition logger. *)
Definition shown (onProgress : Callback) (text : string) : list Event :=
  match onProgress with
  | Some show => [Progress (show text)]
  | None => []
  end.

Definition loggerShown (onProgress : Callback) (ms : list LogMessage) : list Event :=
  flat_map
    (fun m =>
       if decide (log_status m = "recognizing text")
       then shown onProgress ("Processing... " ++ pretty (percent m) ++ "%")
       else [])
    ms.

(** The ways the remote attempt can fail once the request is made: the 30 s
    timer aborts it, the request itself fails, the status is not 2xx, the
    body is not JSON, or the service reports [IsErroredOnProcessing]. *)
Inductive RemoteFailure : FetchOutcome -> Prop :=
| timed_out : RemoteFailure FetchAborted
| unreachable m : RemoteFailure (FetchFailed m)
| bad_status status body :
    ok status = false -> RemoteFailure (FetchResponse status body)
| bad_body status :
    ok status = true -> RemoteFailure (FetchResponse status None)
| errored_on_processing status data :
    ok status = true -> IsErroredOnProcessing data = true ->
    RemoteFailure (FetchResponse status (Some data)).

(** The recognition route that produced a text: the remote service when a
    request was sent and nothing ran locally, the local engine when it ran. *)
Inductive Source := remote | local.

Definition sourceOf (t : list Event) : option Source :=
  match count isRecognize t, count isRemoteFetch t with
  | S _, _ => Some local
  | O, S _ => Some remote
  | O, O => None
  end.

(** *** Sample dispatches *)

Module Scenario.

(** A two-pixel label photo and a page that has not loaded the engine yet. *)
Definition label : Image :=
  {| width := 2; height := 1;
     drawn := fun _ _ => [10; 20; 30; 255; 200; 100; 133; 128]%Z |}.

Definition decode (file : File) : option Image :=
  if decide (file = "label.jpg") then Some label else None.

Definition reading : Recognition :=
  {| logged := [ {| log_status := "recognizing text"; log_progress := 0.5%float |} ];
     outcome := Ok "BATCH 42" |}.

Definition fresh : State := {| isOnline := true; tesseractDefined := false |}.

(** Online, but the endpoint does not answer within 30 s. *)
Definition slowEndpoint : Env :=
  {| navigator_onLine := true;
     loadImage := decode;
     toBlob := fun _ => Some "jpeg";
     fetchApi := fun _ => FetchAborted;
     jsonError := fun _ => "Unexpected end of JSON input";
     scriptLoads := true;
     recognize := fun _ => reading |}.

(** Online with an endpoint that does not answer, and the engine's script
    cannot be fetched either. *)
Definition engineBlocked : Env :=
  {| navigator_onLine := true;
     loadImage := decode;
     toBlob := fun _ => Some "jpeg";
     fetchApi := fun _ => FetchAborted;
     jsonError := fun _ => "Unexpected end of JSON input";
     scriptLoads := false;
     recognize := fun _ => reading |}.

(** Online, and the service answers. *)
Definition answering : Env :=
  {| navigator_onLine := true;
     loadImage := decode;
     toBlob := fun _ => Some "jpeg";
     fetchApi := fun _ =>
       FetchResponse 200
         (Some {| IsErroredOnProcessing := false; ErrorMessage := None;
                  ParsedResults := Some [Some "BATCH 42"] |});
     jsonError := fun _ => "Unexpected end of JSON input";
     scriptLoads := true;
     recognize := fun _ => reading |}.

(** No connectivity; the engine script comes from the cache. *)
Definition disconnected : Env :=
  {| navigator_onLine := false;
     loadImage := decode;
     toBlob := fun _ => Some "jpeg";
     fetchApi := fun _ => FetchFailed "Failed to fetch";
     jsonError := fun _ => "Unexpected end of JSON input";
     scriptLoads := true;
     recognize := fun _ => reading |}.

End Scenario.

End OCR.

(* ===================================================================== *)
(** ** The engine loader as the page sees it                              *)
(* ===================================================================== *)

(** [loadTesseract] returns at once with a pending promise; the script's
    [onload] or [onerror] arrives in a later turn of the event loop, and
    other callers may run in between. *)

Module Loader.

Record State := {
  tesseractDefined : bool;   (* typeof Tesseract !== 'undefined' *)
  appended : nat;            (* script elements appended: one fetch of the engine each *)
  pending : list nat         (* scripts whose load / error event has not fired yet *)
}.

Definition initial : State :=
  {| tesseractDefined := false; appended := 0; pending := [] |}.

(** A caller reaches [if (typeof Tesseract === 'undefined') await
    this.loadTesseract()]: with the global defined nothing happens, otherwise
    a fresh script element is appended and the caller waits for it. *)
Definition loadTesseract (s : State) : State * option nat :=
  if tesseractDefined s then (s, None)
  else
    let script := appended s in
    ({| tesseractDefined := false;
        appended := S (appended s);
        pending := pending s ++ [script] |}, Some script).

(** [script.onload]: the engine's global now exists, the waiting caller is
    resumed. *)
Definition onload (script : nat) (s : State) : State :=
  if decide (script ∈ pending s)
  then {| tesseractDefined := true;
          appended := appended s;
          pending := filter (fun i => i ≠ script) (pending s) |}
  else s.

(** [script.onerror]: the waiting caller's promise is rejected. *)
Definition onerror (script : nat) (s : State) : State :=
  if decide (script ∈ pending s)
  then {| tesseractDefined := tesseractDefined s;
          appended := appended s;
          pending := filter (fun i => i ≠ script) (pending s) |}
  else s.

Inductive Action :=
| Call                      (* some dispatch enters the loader *)
| Loaded (script : nat)
| Failed (script : nat).

Definition step (s : State) (a : Action) : State :=
  match a with
  | Call => (loadTesseract s).1
  | Loaded script => onload script s
  | Failed script => onerror script s
  end.

Definition run (acts : list Action) (s : State) : State := foldl step s acts.

Definition isCall (a : Action) : bool :=
  match a with Call => true | _ => false end.

Definition isLoaded (a : Action) : bool :=
  match a with Loaded _ => true | _ => false end.

(** How many of the actions are calls into the loader. *)
Fixpoint calls (acts : list Action) : nat :=
  match acts with
  | [] => 0
  | Call :: acts => S (calls acts)
  | _ :: acts => calls acts
  end.

End Loader.

(* ===================================================================== *)
(** ** The service worker (sw.js)                                         *)
(* ===================================================================== *)

Module SW.

Open Scope string_scope.

(** The constants at the top of the script; they are what distinguishes one
    released version of the worker from the next.  URLs are taken as
    resolved: two different strings are two different HTTP(S) URLs. *)
Record Version := {
  CACHE_NAME : string;
  CACHE_URLS : list string;
  TESSERACT_URLS : list string
}.

Definition label_scanner_v6 : Version := {|
  CACHE_NAME := "label-scanner-v6";
  CACHE_URLS :=
    [ "./"; "./index.html"; "./css/styles.css"; "./js/app.js";
      "./js/storage.js"; "./js/parser.js"; "./js/ocr.js"; "./manifest.json" ];
  TESSERACT_URLS :=
    [ "https://cdn.jsdelivr.net/npm/tesseract.js@5/dist/tesseract.min.js";
      "https://cdn.jsdelivr.net/npm/tesseract.js@5/dist/worker.min.js" ]
|}.

(** A response: its status, its body, and whether its [Vary] header
    contains "*". *)
Record Response := { status : Z; body : string; vary_star : bool }.

(** [response.ok] *)
Definition ok (r : Response) : bool := ((200 <=? status r) && (status r <=? 299))%Z.

(** What the Cache API is willing to store: [put], [add] and [addAll] reject
    with a [TypeError] for a partial response (status 206) and for a
    response whose [Vary] header contains "*". *)
Definition storable (r : Response) : bool :=
  negb (status r =? 206)%Z && negb (vary_star r).

(** A [Cache] maps request URLs to responses; [CacheStorage] keeps the named
    caches in the order they were created. *)
Abbreviation Cache := (gmap string Response).
Abbreviation CacheStorage := (list (string * gmap string Response)).

(** The network: [None] when [fetch] rejects. *)
Definition Network := string -> option Response.

(** [caches.keys()] *)
Definition keys (cs : CacheStorage) : list string := cs.*1.

(** The cache called [name], if it exists. *)
Fixpoint cacheNamed (name : string) (cs : CacheStorage) : option Cache :=
  match cs with
  | [] => None
  | (k, c) :: rest => if decide (k = name) then Some c else cacheNamed name rest
  end.

(** [caches.open(name)] creates the cache when it does not exist. *)
Definition open (name : string) (cs : CacheStorage) : CacheStorage :=
  match cacheNamed name cs with
  | Some _ => cs
  | None => (cs ++ [(name, ∅)])%list
  end.

(** [caches.delete(name)] *)
Definition delete (name : string) (cs : CacheStorage) : CacheStorage :=
  filter (fun p => p.1 ≠ name) cs.

(** [cache.put(request, response)] on the cache called [name], for a request
    and a response the Cache API accepts; the storage is taken to have
    room. *)
Definition put (name url : string) (r : Response) (cs : CacheStorage) : CacheStorage :=
  (fun p => if decide (p.1 = name) then (p.1, <[url := r]> p.2) else p) <$> cs.

(** [caches.match(request)]: the first cache, in creation order, that holds
    the request. *)
Fixpoint matchAll (url : string) (cs : CacheStorage) : option Response :=
  match cs with
  | [] => None
  | (_, c) :: rest =>
      match c !! url with
      | Some r => Some r
      | None => matchAll url rest
      end
  end.

(** What [cache.add] / [cache.addAll] accept: a fetch that resolves with an
    ok status other than 206 and without [Vary: *]. *)
Definition fetchOk (net : Network) (url : string) : option Response :=
  match net url with
  | Some r => if ok r && storable r then Some r else None
  | None => None
  end.

(** The insertions of one batch, in order. *)
Definition storeAll (name : string) (entries : list (string * Response))
    (cs : CacheStorage) : CacheStorage :=
  foldl (fun cs '(url, r) => put name url r cs) cs entries.

(** [cache.addAll(urls)]: every URL is fetched; unless all succeed the
    promise rejects and nothing is stored.  A list that names a URL twice
    is rejected as well (InvalidStateError). *)
Definition fetchAll (net : Network) (urls : list string) : option (list Response) :=
  if bool_decide (NoDup urls) then mapM (fetchOk net) urls else None.

Definition addAll (net : Network) (name : string) (urls : list string)
    (cs : CacheStorage) : option CacheStorage :=
  match fetchAll net urls with
  | Some rs => Some (storeAll name (zip urls rs) cs)
  | None => None
  end.

(** [cache.add(url)] *)
Definition add (net : Network) (name url : string) (cs : CacheStorage)
    : option CacheStorage :=
  addAll net name [url] cs.

(** [Promise.allSettled(urls.map(url => cache.add(url)))]: each addition
    settles on its own; a rejected one leaves the cache as it was. *)
Definition addEachSettled (net : Network) (name : string) (urls : list string)
    (cs : CacheStorage) : CacheStorage :=
  foldl (fun cs url => default cs (add net name url cs)) cs urls.

Section Handlers.

Variable v : Version.

(** The [install] listener.  The boolean tells whether the promise given to
    [event.waitUntil] was fulfilled, in which case [self.skipWaiting()] has
    been called. *)
Definition install (net : Network) (cs : CacheStorage) : bool * CacheStorage :=
  let cs := open (CACHE_NAME v) cs in
  match addAll net (CACHE_NAME v) (CACHE_URLS v) cs with
  | None => (false, cs)
  | Some cs =>
      let cs := open (CACHE_NAME v) cs in
      (true, addEachSettled net (CACHE_NAME v) (TESSERACT_URLS v) cs)
  end.

(** The [activate] listener:
    [keys.filter(key => key !== CACHE_NAME).map(key => caches.delete(key))]. *)
Definition activate (cs : CacheStorage) : CacheStorage :=
  foldl (fun cs key => delete key cs) cs
        (filter (fun key => key ≠ CACHE_NAME v) (keys cs)).

Record Request := { method : string; url : string; origin : string; pathname : string }.

(** What one [fetch] event leaves behind: the response given to
    [event.respondWith] ([None]: the event was not handled), the cache
    storage once the pending [cache.put] has settled (a rejected one leaves
    the cache that [caches.open] created or found, and nobody handles the
    rejection), the requests sent to the network, and the console output. *)
Record Handled := {
  respondWith : option Response;
  storage : CacheStorage;
  network : list string;
  console : list string
}.

Definition offline : Response :=
  {| status := 503; body := "Offline"; vary_star := false |}.

(** [cache.put] also rejects a request whose scheme is not HTTP(S); such
    requests (of a browser extension, say) reach the listener too. *)
Definition httpScheme (req : Request) : bool :=
  String.prefix "http://" (origin req) || String.prefix "https://" (origin req).

(** Whether the pending [cache.put(event.request, clone)] is fulfilled. *)
Definition accepted (req : Request) (r : Response) : bool :=
  httpScheme req && storable r.

(** [caches.match(...).then(...).catch(...)], shared by both branches. *)
Definition cacheFirst (net : Network) (req : Request) (cs : CacheStorage)
    (hitLog missLog : list string) : Handled :=
  match matchAll (url req) cs with
  | Some response =>
      {| respondWith := Some response; storage := cs; network := []; console := hitLog |}
  | None =>
      match net (url req) with
      | Some networkResponse =>
          {| respondWith := Some networkResponse;
             storage := if ok networkResponse
                        then if accepted req networkResponse
                             then put (CACHE_NAME v) (url req) networkResponse
                                    (open (CACHE_NAME v) cs)
                             else open (CACHE_NAME v) cs
                        else cs;
             network := [url req];
             console := [] |}
      | None =>
          {| respondWith := Some offline; storage := cs;
             network := [url req]; console := missLog |}
      end
  end.

(** The [fetch] listener. *)
Definition onfetch (location_origin : string) (net : Network) (req : Request)
    (cs : CacheStorage) : Handled :=
  if decide (method req ≠ "GET")
  then {| respondWith := None; storage := cs; network := []; console := [] |}
  else if decide (origin req = location_origin)
  then cacheFirst net req cs
         ["[SW] Serving from cache: " ++ pathname req]
         ["[SW] Offline, no cache for: " ++ pathname req]
  else cacheFirst net req cs [] [].

End Handlers.

(** The browser's side of the life cycle: a worker whose install promise
    rejects is thrown away and whatever worker controlled the pages keeps
    doing so; one that installed and called [skipWaiting] is activated at
    once and takes control. *)
Record Registration := {
  caches : CacheStorage;
  controller : option string      (* CACHE_NAME of the worker in control *)
}.

Definition deploy (v : Version) (net : Network) (reg : Registration) : Registration :=
  let '(installed, cs) := install v net (caches reg) in
  if installed
  then {| caches := activate v cs; controller := Some (CACHE_NAME v) |}
  else {| caches := cs; controller := controller reg |}.

(** Cache names are unique within a [CacheStorage]. *)
Definition wf (cs : CacheStorage) : Prop := NoDup (keys cs).

(** The entries a list of insertions leaves in one cache, and the additions
    of [addEachSettled] that went through. *)
Definition putAll (c : Cache) (entries : list (string * Response)) : Cache :=
  foldl (fun c '(url, r) => <[url := r]> c) c entries.

Definition settled (net : Network) (urls : list string) : list (string * Response) :=
  omap (fun url => pair url <$> fetchOk net url) urls.

(** *** Sample deployments *)

Module Scenario.

Definition page (text : string) : Response :=
  {| status := 200; body := text; vary_star := false |}.

Definition notFound : Response :=
  {| status := 404; body := "Not Found"; vary_star := false |}.

(** A range of a file: partial content. *)
Definition partial (text : string) : Response :=
  {| status := 206; body := text; vary_star := false |}.

(** A server that answers every request with partial content. *)
Definition ranged : Network := fun url => Some (partial url).

(** Everything is served. *)
Definition healthy : Network := fun url => Some (page url).

(** The origin is fine, the CDN cannot be reached. *)
Definition cdnDown : Network :=
  fun url => if String.prefix "https://" url then None else Some (page url).

(** One file of the app shell is missing on the server. *)
Definition brokenRelease : Network :=
  fun url => if decide (url = "./js/parser.js") then Some notFound else Some (page url).

(** Nothing can be reached. *)
Definition unplugged : Network := fun _ => None.

(** The next release of the worker. *)
Definition label_scanner_v7 : Version :=
  {| CACHE_NAME := "label-scanner-v7";
     CACHE_URLS := CACHE_URLS label_scanner_v6;
     TESSERACT_URLS := TESSERACT_URLS label_scanner_v6 |}.

Definition shell : Cache := {[ "./index.html" := page "<html>" ]}.

(** Generations v5, v6 and v7 side by side. *)
Definition threeGenerations : CacheStorage :=
  [ ("label-scanner-v5", shell); ("label-scanner-v6", shell);
    ("label-scanner-v7", shell) ].

Definition getIndex : Request :=
  {| method := "GET"; url := "./index.html";
     origin := "https://scanner.example"; pathname := "/index.html" |}.

End Scenario.

End SW.

(* ===================================================================== *)
(** ** Batch processing: [App.handleBatchFiles] (js/app.js)               *)
(* ===================================================================== *)

Module Batch.

Open Scope string_scope.

(** What [Parser.parse] returns: the extracted fields. *)
Definition Parsed := list (string * string).

(** The scan object handed to [Storage.save] (the timestamp is left out). *)
Record Scan := {
  rawText : string;
  fields : Parsed;
  rackNo : string;
  shelfNo : string;
  movement : string
}.

(** One selected file with what the platform does while it is processed. *)
Record Item := {
  file : OCR.File;
  readable : bool;         (* fileToDataUrl: reader.onload (true) or reader.onerror *)
  env : OCR.Env;           (* the oracles of this item's OCR dispatch *)
  stored : bool;           (* Storage.save resolves (true) or rejects *)
  cancelClicks : nat       (* clicks on the cancel button while the item is in flight *)
}.

Definition cancelClicked (it : Item) : bool := (0 <? cancelClicks it)%nat.

(** [Parser.parse] ([None]: it throws), the value of the movement field,
    whether the [loadHistory] that follows the loop resolves, and the clicks
    on the cancel button while it is awaited. *)
Record Page := {
  parse : string -> option Parsed;
  movementValue : string;
  historyLoads : bool;
  reloadClicks : nat
}.

(** The application state the batch touches, and the loop's two counters. *)
Record State := {
  ocr : OCR.State;
  batchCancelled : bool;
  database : list Scan;               (* what Storage holds *)
  toasts : list string;
  shown : list OCR.Event;             (* effects of the OCR dispatches *)
  processed : nat;
  saved : nat
}.

Definition toast (msg : string) (s : State) : State :=
  {| ocr := ocr s; batchCancelled := batchCancelled s; database := database s;
     toasts := (toasts s ++ [msg])%list; shown := shown s;
     processed := processed s; saved := saved s |}.

Definition setCancelled (b : bool) (s : State) : State :=
  {| ocr := ocr s; batchCancelled := b; database := database s;
     toasts := toasts s; shown := shown s;
     processed := processed s; saved := saved s |}.

(** [cancelBatchProcessing()], the click handler of the cancel button, and
    a number of clicks one after the other. *)
Definition cancelBatchProcessing (s : State) : State :=
  toast "⏹️ Cancelling batch..." (setCancelled true s).

Definition clicks (n : nat) (s : State) : State := Nat.iter n cancelBatchProcessing s.

Section Loop.

Variable page : Page.
Variable total : nat.     (* files.length *)

(** The body of the [try] block; every early exit below is an exception
    landing in [catch (err) { console.error(...) }]. *)
Definition tryItem (it : Item) (s : State) : State :=
  let processed := S (processed s) in
  let failed ocr' evs :=
    {| ocr := ocr'; batchCancelled := batchCancelled s; database := database s;
       toasts := toasts s; shown := (shown s ++ evs)%list;
       processed := processed; saved := saved s |} in
  if negb (readable it) then failed (ocr s) []
  else
    let onProgress status :=
      "Processing " ++ pretty processed ++ "/" ++ pretty total ++ ": " ++ status in
    let '(r, ocr', evs) := OCR.process (env it) (file it) (Some onProgress) (ocr s) in
    match r with
    | OCR.Throw _ => failed ocr' evs
    | OCR.Ok text =>
        match parse page text with
        | None => failed ocr' evs
        | Some parsed =>
            let scan :=
              {| rawText := text; fields := parsed; rackNo := ""; shelfNo := "";
                 movement := if decide (movementValue page = "") then "IN"
                             else movementValue page |} in
            if stored it
            then {| ocr := ocr'; batchCancelled := batchCancelled s;
                    database := (database s ++ [scan])%list;
                    toasts := toasts s; shown := (shown s ++ evs)%list;
                    processed := processed; saved := S (saved s) |}
            else failed ocr' evs
        end
    end.

(** [for (const file of files) { if (this.batchCancelled) { toast; break; } try {...} catch {...} }];
    each click on the cancel button while an item is in flight runs
    [cancelBatchProcessing] before the next test of the flag. *)
Fixpoint loop (items : list Item) (s : State) : State :=
  match items with
  | [] => s
  | it :: rest =>
      if batchCancelled s
      then toast ("⏹️ Batch cancelled. Saved " ++ pretty (saved s) ++ "/"
                    ++ pretty (processed s) ++ " images.") s
      else
        let s := tryItem it s in
        loop rest (clicks (cancelClicks it) s)
  end.

End Loop.

(** [handleBatchFiles(e)] with [files = Array.from(e.target.files)].  The
    cancel button keeps its listener while [loadHistory] is awaited.  When
    [loadHistory] rejects, so does the function, and the lines after it do
    not run. *)
Definition handleBatchFiles (page : Page) (files : list Item) (s : State) : State :=
  match files with
  | [] => s
  | _ =>
      let s := {| ocr := ocr s; batchCancelled := false; database := database s;
                  toasts := toasts s; shown := shown s;
                  processed := 0; saved := 0 |} in
      let s := loop page (length files) files s in
      let s := clicks (reloadClicks page) s in
      if negb (historyLoads page) then s
      else if batchCancelled s then s
      else toast ("✅ Batch complete! Saved " ++ pretty (saved s) ++ "/"
                    ++ pretty (length files) ++ " images.") s
  end.

(** The items the loop gets to: everything up to and including the first
    one during which cancellation was requested. *)
Fixpoint attempted (items : list Item) : list Item :=
  match items with
  | [] => []
  | it :: rest => it :: (if cancelClicked it then [] else attempted rest)
  end.

(** Whether an item goes through reading, OCR, parsing and saving without an
    error, given the OCR state it starts in; and the OCR state it leaves. *)
Definition succeeds (page : Page) (it : Item) (o : OCR.State) : bool :=
  readable it &&
  match OCR.result (OCR.process (env it) (file it) None o) with
  | OCR.Ok text => bool_decide (is_Some (parse page text)) && stored it
  | OCR.Throw _ => false
  end.

Definition ocrAfter (it : Item) (o : OCR.State) : OCR.State :=
  if readable it then OCR.final (OCR.process (env it) (file it) None o) else o.

Fixpoint successes (page : Page) (items : list Item) (o : OCR.State) : nat :=
  match items with
  | [] => 0
  | it :: rest =>
      (if succeeds page it o then 1 else 0) + successes page rest (ocrAfter it o)
  end.

(** *** A sample batch: a good label, a file that is not an image, a good
    label during which the operator cancels, and one more label. *)

Module Scenario.

Definition page : Page :=
  {| parse := fun text => Some [("batchNo", text)]; movementValue := "";
     historyLoads := true; reloadClicks := 0 |}.

Definition good : Item :=
  {| file := "label.jpg"; readable := true; env := OCR.Scenario.disconnected;
     stored := true; cancelClicks := 0 |}.

Definition torn : Item :=
  {| file := "torn.bin"; readable := true; env := OCR.Scenario.disconnected;
     stored := true; cancelClicks := 0 |}.

Definition lastWanted : Item :=
  {| file := "label.jpg"; readable := true; env := OCR.Scenario.disconnected;
     stored := true; cancelClicks := 1 |}.

Definition idle : State :=
  {| ocr := OCR.Scenario.fresh; batchCancelled := false; database := [];
     toasts := []; shown := []; processed := 0; saved := 0 |}.

End Scenario.

End Batch.

(* ===================================================================== *)
(** ** The per-channel arithmetic in binary64                             *)
(* ===================================================================== *)

(** JavaScript evaluates the channel expression in IEEE-754 binary64.  This
    module repeats it on the kernel's primitive floats, so that the rational
    model of [Enhance] can be checked against it on every byte. *)

Module Binary64.

Definition exact (x : float) : Q := Number.exact x.

Definition ofByte (v : Z) : float := Number.ofZ v.

(** The binary64 number nearest to 1.3. *)
Definition contrast : float := 0x1.4cccccccccccdp+0%float.

(** [Math.max(0, x)] and [Math.min(255, x)] on numbers that are not NaN. *)
Definition max0 (x : float) : float := if PrimFloat.ltb x 0 then 0%float else x.
Definition min255 (x : float) : float := if PrimFloat.ltb 255 x then 255%float else x.

Definition clamped (v bf : Z) : float :=
  min255 (max0 ((ofByte v - 128) * contrast + 128 + ofByte bf))%float.

Definition enhanceChannel (v bf : Z) : Z := Enhance.toUint8Clamp (exact (clamped v bf)).


End Binary64.

(* ===================================================================== *)
(** ** Views of a dispatch                                                *)
(* ===================================================================== *)

Module Observe.

(** The text of the warning written to the console when the remote attempt
    is given up. *)
Definition warning (m : string) : OCR.Event :=
  OCR.ConsoleWarn ("[OCR] Online failed, trying offline: " ++ m).

End Observe.

(* ===================================================================== *)
(** ** The batch's progress bar and summary (js/app.js)                   *)
(* ===================================================================== *)

Module BatchView.

Open Scope string_scope.

(** [updateBatchProgress(current, total)]: the status line and the width of
    the bar, [total > 0 ? (current / total) * 100 : 0] percent. *)
Definition percent (current total : nat) : Q :=
  if (0 <? total)%nat
  then inject_Z (Z.of_nat current) / inject_Z (Z.of_nat total) * 100
  else 0.

Definition updateBatchProgress (current total : nat) : string * Q :=
  ("Processing " ++ pretty current ++ "/" ++ pretty total, percent current total).

(** The toast of [cancelBatchProcessing] and the two summaries
    [handleBatchFiles] can show. *)
Definition cancellingToast : string := "⏹️ Cancelling batch...".

Definition cancelledToast (saved processed : nat) : string :=
  "⏹️ Batch cancelled. Saved " ++ pretty saved ++ "/" ++ pretty processed ++ " images.".

Definition completeToast (saved total : nat) : string :=
  "✅ Batch complete! Saved " ++ pretty saved ++ "/" ++ pretty total ++ " images.".

(** What the batch fills in for a record besides the parsed text. *)
Definition batchRecord (page : Batch.Page) (scan : Batch.Scan) : Prop :=
  Batch.rackNo scan = "" /\
  Batch.shelfNo scan = "" /\
  Batch.movement scan
  = (if decide (Batch.movementValue page = "") then "IN" else Batch.movementValue page) /\
  Batch.parse page (Batch.rawText scan) = Some (Batch.fields scan).

End BatchView.

(* ===================================================================== *)
(** ** The crop box: [App.initCropDrag] (js/app.js)                       *)
(* ===================================================================== *)

(** Positions and sizes are whole CSS pixels.  The box is positioned by its
    [left], [top], [width] and [height] styles, so its offsets are what was
    last assigned. *)

Module Crop.

Record Box := { left : Z; top : Z; width : Z; height : Z }.

Record Container := { clientWidth : Z; clientHeight : Z }.

(** [mode]: [null], ['drag'], or ['resize-' + target.dataset.resize]; for the
    last one [corner] is what [mode.split('-')[1]] gives. *)
Inductive Mode :=
| Idle
| Drag
| Resize (corner : string).

(** Where a press lands: on a resize handle, on the box itself, or on
    something inside the box that is neither. *)
Inductive Target :=
| Handle (corner : string)
| TheBox
| Inside.

Record State := {
  box : Box;
  mode : Mode;
  startX : Z; startY : Z;
  startL : Z; startT : Z; startW : Z; startH : Z
}.

(** [corner.includes(c)] for a one-character [c]. *)
Fixpoint includes (c : Ascii.ascii) (corner : string) : bool :=
  match corner with
  | EmptyString => false
  | String d rest => if Ascii.eqb c d then true else includes c rest
  end.

Definition minSize : Z := 50.

(** [start(e)] with the pointer at [(x, y)]. *)
Definition start (target : Target) (x y : Z) (s : State) : State :=
  {| box := box s;
     mode := match target with
             | Handle corner => Resize corner
             | TheBox => Drag
             | Inside => mode s
             end;
     startX := x; startY := y;
     startL := left (box s); startT := top (box s);
     startW := width (box s); startH := height (box s) |}.

Definition withBox (b : Box) (s : State) : State :=
  {| box := b; mode := mode s; startX := startX s; startY := startY s;
     startL := startL s; startT := startT s; startW := startW s; startH := startH s |}.

(** The [resize-] branch of [move]. *)
Definition resized (corner : string) (c : Container) (s : State) (dx dy : Z) : Box :=
  let newL := startL s in
  let newT := startT s in
  let newW := startW s in
  let newH := startH s in
  let newW := if includes "e"%char corner then Z.max minSize (startW s + dx) else newW in
  let '(newL, newW) :=
    if includes "w"%char corner then
      let maxDx := startW s - minSize in
      let actualDx := Z.min dx maxDx in
      (startL s + actualDx, startW s - actualDx)
    else (newL, newW) in
  let newH := if includes "s"%char corner then Z.max minSize (startH s + dy) else newH in
  let '(newT, newH) :=
    if includes "n"%char corner then
      let maxDy := startH s - minSize in
      let actualDy := Z.min dy maxDy in
      (startT s + actualDy, startH s - actualDy)
    else (newT, newH) in
  let newL := Z.max 0 newL in
  let newT := Z.max 0 newT in
  let newW := if clientWidth c <? newL + newW then clientWidth c - newL else newW in
  let newH := if clientHeight c <? newT + newH then clientHeight c - newT else newH in
  {| left := newL; top := newT; width := newW; height := newH |}.

(** [move(e)] with the pointer at [(x, y)]. *)
Definition move (c : Container) (x y : Z) (s : State) : State :=
  match mode s with
  | Idle => s
  | Drag =>
      let dx := x - startX s in
      let dy := y - startY s in
      let maxX := clientWidth c - width (box s) in
      let maxY := clientHeight c - height (box s) in
      withBox {| left := Z.max 0 (Z.min maxX (startL s + dx));
                 top := Z.max 0 (Z.min maxY (startT s + dy));
                 width := width (box s); height := height (box s) |} s
  | Resize corner => withBox (resized corner c s (x - startX s) (y - startY s)) s
  end.

(** [end()] *)
Definition stop (s : State) : State :=
  {| box := box s; mode := Idle; startX := startX s; startY := startY s;
     startL := startL s; startT := startT s; startW := startW s; startH := startH s |}.

Inductive Pointer :=
| Down (target : Target) (x y : Z)
| Moved (x y : Z)
| Up.

Definition handle (c : Container) (s : State) (e : Pointer) : State :=
  match e with
  | Down target x y => start target x y s
  | Moved x y => move c x y s
  | Up => stop s
  end.

Definition gesture (c : Container) (events : list Pointer) (s : State) : State :=
  foldl (handle c) s events.

(** The box lies within the container and is at least [minSize] each way. *)
Definition fits (c : Container) (b : Box) : Prop :=
  0 <= left b /\ 0 <= top b /\
  minSize <= width b /\ minSize <= height b /\
  left b + width b <= clientWidth c /\ top b + height b <= clientHeight c.

(** While a gesture is under way the values captured at the press are those
    of a box that fits, and a drag has not changed the size. *)
Definition anchored (c : Container) (s : State) : Prop :=
  fits c (box s) /\
  (mode s <> Idle ->
   fits c {| left := startL s; top := startT s; width := startW s; height := startH s |} /\
   (mode s = Drag -> width (box s) = startW s /\ height (box s) = startH s)).

End Crop.

(* ===================================================================== *)
(** ** E-mail addresses: [App.isValidEmail], [App.saveEmail] (js/app.js)  *)
(* ===================================================================== *)

(** A JavaScript string is a sequence of UTF-16 code units, which is what a
    regular expression without the [u] flag reads. *)

Module Regex.

Inductive re :=
| Void                       (* matches nothing *)
| Eps                        (* the empty string *)
| Class (p : N -> bool)      (* one code unit of a class *)
| Cat (a b : re)
| Alt (a b : re)
| Star (a : re).

(** [a+] *)
Definition Plus (a : re) : re := Cat a (Star a).

Fixpoint nullable (r : re) : bool :=
  match r with
  | Void => false
  | Eps => true
  | Class _ => false
  | Cat a b => nullable a && nullable b
  | Alt a b => nullable a || nullable b
  | Star _ => true
  end.

(** What is left to match after reading [c]. *)
Fixpoint deriv (c : N) (r : re) : re :=
  match r with
  | Void => Void
  | Eps => Void
  | Class p => if p c then Eps else Void
  | Cat a b =>
      if nullable a then Alt (Cat (deriv c a) b) (deriv c b) else Cat (deriv c a) b
  | Alt a b => Alt (deriv c a) (deriv c b)
  | Star a => Cat (deriv c a) (Star a)
  end.

(** [/^r$/.test(s)] *)
Fixpoint test (r : re) (s : list N) : bool :=
  match s with
  | [] => nullable r
  | c :: s => test (deriv c r) s
  end.

(** The strings a regular expression denotes. *)
Inductive matches : re -> list N -> Prop :=
| m_eps : matches Eps []
| m_class p c : p c = true -> matches (Class p) [c]
| m_cat a b s t : matches a s -> matches b t -> matches (Cat a b) (s ++ t)
| m_alt_l a b s : matches a s -> matches (Alt a b) s
| m_alt_r a b s : matches b s -> matches (Alt a b) s
| m_star_nil a : matches (Star a) []
| m_star_more a s t : matches a s -> matches (Star a) t -> matches (Star a) (s ++ t).

End Regex.

Module Email.

(** [\s]: the white space and line terminator code units of ECMAScript. *)
Definition isSpace (c : N) : bool :=
  ((9 <=? c) && (c <=? 13) || (c =? 32) || (c =? 160) || (c =? 5760)
   || (8192 <=? c) && (c <=? 8202) || (c =? 8232) || (c =? 8233) || (c =? 8239)
   || (c =? 8287) || (c =? 12288) || (c =? 65279))%N.

Definition at_sign : N := 64.
Definition dot : N := 46.

(** [[^\s@]] *)
Definition plain (c : N) : bool := negb (isSpace c || (c =? at_sign)%N).

(** [/^[^\s@]+@[^\s@]+\.[^\s@]+$/] *)
Definition pattern : Regex.re :=
  Regex.Cat (Regex.Plus (Regex.Class plain))
    (Regex.Cat (Regex.Class (N.eqb at_sign))
       (Regex.Cat (Regex.Plus (Regex.Class plain))
          (Regex.Cat (Regex.Class (N.eqb dot))
             (Regex.Plus (Regex.Class plain))))).

Definition isValidEmail (email : list N) : bool := Regex.test pattern email.

(** [localStorage.getItem('savedEmails')]: absent, or the JSON of an array
    of strings, which [JSON.parse] gives back as it was written. *)
Definition Saved := option (list (list N)).

(** [saved ? JSON.parse(saved) : []] *)
Definition emails (saved : Saved) : list (list N) := default [] saved.

(** [emails.unshift(email); if (emails.length > 10) emails.pop();] *)
Definition remember (email : list N) (l : list (list N)) : list (list N) :=
  let l := email :: l in
  if (10 <? length l)%nat then removelast l else l.

(** [saveEmail(email)] *)
Definition saveEmail (email : list N) (saved : Saved) : Saved :=
  if bool_decide (email = []) || negb (isValidEmail email) then saved
  else
    let l := emails saved in
    if bool_decide (email ∈ l) then saved
    else Some (remember email l).

(** "ann@shop.example" and friends, as code units. *)
Definition text (s : string) : list N :=
  (fun a => N.of_nat (nat_of_ascii a)) <$> list_ascii_of_string s.

End Email.

(* ===================================================================== *)
(** ** Rack and shelf options: [App.loadLocationOptions],
       [App.saveLocationOption] (js/app.js)                               *)
(* ===================================================================== *)

Module Locations.

Open Scope string_scope.

Definition defaultRacks : list string :=
  ["Rack 1"; "Rack 2"; "Rack 3"; "Rack 4"; "Rack 5"].

Definition defaultShelves : list string :=
  ["Shelf A"; "Shelf B"; "Shelf C"; "Shelf D"; "Shelf E"].

(** The part of [localStorage] that holds arrays of strings: a key is absent
    or holds the JSON of an array, which [JSON.parse] gives back as it was
    written. *)
Abbreviation LocalStorage := (gmap string (list string)).

(** [saved ? JSON.parse(saved) : []] for [saved = localStorage.getItem(key)] *)
Definition stored (key : string) (ls : LocalStorage) : list string :=
  default [] (ls !! key).

(** [[...new Set(l)]]: a [Set] keeps its values in the order of their first
    insertion. *)
Definition setAdd (s : list string) (x : string) : list string :=
  if bool_decide (x ∈ s) then s else (s ++ [x])%list.

Definition distinct (l : list string) : list string := foldl setAdd [] l.

(** [allRacks] and [allShelves]: [[...new Set([...defaults, ...custom])]]. *)
Definition allOptions (defaults custom : list string) : list string :=
  distinct (defaults ++ custom).

Definition dquote : string := String "034"%char EmptyString.

(** [`<option value="${loc}">`]: the name goes into the markup as it is. *)
Definition optionTag (loc : string) : string :=
  "<option value=" ++ dquote ++ loc ++ dquote ++ ">".

(** [names.map(loc => `<option value="${loc}">`).join('')] *)
Definition markup (names : list string) : string :=
  String.concat "" (optionTag <$> names).

(** What was last assigned to the [innerHTML] of the two datalists,
    [rack-list] and [shelf-list].  How the browser reads that markup is not
    modelled: a name with a double quote or an ampersand in it is offered
    under another value than the one that was stored. *)
Record Datalists := { rack_list : string; shelf_list : string }.

Definition loadLocationOptions (ls : LocalStorage) : Datalists :=
  {| rack_list := markup (allOptions defaultRacks (stored "rackLocations" ls));
     shelf_list := markup (allOptions defaultShelves (stored "shelfLocations" ls)) |}.

Record Page := { localStorage : LocalStorage; datalists : Datalists }.

(** [storageKey === 'rackLocations' ? this.defaultRacks : this.defaultShelves] *)
Definition defaultsFor (storageKey : string) : list string :=
  if decide (storageKey = "rackLocations") then defaultRacks else defaultShelves.

(** [saveLocationOption(storageKey, location, datalistId)]; the third
    argument is not used by the function. *)
Definition saveLocationOption (storageKey location : string) (p : Page) : Page :=
  if bool_decide (location = "") || bool_decide (location ∈ defaultsFor storageKey)
  then p
  else
    let custom := stored storageKey (localStorage p) in
    if bool_decide (location ∈ custom) then p
    else
      let ls := <[storageKey := (custom ++ [location])%list]> (localStorage p) in
      {| localStorage := ls; datalists := loadLocationOptions ls |}.

(** The names [loadLocationOptions] writes for a storage key, and the
    markup it writes them as. *)
Definition namesFor (storageKey : string) (ls : LocalStorage) : list string :=
  allOptions (defaultsFor storageKey) (stored storageKey ls).

Definition markupFor (storageKey : string) (d : Datalists) : string :=
  if decide (storageKey = "rackLocations") then rack_list d else shelf_list d.

(** Custom locations as the function leaves them: no repetition, no empty
    name, no default among them. *)
Definition clean (storageKey : string) (ls : LocalStorage) : Prop :=
  NoDup (stored storageKey ls) /\
  ("" ∉ stored storageKey ls) /\
  (forall x, x ∈ stored storageKey ls -> x ∉ defaultsFor storageKey).

(** A page that has just run [loadLocationOptions] on an empty storage. *)
Definition first_visit : Page :=
  {| localStorage := ∅; datalists := loadLocationOptions ∅ |}.

(** A sequence of calls [saveLocationOption(key, location, _)]. *)
Definition saveAll (calls : list (string * string)) (p : Page) : Page :=
  foldl (fun p c => saveLocationOption c.1 c.2 p) p calls.

End Locations.

(* ===================================================================== *)
(** ** Saving the scan on screen: [App.save], [App.clear],
       [App.showResults] (js/app.js)                                      *)
(* ===================================================================== *)

Module Entry.

Open Scope string_scope.

(** A scan object: each property it has holds [null] ([None]) or a string.
    The [confidence] object the parser adds is left out, and with it the
    badges that [showResults] sets from it. *)
Abbreviation Scan := (gmap string (option string)).

(** [scan.key] where it is tested or printed with a fallback: a property
    that is missing and one that is [null] count alike. *)
Definition prop (key : string) (scan : Scan) : option string :=
  match scan !! key with
  | Some (Some v) => Some v
  | _ => None
  end.

(** [v || ''], [v || null], [v || 'IN'] and [!v] *)
Definition orEmpty (v : option string) : string := default "" v.

Definition orNull (v : string) : option string :=
  if decide (v = "") then None else Some v.

Definition orIN (v : string) : string := if decide (v = "") then "IN" else v.

Definition missing (v : option string) : bool :=
  match v with
  | Some v => bool_decide (v = "")
  | None => true
  end.

(** The values of the inputs of the result form. *)
Record Form := {
  batch : string;
  mfg : string;
  expiry : string;
  flavour : string;
  rackNo : string;
  shelfNo : string;
  movement : string
}.

Record State := {
  currentScan : option Scan;
  form : Form;
  resultsHidden : bool;              (* the [hidden] class of [el.results] *)
  preview : string;                  (* [el.preview.src] *)
  rawText : string;                  (* [el.rawText.textContent] *)
  inActive : bool;                   (* the [active] class of [el.btnIn] *)
  outActive : bool;                  (* the [active] class of [el.btnOut] *)
  locations : Locations.Page;
  database : list Scan;              (* what Storage holds *)
  toasts : list string
}.

Definition toast (msg : string) (s : State) : State :=
  {| currentScan := currentScan s; form := form s; resultsHidden := resultsHidden s;
     preview := preview s; rawText := rawText s; inActive := inActive s;
     outActive := outActive s; locations := locations s; database := database s;
     toasts := (toasts s ++ [msg])%list |}.

Definition setScan (scan : option Scan) (s : State) : State :=
  {| currentScan := scan; form := form s; resultsHidden := resultsHidden s;
     preview := preview s; rawText := rawText s; inActive := inActive s;
     outActive := outActive s; locations := locations s; database := database s;
     toasts := toasts s |}.

Definition setLocations (p : Locations.Page) (s : State) : State :=
  {| currentScan := currentScan s; form := form s; resultsHidden := resultsHidden s;
     preview := preview s; rawText := rawText s; inActive := inActive s;
     outActive := outActive s; locations := p; database := database s;
     toasts := toasts s |}.

Definition setResultsHidden (b : bool) (s : State) : State :=
  {| currentScan := currentScan s; form := form s; resultsHidden := b;
     preview := preview s; rawText := rawText s; inActive := inActive s;
     outActive := outActive s; locations := locations s; database := database s;
     toasts := toasts s |}.

Definition setPreview (src : string) (s : State) : State :=
  {| currentScan := currentScan s; form := form s; resultsHidden := resultsHidden s;
     preview := src; rawText := rawText s; inActive := inActive s;
     outActive := outActive s; locations := locations s; database := database s;
     toasts := toasts s |}.

(** [Storage.save(scan)] once it has resolved. *)
Definition store (scan : Scan) (s : State) : State :=
  {| currentScan := currentScan s; form := form s; resultsHidden := resultsHidden s;
     preview := preview s; rawText := rawText s; inActive := inActive s;
     outActive := outActive s; locations := locations s;
     database := (database s ++ [scan])%list; toasts := toasts s |}.

(** [showResults(scan)]: the four parsed fields and the raw text go to the
    form; rack, shelf and movement stay as they are. *)
Definition showResults (scan : Scan) (s : State) : State :=
  {| currentScan := currentScan s;
     form := {| batch := orEmpty (prop "batchNo" scan);
                mfg := orEmpty (prop "mfgDate" scan);
                expiry := orEmpty (prop "expiryDate" scan);
                flavour := orEmpty (prop "flavour" scan);
                rackNo := rackNo (form s);
                shelfNo := shelfNo (form s);
                movement := movement (form s) |};
     resultsHidden := false;
     preview := preview s;
     rawText := orEmpty (prop "rawText" scan);
     inActive := inActive s; outActive := outActive s;
     locations := locations s; database := database s; toasts := toasts s |}.

Definition blank : Form :=
  {| batch := ""; mfg := ""; expiry := ""; flavour := "";
     rackNo := ""; shelfNo := ""; movement := "IN" |}.

(** [clear()] *)
Definition clear (s : State) : State :=
  {| currentScan := None; form := blank; resultsHidden := true;
     preview := ""; rawText := rawText s; inActive := true; outActive := false;
     locations := locations s; database := database s; toasts := toasts s |}.

(** The seven assignments [this.currentScan.x = this.el.x.value || ...]. *)
Definition readForm (f : Form) (scan : Scan) : Scan :=
  <["movement" := Some (orIN (movement f))]>
    (<["shelfNo" := orNull (shelfNo f)]>
       (<["rackNo" := orNull (rackNo f)]>
          (<["flavour" := orNull (flavour f)]>
             (<["expiryDate" := orNull (expiry f)]>
                (<["mfgDate" := orNull (mfg f)]>
                   (<["batchNo" := orNull (batch f)]> scan)))))).

(** Whether [Storage.save] and the [Storage.getAll] of [loadHistory]
    resolve ([None]) or reject with an error of the given message.  What
    [loadHistory] renders is not part of the state. *)
Record Storage := { saveError : option string; getAllError : option string }.

(** How an [async] function ends. *)
Inductive Outcome :=
| Returned
| Rejected (message : string).

(** [if (location) this.saveLocationOption(key, location, _)] *)
Definition rememberLocation (key : string) (location : option string) (s : State) : State :=
  match location with
  | Some l =>
      if decide (l = "") then s
      else setLocations (Locations.saveLocationOption key l (locations s)) s
  | None => s
  end.

(** [save()] *)
Definition save (io : Storage) (s : State) : Outcome * State :=
  match currentScan s with
  | None => (Returned, toast "Nothing to save" s)
  | Some scan =>
      let scan := readForm (form s) scan in
      let s := setScan (Some scan) s in
      if missing (prop "rackNo" scan) || missing (prop "shelfNo" scan)
      then (Returned, toast "❌ Rack and Shelf are mandatory" s)
      else
        let s := rememberLocation "rackLocations" (prop "rackNo" scan) s in
        let s := rememberLocation "shelfLocations" (prop "shelfNo" scan) s in
        match saveError io with
        | Some m => (Rejected m, s)
        | None =>
            let s := toast "💾 Saved!" (store scan s) in
            match getAllError io with
            | Some m => (Rejected m, s)
            | None => (Returned, clear s)
            end
        end
  end.

(** A record that says where the goods are. *)
Definition located (scan : Scan) : Prop :=
  exists rack shelf,
    prop "rackNo" scan = Some rack /\ rack <> "" /\
    prop "shelfNo" scan = Some shelf /\ shelf <> "".

(** A form filled in by the operator, and a working storage. *)
Module Scenario.

Definition working : Storage := {| saveError := None; getAllError := None |}.

Definition filled : State :=
  {| currentScan := Some {[ "rawText" := Some "BATCH 42" ]};
     form := {| batch := "42"; mfg := ""; expiry := ""; flavour := "";
                rackNo := "Rack 2"; shelfNo := "Cold shelf"; movement := "" |};
     resultsHidden := false; preview := "data:"; rawText := "BATCH 42";
     inActive := true; outActive := false;
     locations := Locations.first_visit; database := []; toasts := [] |}.

End Scenario.

End Entry.

(* ===================================================================== *)
(** ** One photo: [App.handleFile] (js/app.js)                            *)
(* ===================================================================== *)

Module Single.

Open Scope string_scope.

(** What the operator and the platform do during one [change] event of the
    file input. *)
Record Selection := {
  chosen : option OCR.File;            (* [e.target.files[0]] *)
  dataUrl : option string;             (* [fileToDataUrl]: the URL, or the reader fails *)
  quickMode : bool;                    (* [el.quickMode.checked] *)
  cropped : option OCR.Blob;           (* what [showCropModal] resolves with; [null] after Skip *)
  env : OCR.Env;                       (* the oracles of the OCR dispatch *)
  parse : string -> option Batch.Parsed;   (* [Parser.parse]; [None]: it throws *)
  parseError : string;                 (* the message of what it throws *)
  now : string;                        (* [new Date().toLocaleString('en-IN')] *)
  continuous : bool;                   (* [el.continuous.checked] *)
  storage : Entry.Storage
}.

Record State := {
  app : Entry.State;
  ocr : OCR.State;
  shown : list OCR.Event;              (* effects of the OCR dispatch *)
  loadingHidden : bool;                (* the [hidden] class of [el.loading] *)
  inputValue : string                  (* [e.target.value] *)
}.

Definition setApp (a : Entry.State) (s : State) : State :=
  {| app := a; ocr := ocr s; shown := shown s;
     loadingHidden := loadingHidden s; inputValue := inputValue s |}.

Definition setLoadingHidden (b : bool) (s : State) : State :=
  {| app := app s; ocr := ocr s; shown := shown s;
     loadingHidden := b; inputValue := inputValue s |}.

Definition setInputValue (v : string) (s : State) : State :=
  {| app := app s; ocr := ocr s; shown := shown s;
     loadingHidden := loadingHidden s; inputValue := v |}.

(** [{ timestamp: ..., rawText: text, ...parsed }] *)
Definition newScan (now text : string) (parsed : Batch.Parsed) : Entry.Scan :=
  foldl (fun scan kv => <[kv.1 := Some kv.2]> scan)
    (<["rawText" := Some text]> {[ "timestamp" := Some now ]}) parsed.

(** The [try] block.  [Rejected m] is an exception whose [message] prints as
    [m]; the event a failed reader rejects with has no [message]. *)
Definition attempt (c : Selection) (file : OCR.File) (s : State) : Entry.Outcome * State :=
  match dataUrl c with
  | None => (Entry.Rejected "undefined", s)
  | Some url =>
      match (if quickMode c then Some file else cropped c) with
      | None => (Entry.Returned, setInputValue "" s)
      | Some imageToProcess =>
          let s := setLoadingHidden false s in
          let s := setApp (Entry.setResultsHidden true (app s)) s in
          let '(r, ocr', evs) :=
            OCR.process (env c) imageToProcess (Some (fun status => status)) (ocr s) in
          let s := {| app := app s; ocr := ocr'; shown := (shown s ++ evs)%list;
                      loadingHidden := loadingHidden s; inputValue := inputValue s |} in
          match r with
          | OCR.Throw err => (Entry.Rejected (OCR.message err), s)
          | OCR.Ok text =>
              match parse c text with
              | None => (Entry.Rejected (parseError c), s)
              | Some parsed =>
                  let scan := newScan (now c) text parsed in
                  let a := Entry.setScan (Some scan) (app s) in
                  let a := Entry.setPreview url a in
                  let a := Entry.showResults scan a in
                  if continuous c then
                    match Entry.save (storage c) a with
                    | (Entry.Rejected m, a) => (Entry.Rejected m, setApp a s)
                    | (Entry.Returned, a) =>
                        (Entry.Returned,
                         setApp (Entry.toast "✅ Saved! Ready for next" a) s)
                    end
                  else (Entry.Returned, setApp a s)
              end
          end
      end
  end.

(** [handleFile(e)] *)
Definition handleFile (c : Selection) (s : State) : State :=
  match chosen c with
  | None => s
  | Some file =>
      let '(o, s) := attempt c file s in
      let s :=
        match o with
        | Entry.Rejected m => setApp (Entry.toast ("❌ " ++ m) (app s)) s
        | Entry.Returned => s
        end in
      setInputValue "" (setLoadingHidden true s)
  end.

(** The state [handleFile] leaves when it got as far as the dispatch. *)
Definition finish (s : State) (o : OCR.Result string * OCR.State * list OCR.Event)
    (a : Entry.State) : State :=
  {| app := a; ocr := OCR.final o; shown := (shown s ++ OCR.events o)%list;
     loadingHidden := true; inputValue := "" |}.

(** Whether the selection gets as far as the OCR dispatch, and on what. *)
Definition dispatched (c : Selection) : option OCR.File :=
  match chosen c, dataUrl c with
  | Some file, Some _ => if quickMode c then Some file else cropped c
  | _, _ => None
  end.

Module Scenario.

(** A label photographed in continuous mode with nothing typed into the
    rack and shelf inputs. *)
Definition hurried : Selection :=
  {| chosen := Some "label.jpg"; dataUrl := Some "data:image/jpeg;base64,";
     quickMode := true; cropped := None; env := OCR.Scenario.disconnected;
     parse := fun text => Some [("batchNo", text)]; parseError := "";
     now := "2/11/2026, 10:00:00 am"; continuous := true;
     storage := Entry.Scenario.working |}.

Definition idle : State :=
  {| app := Entry.clear Entry.Scenario.filled; ocr := OCR.Scenario.fresh;
     shown := []; loadingHidden := true; inputValue := "C:/fakepath/label.jpg" |}.

(** A file that is not an image, chosen in quick mode. *)
Definition torn : Selection :=
  {| chosen := Some "torn.bin"; dataUrl := Some "data:application/octet-stream;base64,";
     quickMode := true; cropped := None; env := OCR.Scenario.disconnected;
     parse := fun text => Some [("batchNo", text)]; parseError := "";
     now := "2/11/2026, 10:05:00 am"; continuous := false;
     storage := Entry.Scenario.working |}.

(** The same label with rack and shelf typed in beforehand. *)
Definition prepared : State :=
  {| app := Entry.Scenario.filled; ocr := OCR.Scenario.fresh;
     shown := []; loadingHidden := true; inputValue := "C:/fakepath/label.jpg" |}.

End Scenario.

End Single.

(* ===================================================================== *)
(** ** Export: [App.generateCSV], [App.sendEmail] (js/app.js)             *)
(* ===================================================================== *)

Module Outbox.

Open Scope string_scope.

Definition quote : string := String "034"%char EmptyString.
Definition newline : string := String "010"%char EmptyString.

(** [`${v}`] for a property that may be missing or [null]. *)
Definition printed (v : option (option string)) : string :=
  match v with
  | None => "undefined"
  | Some None => "null"
  | Some (Some v) => v
  end.

(** The eight values of a row, in the order of the header. *)
Definition cells (scan : Entry.Scan) : list string :=
  [ printed (scan !! "timestamp");
    match Entry.prop "movement" scan with
    | Some m => Entry.orIN m
    | None => "IN"
    end;
    Entry.orEmpty (Entry.prop "batchNo" scan);
    Entry.orEmpty (Entry.prop "mfgDate" scan);
    Entry.orEmpty (Entry.prop "expiryDate" scan);
    Entry.orEmpty (Entry.prop "flavour" scan);
    Entry.orEmpty (Entry.prop "rackNo" scan);
    Entry.orEmpty (Entry.prop "shelfNo" scan) ].

Definition row (scan : Entry.Scan) : string :=
  String.concat "," ((fun v => quote ++ v ++ quote) <$> cells scan).

Definition header : string :=
  "Timestamp,Movement,Batch,Mfg,Expiry,Flavour,Rack No,Shelf No".

(** [generateCSV(scans)] *)
Definition generateCSV (scans : list Entry.Scan) : string :=
  String.concat newline (header :: (row <$> scans)).

(** How often a character occurs in a string. *)
Fixpoint occurrences (c : Ascii.ascii) (s : string) : nat :=
  match s with
  | EmptyString => 0
  | String d rest => (if Ascii.eqb c d then 1 else 0) + occurrences c rest
  end.

(** [value.trim()]: white space and line terminators are the code units of
    [\s]. *)
Fixpoint trimStart (l : list N) : list N :=
  match l with
  | [] => []
  | c :: rest => if Email.isSpace c then trimStart rest else l
  end.

Definition trim (l : list N) : list N := rev (trimStart (rev (trimStart l))).

Definition GMAIL_EMAIL_URL : string :=
  "https://script.google.com/macros/s/AKfycbz_VAYQyP7MiMayNKZ4vmcur2pWPR5aqFtaN0YDR4R_WkfamMIi7Knba6Cwsz6vsiAxmA/exec".

(** The body of the request, without the parts that depend on the clock. *)
Record Request := { to_email : list N; csv_data : string }.

(** Whether the request, [Storage.clearAll] and the [Storage.getAll] of
    [loadHistory] resolve ([None]) or reject with an error of the given
    message.  The request is made with [mode: 'no-cors'], so it resolves
    whatever the server answers. *)
Record Network := {
  fetchError : option string;
  clearAllError : option string;
  getAllError : option string
}.

Record State := {
  recipient : list N;                             (* [el.emailRecipient.value] *)
  pendingExportScans : option (list Entry.Scan);
  modalHidden : bool;
  savedEmails : Email.Saved;
  database : list Entry.Scan;
  toasts : list string;
  requests : list Request                         (* what was posted to [GMAIL_EMAIL_URL] *)
}.

Definition toast (msg : string) (s : State) : State :=
  {| recipient := recipient s; pendingExportScans := pendingExportScans s;
     modalHidden := modalHidden s; savedEmails := savedEmails s;
     database := database s; toasts := (toasts s ++ [msg])%list;
     requests := requests s |}.

Definition failed (m : string) (s : State) : State :=
  toast ("❌ Failed to send email: " ++ m) s.

(** [hideEmailModal()] *)
Definition hideEmailModal (s : State) : State :=
  {| recipient := []; pendingExportScans := None; modalHidden := true;
     savedEmails := savedEmails s; database := database s; toasts := toasts s;
     requests := requests s |}.

(** The [try] block of [sendEmail] from the request on. *)
Definition send (net : Network) (email : list N) (scans : list Entry.Scan) (s : State) : State :=
  let s := toast "📤 Sending email..." s in
  let s :=
    {| recipient := recipient s; pendingExportScans := pendingExportScans s;
       modalHidden := modalHidden s; savedEmails := savedEmails s;
       database := database s; toasts := toasts s;
       requests := (requests s ++ [{| to_email := email; csv_data := generateCSV scans |}])%list |} in
  match fetchError net with
  | Some m => failed m s
  | None =>
      let s := toast "✅ Email sent with CSV attachment!" s in
      let s :=
        {| recipient := recipient s; pendingExportScans := pendingExportScans s;
           modalHidden := modalHidden s;
           savedEmails := Email.saveEmail email (savedEmails s);
           database := database s; toasts := toasts s; requests := requests s |} in
      match clearAllError net with
      | Some m => failed m s
      | None =>
          let s :=
            {| recipient := recipient s; pendingExportScans := pendingExportScans s;
               modalHidden := modalHidden s; savedEmails := savedEmails s;
               database := []; toasts := toasts s; requests := requests s |} in
          match getAllError net with
          | Some m => failed m s
          | None => hideEmailModal s
          end
      end
  end.

(** [sendEmail()] *)
Definition sendEmail (net : Network) (s : State) : State :=
  let email := trim (recipient s) in
  if bool_decide (email = []) then toast "❌ Please enter an email address" s
  else if negb (Email.isValidEmail email) then toast "❌ Invalid email address" s
  else if bool_decide (GMAIL_EMAIL_URL = "") then toast "⚠️ Email not configured" s
  else
    match pendingExportScans s with
    | None => toast "❌ No data to send" s
    | Some [] => toast "❌ No data to send" s
    | Some scans => send net email scans s
    end.

Module Scenario.

Definition reachable : Network :=
  {| fetchError := None; clearAllError := None; getAllError := None |}.

Definition unreachable : Network :=
  {| fetchError := Some "Failed to fetch"; clearAllError := None; getAllError := None |}.

Definition scan42 : Entry.Scan :=
  {[ "timestamp" := Some "2/11/2026, 10:00:00 am"; "batchNo" := Some "42";
     "rackNo" := Some "Rack 2"; "shelfNo" := Some "Shelf A"; "movement" := Some "OUT" ]}.

Definition ready : State :=
  {| recipient := Email.text " ann@shop.example ";
     pendingExportScans := Some [scan42]; modalHidden := false;
     savedEmails := None; database := [scan42; scan42]; toasts := [];
     requests := [] |}.

End Scenario.

End Outbox.

(* ===================================================================== *)
(** ** Google Sheets: [App.sendToSheets] (js/app.js)                      *)
(* ===================================================================== *)

Module Sheets.

Open Scope string_scope.

Definition SHEETS_URL : string :=
  "https://script.google.com/macros/s/AKfycbz7HFMARa_UMZPotHCqELdpXgCD_STSH9NlhbaSjk9nAbW_gnEyAswKHXvs7kUgNTkM/exec".

(** The body of the request, without its timestamp. *)
Record Row := {
  batchNo : string;
  mfgDate : string;
  expiryDate : string;
  flavour : string;
  rackNo : string;
  shelfNo : string
}.

(** [this.el.x.value || ''] for the six inputs. *)
Definition data (f : Entry.Form) : Row :=
  {| batchNo := Entry.batch f; mfgDate := Entry.mfg f; expiryDate := Entry.expiry f;
     flavour := Entry.flavour f; rackNo := Entry.rackNo f; shelfNo := Entry.shelfNo f |}.

Record State := {
  app : Entry.State;
  posted : list Row;        (* what was posted to [SHEETS_URL] *)
  guideShown : bool         (* [showSheetsSetupGuide] ran *)
}.

Definition setApp (a : Entry.State) (s : State) : State :=
  {| app := a; posted := posted s; guideShown := guideShown s |}.

(** [sendToSheets()]; [fetchError] tells whether the request resolves
    ([None]) or rejects.  With [mode: 'no-cors'] it resolves whatever the
    server answers. *)
Definition sendToSheets (fetchError : option string) (io : Entry.Storage) (s : State) : State :=
  match Entry.currentScan (app s) with
  | None => setApp (Entry.toast "Nothing to send" (app s)) s
  | Some _ =>
      if bool_decide (SHEETS_URL = "")
      then {| app := Entry.toast "⚠️ Sheets not configured" (app s);
              posted := posted s; guideShown := true |}
      else
        let row := data (Entry.form (app s)) in
        let s := {| app := Entry.toast "📤 Sending..." (app s);
                    posted := (posted s ++ [row])%list; guideShown := guideShown s |} in
        match fetchError with
        | Some _ => setApp (Entry.toast "❌ Failed to send" (app s)) s
        | None =>
            let a := Entry.toast "✅ Sent to Google Sheets!" (app s) in
            match Entry.save io a with
            | (Entry.Rejected _, a) => setApp (Entry.toast "❌ Failed to send" a) s
            | (Entry.Returned, a) => setApp a s
            end
        end
  end.

End Sheets.

(* ===================================================================== *)
(** ** Sync with the inventory database: [App.syncToDatabase] (js/app.js) *)
(* ===================================================================== *)

Module Sync.

Open Scope string_scope.

(** What comes back from [fetch('/api/sync', ...)] and [response.json()]:
    the request is rejected, the body is not JSON (or not an object, so
    that reading [result.success] throws), or the body is an object whose
    [success] is truthy or not, with [synced] as it prints and [error]. *)
Inductive Reply :=
| Unreachable (m : string)
| NotJson (m : string)
| Answer (success : bool) (synced : string) (error : option string).

(** [localStorage.getItem('user')] and what [JSON.parse] makes of it: no
    entry; a text that is not JSON, for which [JSON.parse] throws; the JSON
    [null], for which reading [user.name] throws; or a value with the
    [name] and [branch_id] it has, if any. *)
Inductive UserData :=
| NoUser
| Garbled (m : string)
| NullUser (m : string)
| User (name branch_id : option string).

(** The answers to the two [confirm] dialogs. *)
Record Dialogs := { confirmSync : bool; confirmClear : bool }.

(** Whether the first [Storage.getAll], [Storage.clearAll] and the
    [Storage.getAll] of [loadHistory] resolve ([None]) or reject. *)
Record Platform := {
  readError : option string;
  userData : UserData;
  reply : Reply;
  clearAllError : option string;
  getAllError : option string
}.

(** The body of a request: [{ scans, user: user.name, branch_id: user.branch_id }]. *)
Record Request := {
  scans : list Entry.Scan;
  user : option string;
  branch_id : option string
}.

Record State := {
  database : list Entry.Scan;
  toasts : list string;
  sent : list Request
}.

Definition toast (msg : string) (s : State) : State :=
  {| database := database s; toasts := (toasts s ++ [msg])%list; sent := sent s |}.

Definition failed (m : string) (s : State) : State := toast ("❌ Sync failed: " ++ m) s.

(** [result.error || 'Unknown error'] *)
Definition orUnknown (error : option string) : string :=
  match error with
  | Some m => if decide (m = "") then "Unknown error" else m
  | None => "Unknown error"
  end.

(** The [try] block once the request body has been built. *)
Definition exchange (d : Dialogs) (p : Platform) (body : Request) (s : State) : State :=
  let s := {| database := database s; toasts := toasts s;
              sent := (sent s ++ [body])%list |} in
  match reply p with
  | Unreachable m => failed m s
  | NotJson m => failed m s
  | Answer success synced error =>
      if success then
        let s := toast ("✅ Synced " ++ synced ++ " scans to database!") s in
        if confirmClear d then
          match clearAllError p with
          | Some m => failed m s
          | None =>
              let s := {| database := []; toasts := toasts s; sent := sent s |} in
              match getAllError p with
              | Some m => failed m s
              | None => toast "Local history cleared" s
              end
          end
        else s
      else failed (orUnknown error) s
  end.

(** [syncToDatabase()].  The user is looked up after the test for an empty
    database and before the first dialog, outside the [try] block. *)
Definition syncToDatabase (d : Dialogs) (p : Platform) (s : State) : Entry.Outcome * State :=
  match readError p with
  | Some m => (Entry.Rejected m, s)
  | None =>
      let all := database s in
      if bool_decide (all = []) then (Entry.Returned, toast "No scans to sync" s)
      else
        match userData p with
        | Garbled m => (Entry.Rejected m, s)
        | found =>
            if negb (confirmSync d) then (Entry.Returned, s)
            else
              let s := toast "⏳ Syncing to database..." s in
              (Entry.Returned,
               match found with
               | NullUser m => failed m s
               | User name branch =>
                   exchange d p {| scans := all; user := name; branch_id := branch |} s
               | _ =>
                   exchange d p {| scans := all; user := Some "Unknown"; branch_id := None |} s
               end)
        end
  end.

(** The body the request carries when one is sent. *)
Definition bodyOf (p : Platform) (s : State) : Request :=
  match userData p with
  | User name branch => {| scans := database s; user := name; branch_id := branch |}
  | _ => {| scans := database s; user := Some "Unknown"; branch_id := None |}
  end.

End Sync.

(* ===================================================================== *)
(** * Properties                                                          *)
(* ===================================================================== *)

(** ** Enhancement *)

Section EnhanceFacts.

Import Enhance.


Lemma roundHalfEven_byte (x : Q) :
  (0 <= x)%Q -> (x <= 255)%Q -> 0 <= roundHalfEven x <= 255.
Proof.
  intros H0 H255. unfold roundHalfEven.
  pose proof (Qfloor_le x) as Hle.
  pose proof (Qlt_floor x) as Hlt.
  assert (Hf0 : 0 <= Qfloor x).
  { change 0 with (Qfloor (inject_Z 0)). apply Qfloor_resp_le. exact H0. }
  assert (Hf255 : Qfloor x <= 255).
  { change 255 with (Qfloor (inject_Z 255)). apply Qfloor_resp_le. exact H255. }
  destruct (Qcompare_spec (x - inject_Z (Qfloor x)) (1 # 2)) as [He|Hl|Hg].
  - destruct (Z.eq_dec (Qfloor x) 255) as [E|NE].
    + rewrite E in He. change (inject_Z 255) with 255%Q in He. lra.
    + destruct (Z.even (Qfloor x)); lia.
  - lia.
  - destruct (Z.eq_dec (Qfloor x) 255) as [E|NE].
    + rewrite E in Hg. change (inject_Z 255) with 255%Q in Hg. lra.
    + lia.
Qed.

Lemma clamped_range (v bf : Z) : (0 <= clamped v bf)%Q /\ (clamped v bf <= 255)%Q.
Proof.
  unfold clamped. split.
  - apply Q.min_glb; [lra|]. apply Q.le_max_l.
  - apply Q.le_min_l.
Qed.



(** [Math.min] / [Math.max] alone already keep the value in range: the
    clamping of the typed array never fires. *)
Lemma enhanceChannel_round (v bf : Z) :
  enhanceChannel v bf = roundHalfEven (clamped v bf).
Proof.
  unfold enhanceChannel, toUint8Clamp.
  destruct (clamped_range v bf) as [H0 H255].
  pose proof (roundHalfEven_byte _ H0 H255). lia.
Qed.

Lemma roundHalfEven_comp (x y : Q) : x == y -> roundHalfEven x = roundHalfEven y.
Proof.
  intros E. unfold roundHalfEven.
  rewrite (Qfloor_comp _ _ E).
  assert (E' : x - inject_Z (Qfloor y) == y - inject_Z (Qfloor y)) by (rewrite E; reflexivity).
  rewrite (Qcompare_comp _ _ _ _ E' (Qeq_refl (1 # 2))) || rewrite E'.
  reflexivity.
Qed.

(** Inside the range the stored value is the rounded linear transform;
    outside it saturates. *)
Lemma enhanceChannel_linear (v bf : Z) :
  (0 <= stretched v bf)%Q -> (stretched v bf <= 255)%Q ->
  enhanceChannel v bf = roundHalfEven (stretched v bf).
Proof.
  intros H0 H255. rewrite enhanceChannel_round.
  apply roundHalfEven_comp. unfold clamped.
  rewrite (Q.max_r _ _ H0). apply Q.min_r. exact H255.
Qed.

Lemma enhanceChannel_low (v bf : Z) :
  (stretched v bf <= 0)%Q -> enhanceChannel v bf = 0.
Proof.
  intros H. rewrite enhanceChannel_round.
  rewrite (roundHalfEven_comp _ 0); [reflexivity|].
  unfold clamped. rewrite (Q.max_l _ _ H). apply Q.min_r. lra.
Qed.

Lemma enhanceChannel_high (v bf : Z) :
  (255 <= stretched v bf)%Q -> enhanceChannel v bf = 255.
Proof.
  intros H. rewrite enhanceChannel_round.
  rewrite (roundHalfEven_comp _ 255); [reflexivity|].
  unfold clamped. rewrite Q.max_r by lra. apply Q.min_l. exact H.
Qed.







End EnhanceFacts.

Section EnhanceClaims.

Import Enhance.




End EnhanceClaims.

(** ** The dispatcher *)

Section EventCounts.

Import OCR.

Lemma count_app (p : Event -> bool) (a b : list Event) :
  count p (a ++ b)%list = (count p a + count p b)%nat.
Proof. induction a as [|e a IH]; simpl; [reflexivity|]. rewrite IH. lia. Qed.

Lemma count_shown (p : Event -> bool) (cb : Callback) (text : string) :
  (forall t, p (Progress t) = false) -> count p (shown cb text) = 0%nat.
Proof. intros Hp. destruct cb; simpl; [rewrite Hp|]; reflexivity. Qed.

Lemma count_loggerShown (p : Event -> bool) (cb : Callback) (ms : list LogMessage) :
  (forall t, p (Progress t) = false) -> count p (loggerShown cb ms) = 0%nat.
Proof.
  intros Hp. unfold loggerShown. induction ms as [|m ms IH]; simpl; [reflexivity|].
  rewrite count_app, IH. destruct (decide _); [rewrite count_shown by exact Hp|]; reflexivity.
Qed.

End EventCounts.

Ltac run_monad :=
  unfold OCR.bind, OCR.try_catch, OCR.ret, OCR.throw, OCR.emit, OCR.get, OCR.put; simpl.

Ltac list_eq :=
  simpl; repeat (progress (rewrite <- ?app_assoc, ?app_nil_r; simpl)); reflexivity.

Ltac count_events :=
  repeat (progress (simpl; rewrite ?count_app;
                    rewrite ?count_shown by reflexivity;
                    rewrite ?count_loggerShown by reflexivity));
  simpl.

Section OCRFacts.

Import OCR.
Open Scope string_scope.

Variable env : Env.

Lemma progress_run (cb : Callback) (text : string) (s : State) :
  progress cb text s = (Ok tt, s, shown cb text).
Proof. destruct cb; reflexivity. Qed.

Lemma logger_run (cb : Callback) (ms : list LogMessage) (s : State) :
  logger cb ms s = (Ok tt, s, loggerShown cb ms).
Proof.
  revert s. induction ms as [|m ms IH]; intros s; [reflexivity|].
  simpl. unfold bind.
  destruct (decide _); [rewrite progress_run|unfold ret]; rewrite IH; reflexivity.
Qed.

(** Enhancement reads nothing but the file: it leaves the state alone and its
    result does not depend on it. *)
Lemma enhanceImage_run (file : File) (s s' : State) :
  enhanceImage env file s = (result (enhanceImage env file s'), s, [EnhanceCall file]).
Proof.
  unfold enhanceImage, bind, emit, result. simpl.
  destruct (loadImage env file) as [img|]; [|reflexivity].
  destruct (maxWidth <? width img)%Z; simpl;
    destruct (toBlob env _); reflexivity.
Qed.

Lemma enhanceImage_fails_with (file : File) (s : State) (e : Error) :
  result (enhanceImage env file s) = Throw e -> e = ELoadImage \/ e = EProcessing.
Proof.
  unfold enhanceImage, bind, emit, result. simpl.
  destruct (loadImage env file) as [img|]; [|intros [= <-]; left; reflexivity].
  destruct (maxWidth <? width img)%Z; simpl;
    destruct (toBlob env _); simpl; intros [= <-]; right; reflexivity.
Qed.

(** Symbolic execution of the two routes. *)

Lemma processOnline_run (file : File) (cb : Callback) (s : State) :
  processOnline env file cb s =
  let pre := (shown cb "Enhancing image..." ++ [EnhanceCall file])%list in
  match result (enhanceImage env file s) with
  | Throw e => (Throw e, s, pre)
  | Ok b =>
      let sent := (pre ++ shown cb "Sending to OCR..." ++ [RemoteFetch b])%list in
      match fetchApi env b with
      | FetchAborted => (Throw ETimeout, s, sent)
      | FetchFailed m => (Throw (ENetwork m), s, sent)
      | FetchResponse status body =>
          if ok status then
            match body with
            | None => (Throw (EJson (jsonError env b)), s, sent)
            | Some data =>
                if IsErroredOnProcessing data
                then (Throw (EApi (errorMessage data)), s, sent)
                else (Ok (parsedText data), s, (sent ++ shown cb "Done!")%list)
            end
          else (Throw (EHttp status), s, sent)
      end
  end.
Proof.
  unfold processOnline, request. run_monad.
  rewrite !progress_run, (enhanceImage_run file s s).
  destruct (result (enhanceImage env file s)) as [b|e]; [|list_eq].
  rewrite progress_run. simpl.
  destruct (fetchApi env b) as [|m|status [data|]]; simpl; try list_eq.
  - destruct (ok status); simpl; [|list_eq].
    destruct (IsErroredOnProcessing data); simpl; [list_eq|].
    rewrite progress_run. list_eq.
  - destruct (ok status); simpl; list_eq.
Qed.

Lemma processOffline_run (file : File) (cb : Callback) (s : State) :
  processOffline env file cb s =
  let pre := (LocalAttempt :: shown cb "Loading offline OCR engine...")%list in
  if negb (tesseractDefined s) && negb (scriptLoads env)
  then (Throw ELoadTesseract, s, (pre ++ [ScriptAppended])%list)
  else
    let s' := {| isOnline := isOnline s; tesseractDefined := true |} in
    let pre :=
      (pre ++ (if tesseractDefined s then [] else [ScriptAppended])
           ++ shown cb "Processing image offline..." ++ [EnhanceCall file])%list in
    match result (enhanceImage env file s) with
    | Throw e => (Throw (EOffline (message e)), s', pre)
    | Ok b =>
        let pre := (pre ++ [Recognize b] ++ loggerShown cb (logged (recognize env b)))%list in
        match outcome (recognize env b) with
        | Throw e => (Throw (EOffline (message e)), s', pre)
        | Ok text => (Ok text, s', (pre ++ shown cb "Done! (Offline)")%list)
        end
    end.
Proof.
  unfold processOffline, loadTesseract. run_monad.
  rewrite !progress_run. simpl.
  destruct s as [online defined]. simpl.
  destruct defined; simpl.
  - rewrite progress_run, (enhanceImage_run file _ {| isOnline := online; tesseractDefined := true |}).
    simpl.
    destruct (result (enhanceImage env file _)) as [b|e]; simpl; [|list_eq].
    rewrite logger_run. simpl.
    destruct (outcome (recognize env b)) as [text|e]; simpl; [|list_eq].
    rewrite progress_run. list_eq.
  - destruct (scriptLoads env); simpl; [|list_eq].
    rewrite progress_run,
      (enhanceImage_run file _ {| isOnline := online; tesseractDefined := false |}).
    simpl.
    destruct (result (enhanceImage env file _)) as [b|e]; simpl; [|list_eq].
    rewrite logger_run. simpl.
    destruct (outcome (recognize env b)) as [text|e]; simpl; [|list_eq].
    rewrite progress_run. list_eq.
Qed.

Lemma process_run (file : File) (cb : Callback) (s : State) :
  process env file cb s =
  let s1 := {| isOnline := navigator_onLine env; tesseractDefined := tesseractDefined s |} in
  if navigator_onLine env then
    match processOnline env file cb s1 with
    | (Ok text, s2, t) => (Ok text, s2, t)
    | (Throw err, s2, t) =>
        let o := processOffline env file cb s2 in
        (result o, final o,
         (t ++ ConsoleWarn ("[OCR] Online failed, trying offline: " ++ message err)
            :: shown cb "Online failed, using offline OCR..." ++ events o)%list)
    end
  else
    let o := processOffline env file cb s1 in
    (result o, final o, (shown cb "📴 Offline mode - using local OCR..." ++ events o)%list).
Proof.
  unfold process. run_monad.
  destruct (navigator_onLine env); simpl.
  - destruct (processOnline env file cb _) as [[[text|err] s2] t]; [reflexivity|].
    rewrite progress_run. simpl.
    destruct (processOffline env file cb s2) as [[r s3] t3]. reflexivity.
  - rewrite progress_run. simpl.
    destruct (processOffline env file cb _) as [[r s3] t3]. reflexivity.
Qed.

(** The local route enters once, never touches the network, recognises at
    most once, and can only end in a text or in one of its own two errors. *)
Lemma processOffline_counts (file : File) (cb : Callback) (s : State) :
  count isLocalAttempt (events (processOffline env file cb s)) = 1%nat /\
  count isRemoteFetch (events (processOffline env file cb s)) = 0%nat /\
  (count isRecognize (events (processOffline env file cb s)) <= 1)%nat.
Proof.
  rewrite processOffline_run. simpl.
  destruct (negb (tesseractDefined s) && negb (scriptLoads env)).
  { unfold events. count_events. lia. }
  destruct (result (enhanceImage env file s)) as [b|e].
  - destruct (outcome (recognize env b));
      unfold events; count_events; destruct (tesseractDefined s); count_events; lia.
  - unfold events; count_events; destruct (tesseractDefined s); count_events; lia.
Qed.

Lemma processOffline_error (file : File) (cb : Callback) (s : State) (e : Error) :
  result (processOffline env file cb s) = Throw e ->
  isLocalError e = true /\ isRemoteError e = false.
Proof.
  rewrite processOffline_run. simpl.
  destruct (negb (tesseractDefined s) && negb (scriptLoads env)).
  { intros [= <-]. split; reflexivity. }
  destruct (result (enhanceImage env file s)) as [b|e'].
  - destruct (outcome (recognize env b)); intros [= <-]; split; reflexivity.
  - intros [= <-]; split; reflexivity.
Qed.

(** With an image that enhances, the local route calls the engine once when
    the engine is there or loads, and not at all otherwise. *)
Lemma processOffline_recognizes (file : File) (cb : Callback) (s : State) (b : Blob) :
  result (enhanceImage env file s) = Ok b ->
  count isRecognize (events (processOffline env file cb s))
  = (if tesseractDefined s || scriptLoads env then 1 else 0)%nat /\
  (tesseractDefined s || scriptLoads env = false ->
   result (processOffline env file cb s) = Throw ELoadTesseract).
Proof.
  intros Hb. rewrite processOffline_run, Hb. simpl.
  destruct (tesseractDefined s), (scriptLoads env); simpl;
    try (destruct (outcome (recognize env b)));
    unfold events, result; simpl; split; try discriminate; try reflexivity;
    count_events; reflexivity.
Qed.

Lemma processOnline_remote_fails (file : File) (cb : Callback) (s : State) (b : Blob) :
  result (enhanceImage env file s) = Ok b ->
  RemoteFailure (fetchApi env b) ->
  exists e,
    processOnline env file cb s
    = (Throw e, s,
       (shown cb "Enhancing image..." ++ [EnhanceCall file]
          ++ shown cb "Sending to OCR..." ++ [RemoteFetch b])%list)
    /\ isRemoteError e = true /\ e <> EAbort.
Proof.
  intros Hb Hfail. rewrite processOnline_run, Hb. simpl.
  inversion Hfail as [Hf|m Hf|status body Hok Hf|status Hok Hf|status data Hok Herr Hf];
    simpl; rewrite <- ?app_assoc; simpl.
  - eexists; split; [reflexivity|]. split; [reflexivity|discriminate].
  - eexists; split; [reflexivity|]. split; [reflexivity|discriminate].
  - rewrite Hok. eexists; split; [reflexivity|]. split; [reflexivity|discriminate].
  - rewrite Hok. eexists; split; [reflexivity|]. split; [reflexivity|discriminate].
  - rewrite Hok, Herr. eexists; split; [reflexivity|]. split; [reflexivity|discriminate].
Qed.

End OCRFacts.

Section OCRClaims.

Import OCR.
Open Scope string_scope.

(** C1 (as stated, refuted): after a failed remote attempt the local engine
    is not always invoked.  Online, with an endpoint that times out, an
    engine that has not been loaded and a script that cannot be fetched, the
    local route is entered, [Tesseract.recognize] is never called, and the
    dispatch ends with the engine-load error. *)
Lemma remote_failure_may_not_reach_the_engine :
  ~ (forall (env : Env) (file : File) (cb : Callback) (s : State) (b : Blob),
        navigator_onLine env = true ->
        result (enhanceImage env file s) = Ok b ->
        RemoteFailure (fetchApi env b) ->
        count isRecognize (events (process env file cb s)) = 1%nat).
Proof.
  intros H.
  specialize (H Scenario.engineBlocked "label.jpg" None Scenario.fresh "jpeg"
                eq_refl eq_refl timed_out).
  vm_compute in H. discriminate H.
Qed.

(** C1 (amended): a dispatch that starts online and whose remote attempt
    fails (the 30 s timer fires, the status is not 2xx, the service reports
    IsErroredOnProcessing, or the request or its body is unusable) enters the
    local route exactly once, after the request.  The engine's
    [recognize] is called exactly once when the engine is defined or its
    script loads, and not at all otherwise, in which case the dispatch ends
    with the engine-load error.  The outcome is the local route's outcome,
    so the remote error never reaches the caller; the only trace of the
    fallback the callback sees is the text
    "Online failed, using offline OCR...". *)
Theorem remote_failure_falls_back_once
    (env : Env) (file : File) (cb : Callback) (s : State) (b : Blob) :
  navigator_onLine env = true ->
  result (enhanceImage env file s) = Ok b ->
  RemoteFailure (fetchApi env b) ->
  let s1 := {| isOnline := true; tesseractDefined := tesseractDefined s |} in
  let o := process env file cb s in
  let online := processOnline env file cb s1 in
  let fallback := processOffline env file cb s1 in
  exists e,
    result online = Throw e /\ isRemoteError e = true /\
    events o
    = (events online
         ++ ConsoleWarn ("[OCR] Online failed, trying offline: " ++ message e)
         :: shown cb "Online failed, using offline OCR..." ++ events fallback)%list /\
    count isRemoteFetch (events online) = 1%nat /\
    count isLocalAttempt (events online) = 0%nat /\
    count isLocalAttempt (events fallback) = 1%nat /\
    count isRemoteFetch (events fallback) = 0%nat /\
    count isLocalAttempt (events o) = 1%nat /\
    result o = result fallback /\
    final o = final fallback /\
    (forall e', result o = Throw e' -> isRemoteError e' = false) /\
    count isRecognize (events online) = 0%nat /\
    count isRecognize (events o)
    = (if tesseractDefined s || scriptLoads env then 1 else 0)%nat /\
    (tesseractDefined s || scriptLoads env = false -> result o = Throw ELoadTesseract).
Proof.
  intros Hon Hb Hfail s1 o online fallback.
  assert (Hb1 : result (enhanceImage env file s1) = Ok b).
  { rewrite (enhanceImage_run env file s1 s). exact Hb. }
  destruct (processOnline_remote_fails env file cb s1 b Hb1 Hfail) as (e & Hrun & Hrem & _).
  destruct (processOffline_counts env file cb s1) as (Hl & Hr & _).
  destruct (processOffline_recognizes env file cb s1 b Hb1) as (Hrec & Hnone).
  change (tesseractDefined s1) with (tesseractDefined s) in Hrec, Hnone.
  exists e. subst o online fallback.
  rewrite process_run, Hon. simpl. fold s1. rewrite Hrun. simpl.
  unfold events at 1 2 3. simpl.
  split; [reflexivity|]. split; [exact Hrem|]. split; [reflexivity|].
  split; [count_events; reflexivity|]. split; [count_events; reflexivity|].
  split; [exact Hl|]. split; [exact Hr|].
  split; [unfold events at 1; simpl; count_events; exact Hl|].
  split; [reflexivity|]. split; [reflexivity|].
  split; [|split; [|split]].
  - intros e' He'. unfold result at 1 in He'. simpl in He'.
    apply (processOffline_error env file cb s1 e' He').
  - count_events. reflexivity.
  - unfold events at 1. simpl. count_events. exact Hrec.
  - intros Hno. unfold result at 1. simpl. exact (Hnone Hno).
Qed.

Lemma remote_failure_falls_back_once_witness :
  count isLocalAttempt
    (events (process Scenario.slowEndpoint "label.jpg" (Some id) Scenario.fresh)) = 1%nat /\
  count isRecognize
    (events (process Scenario.slowEndpoint "label.jpg" (Some id) Scenario.fresh)) = 1%nat.
Proof.
  destruct (remote_failure_falls_back_once
              Scenario.slowEndpoint "label.jpg" (Some id) Scenario.fresh "jpeg"
              eq_refl eq_refl timed_out)
    as (e & _ & _ & _ & _ & _ & _ & _ & H & _ & _ & _ & _ & Hrec & _).
  split; [exact H|exact Hrec].
Defined.

(** C5: a dispatch that finds [navigator.onLine] false sends no request to
    the OCR endpoint; after the offline notice it is the local route. *)
Theorem offline_dispatch_never_calls_remote
    (env : Env) (file : File) (cb : Callback) (s : State) :
  navigator_onLine env = false ->
  let s1 := {| isOnline := false; tesseractDefined := tesseractDefined s |} in
  let o := process env file cb s in
  let direct := processOffline env file cb s1 in
  count isRemoteFetch (events o) = 0%nat /\
  count isLocalAttempt (events o) = 1%nat /\
  events o = (shown cb "📴 Offline mode - using local OCR..." ++ events direct)%list /\
  result o = result direct /\
  final o = final direct.
Proof.
  intros Hoff s1 o direct. subst o direct.
  destruct (processOffline_counts env file cb s1) as (Hl & Hr & _).
  rewrite process_run, Hoff. simpl. fold s1.
  unfold events at 1 2 3. simpl.
  repeat split; try reflexivity; count_events; assumption.
Qed.

Lemma offline_dispatch_never_calls_remote_witness :
  count isRemoteFetch
    (events (process Scenario.disconnected "label.jpg" (Some id) Scenario.fresh)) = 0%nat.
Proof.
  exact (proj1 (offline_dispatch_never_calls_remote
                  Scenario.disconnected "label.jpg" (Some id) Scenario.fresh eq_refl)).
Defined.

(** C7 (as stated, refuted): a failed enhancement does not abort the
    dispatch at once with its own error.  Online, with a file that does not
    decode, the dispatcher treats the failure like a failed remote attempt:
    it enters the local route, loads the engine, runs enhancement again and
    raises "Offline OCR failed: Failed to load image". *)
Lemma enhancement_failure_does_not_abort_at_once :
  ~ (forall (env : Env) (file : File) (cb : Callback) (s : State) (e : Error),
        result (enhanceImage env file s) = Throw e ->
        result (process env file cb s) = Throw e) /\
  ~ (forall (env : Env) (file : File) (cb : Callback) (s : State) (e : Error),
        result (enhanceImage env file s) = Throw e ->
        count isLocalAttempt (events (process env file cb s)) = 0%nat /\
        count isScriptAppended (events (process env file cb s)) = 0%nat).
Proof.
  split; intros H.
  - specialize (H Scenario.slowEndpoint "torn.bin" None Scenario.fresh ELoadImage eq_refl).
    vm_compute in H. discriminate H.
  - destruct (H Scenario.slowEndpoint "torn.bin" None Scenario.fresh ELoadImage eq_refl)
      as [Hlocal _].
    vm_compute in Hlocal. discriminate Hlocal.
Qed.

(** C7 (amended): when enhancement of the file fails, no recognition is
    performed on either route (no request to the OCR endpoint, no call of
    [Tesseract.recognize]) and the dispatch ends in an error.  The local
    route is still entered, once; the error raised is the engine-load error
    when the engine is missing and cannot be loaded, and otherwise
    "Offline OCR failed: " followed by the enhancement error's message. *)
Theorem enhancement_failure_ends_without_recognition
    (env : Env) (file : File) (cb : Callback) (s : State) (e : Error) :
  result (enhanceImage env file s) = Throw e ->
  let o := process env file cb s in
  count isRemoteFetch (events o) = 0%nat /\
  count isRecognize (events o) = 0%nat /\
  count isLocalAttempt (events o) = 1%nat /\
  result o = if negb (tesseractDefined s) && negb (scriptLoads env)
             then Throw ELoadTesseract
             else Throw (EOffline (message e)).
Proof.
  intros He o. subst o.
  set (s1 := {| isOnline := navigator_onLine env; tesseractDefined := tesseractDefined s |}).
  assert (He1 : result (enhanceImage env file s1) = Throw e).
  { rewrite (enhanceImage_run env file s1 s). exact He. }
  rewrite process_run. fold s1. simpl.
  destruct (navigator_onLine env).
  - rewrite processOnline_run, He1. simpl.
    rewrite processOffline_run, He1. simpl.
    destruct (negb (tesseractDefined s) && negb (scriptLoads env)); simpl;
      unfold events, result; simpl;
      repeat split; try reflexivity; count_events;
      destruct (tesseractDefined s); reflexivity.
  - rewrite processOffline_run, He1. simpl.
    destruct (negb (tesseractDefined s) && negb (scriptLoads env)); simpl;
      unfold events, result; simpl;
      repeat split; try reflexivity; count_events;
      destruct (tesseractDefined s); reflexivity.
Qed.

Lemma enhancement_failure_ends_without_recognition_witness :
  result (process Scenario.slowEndpoint "torn.bin" (Some id) Scenario.fresh)
  = Throw (EOffline "Failed to load image").
Proof.
  exact (proj2 (proj2 (proj2
           (enhancement_failure_ends_without_recognition
              Scenario.slowEndpoint "torn.bin" (Some id) Scenario.fresh ELoadImage
              eq_refl)))).
Defined.

(** C9 (as stated, refuted): the value handed to the caller carries no
    source tag.  A remote answer and a local reading with the same text give
    the caller the same value, so no function of the returned text can tell
    the route that produced it. *)
Lemma returned_text_has_no_source_tag :
  ~ (exists tag : string -> Source,
        forall (env : Env) (file : File) (cb : Callback) (s : State) (text : string),
          result (process env file cb s) = Ok text ->
          sourceOf (events (process env file cb s)) = Some (tag text)).
Proof.
  intros [tag H].
  pose proof (H Scenario.answering "label.jpg" None Scenario.fresh "BATCH 42" eq_refl) as Hr.
  pose proof (H Scenario.disconnected "label.jpg" None Scenario.fresh "BATCH 42" eq_refl) as Hl.
  vm_compute in Hr, Hl. congruence.
Qed.

(** C9 (amended): every dispatch hands the caller either a bare text,
    produced by exactly one of the two routes (which one shows only in the
    progress text), or exactly one error, and that error is one of the local
    route's; in particular, when the request times out and the local engine
    then reads the image, the caller gets the local text and the last
    progress text is "Done! (Offline)". *)
Theorem dispatch_text_or_local_error :
  (forall (env : Env) (file : File) (cb : Callback) (s : State),
      let o := process env file cb s in
      match result o with
      | Ok text =>
          (sourceOf (events o) = Some remote /\ count isLocalAttempt (events o) = 0%nat)
          \/ (sourceOf (events o) = Some local /\ count isRecognize (events o) = 1%nat)
      | Throw e => isLocalError e = true /\ isRemoteError e = false
      end) /\
  (forall (env : Env) (file : File) (cb : Callback) (s : State) (b : Blob) (text : string),
      navigator_onLine env = true ->
      result (enhanceImage env file s) = Ok b ->
      fetchApi env b = FetchAborted ->
      tesseractDefined s || scriptLoads env = true ->
      outcome (recognize env b) = Ok text ->
      let o := process env file cb s in
      result o = Ok text /\
      sourceOf (events o) = Some local /\
      count isRemoteFetch (events o) = 1%nat /\
      exists before, events o = (before ++ shown cb "Done! (Offline)")%list).
Proof.
  split.
  - intros env file cb s o. subst o.
    set (s1 := {| isOnline := navigator_onLine env; tesseractDefined := tesseractDefined s |}).
    rewrite process_run. fold s1. simpl.
    assert (Hlocal : forall s2 pre,
      count isRecognize pre = 0%nat ->
      let o := processOffline env file cb s2 in
      match result o with
      | Ok text =>
          (sourceOf (pre ++ events o) = Some remote /\
           count isLocalAttempt (pre ++ events o) = 0%nat)
          \/ (sourceOf (pre ++ events o) = Some local /\
              count isRecognize (pre ++ events o) = 1%nat)
      | Throw e => isLocalError e = true /\ isRemoteError e = false
      end).
    { intros s2 pre Hpre o.
      destruct (result o) as [text|e] eqn:Hres;
        [|exact (processOffline_error env file cb s2 e Hres)].
      right. subst o. revert Hres. rewrite processOffline_run. simpl.
      destruct (negb (tesseractDefined s2) && negb (scriptLoads env)); [discriminate|].
      destruct (result (enhanceImage env file s2)) as [b|e]; [|discriminate].
      destruct (outcome (recognize env b)) as [t|e]; [|discriminate].
      intros _. unfold events, sourceOf. simpl.
      assert (Hc : count isRecognize
                (pre ++ LocalAttempt
                   :: ((shown cb "Loading offline OCR engine..." ++
                        (if tesseractDefined s2 then [] else [ScriptAppended]) ++
                        shown cb "Processing image offline..." ++ [EnhanceCall file]) ++
                       Recognize b :: loggerShown cb (logged (recognize env b))) ++
                      shown cb "Done! (Offline)")%list = 1%nat).
      { count_events. rewrite Hpre. destruct (tesseractDefined s2); reflexivity. }
      rewrite Hc. split; reflexivity. }
    destruct (navigator_onLine env).
    + destruct (processOnline env file cb s1) as [[[text|err] s2] t] eqn:Hon.
      * left. revert Hon. rewrite processOnline_run. simpl.
        destruct (result (enhanceImage env file s1)) as [b|e]; [|discriminate].
        destruct (fetchApi env b) as [|m|status [data|]]; try discriminate.
        -- destruct (ok status); [|discriminate].
           destruct (IsErroredOnProcessing data); [discriminate|].
           intros [= _ _ <-]. unfold result, events, sourceOf. simpl.
           split; count_events; reflexivity.
        -- destruct (ok status); discriminate.
      * assert (Ht : count isRecognize t = 0%nat).
        { revert Hon. rewrite processOnline_run. simpl.
          destruct (result (enhanceImage env file s1)) as [b|e].
          - destruct (fetchApi env b) as [|m|status [data|]];
              try (intros [= _ _ <-]; count_events; reflexivity).
            + destruct (ok status); [destruct (IsErroredOnProcessing data)|];
                try discriminate; intros [= _ _ <-]; count_events; reflexivity.
            + destruct (ok status); intros [= _ _ <-]; count_events; reflexivity.
          - intros [= _ _ <-]; count_events; reflexivity. }
        pose proof (Hlocal s2
          (t ++ ConsoleWarn ("[OCR] Online failed, trying offline: " ++ message err)
             :: shown cb "Online failed, using offline OCR...")%list) as Hl.
        simpl in Hl. unfold result, events in *. simpl.
        repeat (progress (rewrite <- ?app_assoc in Hl; simpl in Hl)).
        apply Hl. count_events. rewrite Ht. reflexivity.
    + pose proof (Hlocal s1 (shown cb "📴 Offline mode - using local OCR...")) as Hl.
      simpl in Hl. unfold result, events in *. simpl.
      apply Hl. count_events. reflexivity.
  - intros env file cb s b text Hon Hb Hfetch Hengine Htext o. subst o.
    set (s1 := {| isOnline := navigator_onLine env; tesseractDefined := tesseractDefined s |}).
    assert (Hb1 : result (enhanceImage env file s1) = Ok b).
    { rewrite (enhanceImage_run env file s1 s). exact Hb. }
    rewrite process_run. fold s1. rewrite Hon. simpl.
    rewrite processOnline_run, Hb1. simpl. rewrite Hfetch.
    rewrite processOffline_run, Hb1. simpl. rewrite Htext.
    replace (negb (tesseractDefined s) && negb (scriptLoads env)) with false
      by (destruct (tesseractDefined s), (scriptLoads env); simpl in *; congruence).
    unfold result, events, sourceOf. simpl.
    repeat split.
    + count_events. destruct (tesseractDefined s); reflexivity.
    + count_events. destruct (tesseractDefined s); reflexivity.
    + eexists. rewrite !app_comm_cons, !app_assoc. reflexivity.
Qed.

Lemma dispatch_text_or_local_error_witness :
  result (process Scenario.slowEndpoint "label.jpg" (Some id) Scenario.fresh)
  = Ok "BATCH 42".
Proof.
  exact (proj1 (proj2 dispatch_text_or_local_error
                  Scenario.slowEndpoint "label.jpg" (Some id) Scenario.fresh
                  "jpeg" "BATCH 42" eq_refl eq_refl eq_refl eq_refl eq_refl)).
Defined.

End OCRClaims.

(** ** The loader *)

Section LoaderClaims.

Import Loader.

Lemma run_app (a b : list Action) (s : State) : run (a ++ b) s = run b (run a s).
Proof. unfold run. apply foldl_app. Qed.

Lemma step_defined (s : State) (a : Action) :
  tesseractDefined s = true -> tesseractDefined (step s a) = true.
Proof.
  intros H. destruct a as [|script|script]; simpl.
  - unfold loadTesseract. rewrite H. exact H.
  - unfold onload. destruct (decide _); [reflexivity|exact H].
  - unfold onerror. destruct (decide _); exact H.
Qed.

(** Once the global exists it stays, and no call appends a script again. *)
Lemma run_defined (acts : list Action) (s : State) :
  tesseractDefined s = true ->
  tesseractDefined (run acts s) = true /\ appended (run acts s) = appended s.
Proof.
  revert s. induction acts as [|a acts IH]; intros s H; [split; [exact H|reflexivity]|].
  change (run (a :: acts) s) with (run acts (step s a)).
  destruct (IH (step s a) (step_defined s a H)) as [Hd Ha].
  split; [exact Hd|]. rewrite Ha.
  destruct a as [|script|script]; simpl.
  - unfold loadTesseract. rewrite H. reflexivity.
  - unfold onload. destruct (decide _); reflexivity.
  - unfold onerror. destruct (decide _); reflexivity.
Qed.

(** Until some script has loaded, every call appends a script of its own,
    and each of them is still awaited or has failed. *)
Lemma run_undefined (acts : list Action) (s : State) :
  tesseractDefined s = false ->
  Forall (fun a => isLoaded a = false) acts ->
  tesseractDefined (run acts s) = false /\
  appended (run acts s) = (appended s + calls acts)%nat.
Proof.
  revert s. induction acts as [|a acts IH]; intros s H Hall.
  - split; [exact H|simpl; lia].
  - change (run (a :: acts) s) with (run acts (step s a)).
    inversion Hall as [|? ? Ha Hrest]; subst.
    destruct a as [|script|script]; simpl in *; try discriminate.
    + unfold loadTesseract. rewrite H. simpl.
      destruct (IH {| tesseractDefined := false; appended := S (appended s);
                      pending := pending s ++ [appended s] |} eq_refl Hrest) as [Hd Hc].
      split; [exact Hd|]. rewrite Hc. simpl. lia.
    + assert (Hs : tesseractDefined (onerror script s) = false)
        by (unfold onerror; destruct (decide _); exact H).
      destruct (IH _ Hs Hrest) as [Hd Hc]. split; [exact Hd|]. rewrite Hc.
      unfold onerror. destruct (decide _); reflexivity.
Qed.

(** A dispatch that awaits the loader is one call followed by that script's
    own event: the monadic [OCR.loadTesseract] appends as many scripts, and
    leaves the global defined in the same cases, as the event-driven model. *)
Lemma loadTesseract_sequential (env : OCR.Env) (o : OCR.State) :
  let s := {| tesseractDefined := OCR.tesseractDefined o; appended := 0; pending := [] |} in
  let s' :=
    match loadTesseract s with
    | (s1, Some script) =>
        if OCR.scriptLoads env then onload script s1 else onerror script s1
    | (s1, None) => s1
    end in
  OCR.count OCR.isScriptAppended (OCR.events (OCR.loadTesseract env o)) = appended s' /\
  OCR.tesseractDefined (OCR.final (OCR.loadTesseract env o)) = tesseractDefined s'.
Proof.
  destruct o as [online defined].
  unfold OCR.loadTesseract, loadTesseract, onload, onerror.
  unfold OCR.bind, OCR.get, OCR.put, OCR.emit, OCR.ret, OCR.throw, OCR.events, OCR.final.
  simpl. destruct defined; simpl; [split; reflexivity|].
  destruct (OCR.scriptLoads env); simpl;
    (destruct (decide (0%nat ∈ [0%nat])) as [_|Hn];
       [split; reflexivity|exfalso; apply Hn; left]).
Qed.

(** C4 (as stated, refuted): two callers that reach the loader before any
    script has loaded append two script elements, i.e. start two fetches of
    the engine; the second caller does not wait for the first one's script. *)
Lemma concurrent_calls_fetch_twice :
  ~ (forall acts : list Action,
        Forall (fun a => isLoaded a = false) acts ->
        (appended (run acts initial) <= 1)%nat).
Proof.
  intros H. specialize (H [Call; Call]).
  assert (Hall : Forall (fun a => isLoaded a = false) [Call; Call])
    by (repeat constructor).
  specialize (H Hall). vm_compute in H. lia.
Qed.

(** C4 (amended): the loader only tests whether the engine's global is
    already defined.  Every call made before the first script has loaded
    starts a fetch of its own, and no call made after that starts one: the
    number of fetches is the number of calls issued before the first
    completion. *)
Theorem loader_fetches_once_per_early_call
    (before after : list Action) (script : nat) :
  Forall (fun a => isLoaded a = false) before ->
  script ∈ pending (run before initial) ->
  let s := run (before ++ Loaded script :: after) initial in
  tesseractDefined (run before initial) = false /\
  tesseractDefined s = true /\
  appended s = calls before.
Proof.
  intros Hbefore Hpending s. subst s.
  destruct (run_undefined before initial eq_refl Hbefore) as [Hd Hc].
  rewrite run_app.
  change (run (Loaded script :: after) (run before initial))
    with (run after (onload script (run before initial))).
  assert (Hon : tesseractDefined (onload script (run before initial)) = true).
  { unfold onload. destruct (decide _) as [_|Hn]; [reflexivity|contradiction]. }
  destruct (run_defined after _ Hon) as [Hd' Ha'].
  split; [exact Hd|]. split; [exact Hd'|].
  rewrite Ha'. unfold onload. destruct (decide _) as [_|Hn]; [|contradiction].
  simpl. rewrite Hc. reflexivity.
Qed.

Lemma loader_fetches_once_per_early_call_witness :
  appended (run ([Call; Call] ++ Loaded 0 :: [Call; Call]) initial) = 2%nat.
Proof.
  refine (proj2 (proj2 (loader_fetches_once_per_early_call
                          [Call; Call] [Call; Call] 0%nat _ _))).
  - repeat constructor.
  - vm_compute. apply list_elem_of_here.
Defined.

End LoaderClaims.

(** ** The service worker *)

Section CacheStorageFacts.

Import SW.

Implicit Types (cs : CacheStorage) (c : Cache) (name k url : string) (r : Response).

Lemma cacheNamed_app k cs cs' :
  cacheNamed k (cs ++ cs')%list =
  match cacheNamed k cs with Some c => Some c | None => cacheNamed k cs' end.
Proof.
  induction cs as [|[k' c'] cs IH]; simpl; [reflexivity|].
  destruct (decide (k' = k)); [reflexivity|exact IH].
Qed.

Lemma cacheNamed_None k cs : cacheNamed k cs = None <-> k ∉ keys cs.
Proof.
  unfold keys. induction cs as [|[k' c'] cs IH]; simpl.
  - split; [intros _; apply not_elem_of_nil|reflexivity].
  - rewrite not_elem_of_cons. destruct (decide (k' = k)) as [->|Hne].
    + split; [discriminate|intros [H _]; contradiction].
    + rewrite IH. split; [intros H; split; [congruence|exact H]|intros [_ H]; exact H].
Qed.

Lemma cacheNamed_open k name cs :
  cacheNamed k (open name cs) =
  if decide (k = name) then Some (default ∅ (cacheNamed name cs)) else cacheNamed k cs.
Proof.
  unfold open. destruct (cacheNamed name cs) as [c|] eqn:Hc.
  - destruct (decide (k = name)) as [->|]; [exact Hc|reflexivity].
  - rewrite cacheNamed_app. simpl.
    destruct (decide (k = name)) as [->|Hne].
    + rewrite Hc. destruct (decide (name = name)); [reflexivity|contradiction].
    + destruct (cacheNamed k cs); [reflexivity|].
      destruct (decide (name = k)); [congruence|reflexivity].
Qed.

Lemma keys_open name cs :
  keys (open name cs) =
  match cacheNamed name cs with Some _ => keys cs | None => (keys cs ++ [name])%list end.
Proof.
  unfold open, keys. destruct (cacheNamed name cs); [reflexivity|].
  rewrite fmap_app. reflexivity.
Qed.

Lemma wf_open name cs : wf cs -> wf (open name cs).
Proof.
  unfold wf. intros H. rewrite keys_open.
  destruct (cacheNamed name cs) eqn:Hc; [exact H|].
  apply NoDup_app. split; [exact H|]. split.
  - intros x Hx Hin. apply list_elem_of_singleton in Hin. subst x.
    apply cacheNamed_None in Hc. contradiction.
  - apply NoDup_singleton.
Qed.

Lemma cacheNamed_put k name url r cs :
  cacheNamed k (put name url r cs) =
  if decide (k = name) then <[url := r]> <$> cacheNamed k cs else cacheNamed k cs.
Proof.
  unfold put. induction cs as [|[k' c'] cs IH]; simpl.
  - destruct (decide (k = name)); reflexivity.
  - destruct (decide (k' = name)) as [->|Hk']; simpl.
    + destruct (decide (name = k)) as [<-|Hne].
      * destruct (decide (name = name)); [reflexivity|contradiction].
      * exact IH.
    + destruct (decide (k' = k)) as [->|Hne].
      * destruct (decide (k = name)); [contradiction|reflexivity].
      * exact IH.
Qed.

Lemma keys_put name url r cs : keys (put name url r cs) = keys cs.
Proof.
  unfold put, keys. rewrite <- list_fmap_compose. apply list_fmap_ext.
  intros i [k c] _. simpl. destruct (decide (k = name)); reflexivity.
Qed.

Lemma cacheNamed_storeAll k name (es : list (string * Response)) cs :
  cacheNamed k (storeAll name es cs) =
  if decide (k = name) then (fun c => putAll c es) <$> cacheNamed k cs
  else cacheNamed k cs.
Proof.
  unfold storeAll, putAll. revert cs.
  induction es as [|[url r] es IH]; intros cs; simpl.
  - destruct (decide (k = name)); [destruct (cacheNamed k cs)|]; reflexivity.
  - rewrite IH, cacheNamed_put.
    destruct (decide (k = name)); [destruct (cacheNamed k cs)|]; reflexivity.
Qed.

Lemma keys_storeAll name (es : list (string * Response)) cs :
  keys (storeAll name es cs) = keys cs.
Proof.
  unfold storeAll. revert cs. induction es as [|[url r] es IH]; intros cs; simpl.
  - reflexivity.
  - rewrite IH. apply keys_put.
Qed.

(** Insertions that all come from one function of the URL leave that
    function's value at every inserted URL. *)
Lemma putAll_lookup (f : string -> option Response) (es : list (string * Response))
    c url :
  (forall u r, (u, r) ∈ es -> f u = Some r) ->
  putAll c es !! url = if decide (url ∈ es.*1) then f url else c !! url.
Proof.
  unfold putAll. revert c. induction es as [|[u r] es IH]; intros c Hf.
  - simpl. destruct (decide (url ∈ [])) as [H|_]; [|reflexivity].
    exfalso. revert H. apply not_elem_of_nil.
  - cbn [foldl]. rewrite fmap_cons. cbn [fst].
    rewrite IH by (intros u' r' H; apply Hf; right; exact H).
    assert (Hu : f u = Some r) by (apply Hf; left).
    destruct (decide (url = u)) as [->|Hne].
    + rewrite lookup_insert_eq, Hu.
      repeat case_decide; try reflexivity;
        exfalso; match goal with H : _ ∉ _ :: _ |- _ => apply H; left end.
    + rewrite lookup_insert_ne by congruence.
      repeat case_decide; try reflexivity; exfalso;
        match goal with
        | Hn : ?x ∉ _ :: _, Hi : ?x ∈ _ |- _ => apply Hn; right; exact Hi
        | Hi : ?x ∈ _ :: _, Hn : ?x ∉ _ |- _ =>
            apply elem_of_cons in Hi; destruct Hi; contradiction
        end.
Qed.

Lemma fetchOk_spec (net : Network) url r :
  fetchOk net url = Some r <->
  net url = Some r /\ ok r = true /\ status r <> 206%Z /\ vary_star r = false.
Proof.
  unfold fetchOk, storable. destruct (net url) as [r'|].
  - destruct (ok r') eqn:Hok, (Z.eqb_spec (status r') 206) as [H206|H206],
      (vary_star r') eqn:Hvary; simpl; split;
      try discriminate; try (intros [= <-]; tauto);
      try (intros ([= <-] & H1 & H2 & H3); congruence).
  - split; [discriminate|]. intros [H _]. discriminate H.
Qed.

Lemma fetchAll_Some (net : Network) (urls : list string) (rs : list Response) :
  fetchAll net urls = Some rs <-> NoDup urls /\ mapM (fetchOk net) urls = Some rs.
Proof.
  unfold fetchAll. case_bool_decide as Hnd; [tauto|].
  split; [discriminate|]. intros [H _]. contradiction.
Qed.

Lemma fetchAll_None (net : Network) (urls : list string) :
  fetchAll net urls = None <->
  ~ NoDup urls \/ exists url, url ∈ urls /\ fetchOk net url = None.
Proof.
  unfold fetchAll. case_bool_decide as Hnd.
  - rewrite mapM_None, Exists_exists. tauto.
  - tauto.
Qed.

Lemma fetchAll_single (net : Network) url :
  fetchAll net [url] = (fun r => [r]) <$> fetchOk net url.
Proof.
  unfold fetchAll. rewrite bool_decide_eq_true_2 by apply NoDup_singleton.
  simpl. destruct (fetchOk net url); reflexivity.
Qed.

Lemma addEachSettled_storeAll (net : Network) name (urls : list string) cs :
  addEachSettled net name urls cs = storeAll name (settled net urls) cs.
Proof.
  unfold addEachSettled, storeAll, settled. revert cs.
  induction urls as [|url urls IH]; intros cs; simpl; [reflexivity|].
  rewrite IH. unfold add, addAll. rewrite fetchAll_single.
  destruct (fetchOk net url) as [r|]; reflexivity.
Qed.

Lemma settled_functional (net : Network) (urls : list string) u r :
  (u, r) ∈ settled net urls -> fetchOk net u = Some r.
Proof.
  unfold settled. rewrite list_elem_of_omap. intros (x & _ & Hx).
  destruct (fetchOk net x) as [r'|] eqn:E; simpl in Hx; [|discriminate].
  inversion Hx; subst. exact E.
Qed.

Lemma settled_urls (net : Network) (urls : list string) u :
  u ∈ (settled net urls).*1 <-> u ∈ urls /\ is_Some (fetchOk net u).
Proof.
  unfold settled. rewrite list_elem_of_fmap. split.
  - intros ([u' r] & -> & H). apply list_elem_of_omap in H.
    destruct H as (x & Hx & Hfx).
    destruct (fetchOk net x) as [r'|] eqn:E; simpl in Hfx; [|discriminate].
    inversion Hfx; subst. simpl. split; [exact Hx|]. rewrite E. eexists; reflexivity.
  - intros [Hu [r Hr]]. exists (u, r). split; [reflexivity|].
    apply list_elem_of_omap. exists u. split; [exact Hu|]. rewrite Hr. reflexivity.
Qed.

Lemma zip_functional (f : string -> option Response) (urls : list string)
    (rs : list Response) u r :
  Forall2 (fun x y => f x = Some y) urls rs -> (u, r) ∈ zip urls rs -> f u = Some r.
Proof.
  intros H. induction H as [|x y urls rs Hxy _ IH]; simpl.
  - intros Hin. exfalso. revert Hin. apply not_elem_of_nil.
  - intros Hin. apply elem_of_cons in Hin. destruct Hin as [E|Hin].
    + inversion E; subst. exact Hxy.
    + apply IH. exact Hin.
Qed.

End CacheStorageFacts.

Section ServiceWorkerFacts.

Import SW.

Implicit Types (cs : CacheStorage) (c : Cache) (name k url : string) (r : Response).

Lemma filter_ext_in {A} (P Q : A -> Prop)
    `{!forall x, Decision (P x), !forall x, Decision (Q x)} (l : list A) :
  (forall x, x ∈ l -> P x <-> Q x) -> filter P l = filter Q l.
Proof.
  induction l as [|x l IH]; intros Hl; [reflexivity|].
  rewrite !filter_cons.
  rewrite IH by (intros y Hy; apply Hl; right; exact Hy).
  assert (Hx : P x <-> Q x) by (apply Hl; left).
  destruct (decide (P x)), (decide (Q x)); tauto || reflexivity.
Qed.

Lemma filter_none {A} (P : A -> Prop) `{!forall x, Decision (P x)} (l : list A) :
  (forall x, x ∈ l -> ~ P x) -> filter P l = [].
Proof.
  induction l as [|x l IH]; intros Hl; [reflexivity|].
  rewrite filter_cons_False by (apply Hl; left).
  apply IH. intros y Hy. apply Hl. right. exact Hy.
Qed.

Lemma filter_all {A} (P : A -> Prop) `{!forall x, Decision (P x)} (l : list A) :
  (forall x, x ∈ l -> P x) -> filter P l = l.
Proof.
  induction l as [|x l IH]; intros Hl; [reflexivity|].
  rewrite filter_cons_True by (apply Hl; left).
  f_equal. apply IH. intros y Hy. apply Hl. right. exact Hy.
Qed.

Lemma foldl_delete (ks : list string) cs :
  foldl (fun cs key => delete key cs) cs ks = filter (fun p => p.1 ∉ ks) cs.
Proof.
  revert cs. induction ks as [|k ks IH]; intros cs; simpl.
  - symmetry. apply filter_all. intros x _. apply not_elem_of_nil.
  - rewrite IH. unfold delete. rewrite list_filter_filter.
    apply list_filter_iff. intros [k' c']. simpl.
    rewrite not_elem_of_cons. tauto.
Qed.

(** Activation keeps exactly the caches called [CACHE_NAME]. *)
Lemma activate_filter (v : Version) cs :
  activate v cs = filter (fun p => p.1 = CACHE_NAME v) cs.
Proof.
  unfold activate. rewrite foldl_delete. apply filter_ext_in.
  intros [k c] Hin. simpl. rewrite list_elem_of_filter. split.
  - intros Hn. destruct (decide (k = CACHE_NAME v)) as [E|Hne]; [exact E|].
    exfalso. apply Hn. split; [exact Hne|].
    unfold keys. apply list_elem_of_fmap. exists (k, c). split; [reflexivity|exact Hin].
  - intros -> [Hne _]. apply Hne. reflexivity.
Qed.

Lemma filter_current name cs c :
  wf cs -> cacheNamed name cs = Some c ->
  filter (fun p => p.1 = name) cs = [(name, c)].
Proof.
  unfold wf, keys. induction cs as [|[k c'] cs IH]; simpl; [discriminate|].
  rewrite NoDup_cons. intros [Hk Hnd].
  destruct (decide (k = name)) as [->|Hne].
  - intros [= ->]. rewrite filter_cons_True by reflexivity. f_equal.
    apply filter_none. intros [k' c'] Hin E. simpl in E. subst k'.
    apply Hk. apply list_elem_of_fmap. exists (name, c'). split; [reflexivity|exact Hin].
  - intros Hc. rewrite filter_cons_False by exact Hne. apply IH; assumption.
Qed.

Lemma activate_singleton (v : Version) cs c :
  wf cs -> cacheNamed (CACHE_NAME v) cs = Some c ->
  activate v cs = [(CACHE_NAME v, c)].
Proof.
  intros Hwf Hc. rewrite activate_filter. apply filter_current; assumption.
Qed.

Lemma matchAll_app url cs cs' :
  matchAll url (cs ++ cs')%list =
  match matchAll url cs with Some r => Some r | None => matchAll url cs' end.
Proof.
  induction cs as [|[k c] cs IH]; simpl; [reflexivity|].
  destruct (c !! url); [reflexivity|exact IH].
Qed.

Lemma matchAll_open url name cs : matchAll url (open name cs) = matchAll url cs.
Proof.
  unfold open. destruct (cacheNamed name cs); [reflexivity|].
  rewrite matchAll_app. simpl. rewrite lookup_empty.
  destruct (matchAll url cs); reflexivity.
Qed.

Lemma matchAll_put url name r cs :
  matchAll url cs = None -> is_Some (cacheNamed name cs) ->
  matchAll url (put name url r cs) = Some r.
Proof.
  unfold put. induction cs as [|[k c] cs IH]; simpl.
  - intros _ [c Hc]. discriminate Hc.
  - destruct (c !! url) eqn:Hl; [discriminate|]. intros Hm Hc.
    destruct (decide (k = name)) as [->|Hne]; simpl.
    + rewrite lookup_insert_eq. reflexivity.
    + rewrite Hl. apply IH; assumption.
Qed.

Lemma accepted_spec (req : Request) r :
  accepted req r = true <->
  httpScheme req = true /\ status r <> 206%Z /\ vary_star r = false.
Proof.
  unfold accepted, storable.
  destruct (httpScheme req), (Z.eqb_spec (status r) 206), (vary_star r); simpl;
    split; try discriminate; try tauto; intros (H1 & H2 & H3); congruence.
Qed.

Lemma install_fails (v : Version) (net : Network) cs :
  fetchAll net (CACHE_URLS v) = None ->
  install v net cs = (false, open (CACHE_NAME v) cs).
Proof. intros H. unfold install, addAll. rewrite H. reflexivity. Qed.

Lemma install_succeeds (v : Version) (net : Network) cs (rs : list Response) :
  fetchAll net (CACHE_URLS v) = Some rs ->
  install v net cs =
  (true,
   storeAll (CACHE_NAME v) (settled net (TESSERACT_URLS v))
     (open (CACHE_NAME v)
        (storeAll (CACHE_NAME v) (zip (CACHE_URLS v) rs) (open (CACHE_NAME v) cs)))).
Proof.
  intros H. unfold install, addAll. rewrite H, addEachSettled_storeAll. reflexivity.
Qed.

Lemma install_wf (v : Version) (net : Network) cs : wf cs -> wf (install v net cs).2.
Proof.
  intros H. destruct (fetchAll net (CACHE_URLS v)) as [rs|] eqn:E.
  - rewrite (install_succeeds v net cs rs E). simpl. unfold wf.
    rewrite keys_storeAll. apply wf_open. unfold wf. rewrite keys_storeAll.
    apply wf_open. exact H.
  - rewrite (install_fails v net cs E). simpl. apply wf_open. exact H.
Qed.

Lemma install_other (v : Version) (net : Network) cs k :
  k ≠ CACHE_NAME v -> cacheNamed k (install v net cs).2 = cacheNamed k cs.
Proof.
  intros Hne. destruct (fetchAll net (CACHE_URLS v)) as [rs|] eqn:E.
  - rewrite (install_succeeds v net cs rs E). simpl.
    rewrite cacheNamed_storeAll; destruct (decide (k = CACHE_NAME v)); [contradiction|].
    rewrite cacheNamed_open; destruct (decide (k = CACHE_NAME v)); [contradiction|].
    rewrite cacheNamed_storeAll; destruct (decide (k = CACHE_NAME v)); [contradiction|].
    rewrite cacheNamed_open; destruct (decide (k = CACHE_NAME v)); [contradiction|].
    reflexivity.
  - rewrite (install_fails v net cs E). simpl. rewrite cacheNamed_open.
    destruct (decide (k = CACHE_NAME v)); [contradiction|reflexivity].
Qed.

(** The cache a successful install leaves under [CACHE_NAME]. *)
Lemma install_current (v : Version) (net : Network) cs (rs : list Response) :
  fetchAll net (CACHE_URLS v) = Some rs ->
  cacheNamed (CACHE_NAME v) (install v net cs).2 =
  Some (putAll (putAll (default ∅ (cacheNamed (CACHE_NAME v) cs))
                  (zip (CACHE_URLS v) rs))
          (settled net (TESSERACT_URLS v))).
Proof.
  intros E. rewrite (install_succeeds v net cs rs E). simpl.
  set (name := CACHE_NAME v).
  rewrite cacheNamed_storeAll; destruct (decide (name = name)); [|contradiction].
  rewrite cacheNamed_open; destruct (decide (name = name)); [|contradiction].
  rewrite cacheNamed_storeAll; destruct (decide (name = name)); [|contradiction].
  rewrite cacheNamed_open; destruct (decide (name = name)); [|contradiction].
  reflexivity.
Qed.

End ServiceWorkerFacts.

Section ServiceWorkerClaims.

Import SW.

Implicit Types (cs : CacheStorage) (c : Cache) (name k url : string) (r : Response).

(** C3: activation deletes every cache whose name is not CACHE_NAME.  When
    the worker's own generation is in the cache storage, as it is after the
    install that precedes activation, that generation, with its contents, is
    the only one left.  (With v7 activating next to v6 and v5, both v6 and
    v5 are gone.) *)
Theorem activate_keeps_only_current (v : Version) cs :
  wf cs ->
  (forall c, cacheNamed (CACHE_NAME v) cs = Some c ->
             activate v cs = [(CACHE_NAME v, c)] /\
             keys (activate v cs) = [CACHE_NAME v]) /\
  (forall k, k ≠ CACHE_NAME v -> cacheNamed k (activate v cs) = None) /\
  (forall net, (install v net cs).1 = true ->
               exists c, activate v (install v net cs).2 = [(CACHE_NAME v, c)]).
Proof.
  intros Hwf. split; [|split].
  - intros c Hc. rewrite (activate_singleton v cs c Hwf Hc). split; reflexivity.
  - intros k Hne. rewrite activate_filter.
    apply cacheNamed_None. unfold keys. intros Hin.
    apply list_elem_of_fmap in Hin. destruct Hin as ([k' c'] & -> & Hin).
    apply list_elem_of_filter in Hin. destruct Hin as [E _]. simpl in *. congruence.
  - intros net Hok.
    destruct (fetchAll net (CACHE_URLS v)) as [rs|] eqn:E.
    + eexists. apply activate_singleton; [apply install_wf; exact Hwf|].
      apply (install_current v net cs rs E).
    + rewrite (install_fails v net cs E) in Hok. discriminate Hok.
Qed.

Lemma activate_keeps_only_current_witness :
  activate Scenario.label_scanner_v7 Scenario.threeGenerations
  = [("label-scanner-v7"%string, Scenario.shell)].
Proof.
  refine (proj1 (proj1 (activate_keeps_only_current
                          Scenario.label_scanner_v7 Scenario.threeGenerations _)
                   Scenario.shell eq_refl)).
  unfold wf. vm_compute.
  repeat (apply NoDup_cons_2; [rewrite ?elem_of_cons, elem_of_nil; intuition discriminate|]).
  apply NoDup_nil_2.
Defined.

(** C2 (as stated, refuted): a failed install does not discard the
    generation it created.  With an empty cache storage and nothing
    reachable, [caches.open(CACHE_NAME)] has created the cache before
    [addAll] rejects, and no handler deletes it again. *)
Lemma failed_install_keeps_new_generation :
  ~ (forall (v : Version) (net : Network) cs,
        (exists url, url ∈ CACHE_URLS v /\ fetchOk net url = None) ->
        cacheNamed (CACHE_NAME v) cs = None ->
        cacheNamed (CACHE_NAME v) (install v net cs).2 = None).
Proof.
  intros H.
  assert (Hfail : exists url,
             url ∈ CACHE_URLS label_scanner_v6 /\ fetchOk Scenario.unplugged url = None).
  { exists "./"%string. split; [left|reflexivity]. }
  specialize (H label_scanner_v6 Scenario.unplugged [] Hfail eq_refl).
  vm_compute in H. discriminate H.
Qed.

(** C2 (amended): a resource is fetched for the cache when the request
    resolves with a 2xx status other than 206 and without [Vary: *]; any
    other outcome is a failed fetch.  Install never touches a generation
    with another name.  When a required resource cannot be fetched (or the
    list of required resources names one twice), the install fails, nothing
    is stored (the new generation exists but holds what it held before, i.e.
    nothing when it was just created) and the worker that was in control
    stays in control.  When all required resources are fetched, the install
    succeeds whatever happens to the optional ones: every required resource
    is in the new generation, every optional resource that could be fetched
    is too, and after activation the required resources are served from the
    cache. *)
Theorem install_required_atomic_optional_tolerated
    (v : Version) (net : Network) cs :
  let old := default ∅ (cacheNamed (CACHE_NAME v) cs) in
  let after := (install v net cs).2 in
  (forall url r,
      fetchOk net url = Some r <->
      net url = Some r /\ ok r = true /\ status r <> 206%Z /\ vary_star r = false) /\
  (forall k, k ≠ CACHE_NAME v -> cacheNamed k after = cacheNamed k cs) /\
  ((exists url, url ∈ CACHE_URLS v /\ fetchOk net url = None) \/ ~ NoDup (CACHE_URLS v) ->
     (install v net cs).1 = false /\
     cacheNamed (CACHE_NAME v) after = Some old /\
     forall reg, caches reg = cs -> controller (deploy v net reg) = controller reg) /\
  (NoDup (CACHE_URLS v) ->
   (forall url, url ∈ CACHE_URLS v -> is_Some (fetchOk net url)) ->
     (install v net cs).1 = true /\
     (forall reg, caches reg = cs ->
                  controller (deploy v net reg) = Some (CACHE_NAME v)) /\
     exists c,
       cacheNamed (CACHE_NAME v) after = Some c /\
       (forall url, url ∈ CACHE_URLS v -> c !! url = fetchOk net url) /\
       (forall url, url ∈ TESSERACT_URLS v -> is_Some (fetchOk net url) ->
                    c !! url = fetchOk net url) /\
       (forall url, url ∉ CACHE_URLS v -> fetchOk net url = None ->
                    c !! url = old !! url) /\
       (wf cs -> forall url, url ∈ CACHE_URLS v ->
                 matchAll url (activate v after) = fetchOk net url)).
Proof.
  intros old after. subst after. split; [|split; [|split]].
  - intros url r. apply fetchOk_spec.
  - intros k Hne. apply install_other. exact Hne.
  - intros Hfail.
    assert (E : fetchAll net (CACHE_URLS v) = None) by (apply fetchAll_None; tauto).
    rewrite (install_fails v net cs E). simpl. split; [reflexivity|]. split.
    + rewrite cacheNamed_open.
      destruct (decide (CACHE_NAME v = CACHE_NAME v)); [reflexivity|contradiction].
    + intros reg <-. unfold deploy. rewrite (install_fails v net _ E). reflexivity.
  - intros Hnodup Hall.
    destruct (fetchAll net (CACHE_URLS v)) as [rs|] eqn:E.
    2:{ apply fetchAll_None in E. destruct E as [E|(url & Hin & Hnone)]; [contradiction|].
        destruct (Hall url Hin) as [r Hr]. congruence. }
    pose proof (install_current v net cs rs E) as Hcur.
    assert (Hdeploy : forall reg, caches reg = cs ->
                                  controller (deploy v net reg) = Some (CACHE_NAME v)).
    { intros reg <-. unfold deploy.
      rewrite (install_succeeds v net _ rs E). reflexivity. }
    rewrite (install_succeeds v net cs rs E) in *. simpl in *.
    split; [reflexivity|]. split; [exact Hdeploy|].
    assert (E0 := E). apply fetchAll_Some in E. destruct E as [_ E].
    apply mapM_Some in E.
    assert (Hreq : forall u r, (u, r) ∈ zip (CACHE_URLS v) rs -> fetchOk net u = Some r)
      by (intros u r; apply zip_functional; exact E).
    assert (Hurls : (zip (CACHE_URLS v) rs).*1 = CACHE_URLS v)
      by (apply fst_zip; rewrite (Forall2_length _ _ _ E); reflexivity).
    pose proof (settled_functional net (TESSERACT_URLS v)) as Hopt.
    assert (Hlookup : forall url,
      putAll (putAll old (zip (CACHE_URLS v) rs)) (settled net (TESSERACT_URLS v)) !! url
      = if decide (url ∈ TESSERACT_URLS v /\ is_Some (fetchOk net url)) then fetchOk net url
        else if decide (url ∈ CACHE_URLS v) then fetchOk net url
        else old !! url).
    { intros url.
      rewrite (putAll_lookup (fetchOk net) _ _ url Hopt).
      rewrite (putAll_lookup (fetchOk net) _ _ url Hreq), Hurls.
      destruct (decide (url ∈ (settled net (TESSERACT_URLS v)).*1)) as [Hs|Hs];
        destruct (decide (url ∈ TESSERACT_URLS v /\ is_Some (fetchOk net url))) as [Ht|Ht];
        try reflexivity; exfalso.
      - apply Ht. apply settled_urls. exact Hs.
      - apply Hs. apply settled_urls. exact Ht. }
    eexists. split; [exact Hcur|].
    assert (Hrequired : forall url, url ∈ CACHE_URLS v ->
      putAll (putAll old (zip (CACHE_URLS v) rs)) (settled net (TESSERACT_URLS v)) !! url
      = fetchOk net url).
    { intros url Hin. rewrite Hlookup.
      destruct (decide _); [reflexivity|].
      destruct (decide (url ∈ CACHE_URLS v)); [reflexivity|contradiction]. }
    split; [exact Hrequired|]. split; [|split].
    + intros url Hin Hsome. rewrite Hlookup.
      destruct (decide _) as [_|Hn]; [reflexivity|]. exfalso. apply Hn. split; assumption.
    + intros url Hnin Hnone. rewrite Hlookup.
      destruct (decide _) as [[_ [r Hr]]|_]; [congruence|].
      destruct (decide (url ∈ CACHE_URLS v)); [contradiction|reflexivity].
    + intros Hwf url Hin.
      assert (Hwf' : wf (install v net cs).2) by (apply install_wf; exact Hwf).
      rewrite (install_succeeds v net cs rs E0) in Hwf'. simpl in Hwf'.
      rewrite (activate_singleton v _ _ Hwf' Hcur). simpl. rewrite Hrequired by exact Hin.
      destruct (fetchOk net url); reflexivity.
Qed.

Lemma install_required_atomic_optional_tolerated_witness :
  (install label_scanner_v6 Scenario.cdnDown []).1 = true.
Proof.
  refine (proj1 (proj2 (proj2 (proj2 (install_required_atomic_optional_tolerated
                                        label_scanner_v6 Scenario.cdnDown []))) _ _)).
  - apply (bool_decide_unpack _). vm_compute. exact I.
  - intros url Hin. vm_compute in Hin.
    repeat (apply elem_of_cons in Hin; destruct Hin as [->|Hin];
            [vm_compute; eexists; reflexivity|]).
    apply elem_of_nil in Hin. destruct Hin.
Defined.

(** C6 (as stated, refuted): a successful answer is not always stored.  A
    GET that misses the cache and is answered with partial content (status
    206, for which [response.ok] holds) gets that answer, but [cache.put]
    rejects it: the cache is created and stays empty, and the same request
    misses again. *)
Lemma partial_answer_is_not_stored :
  ~ (forall (v : Version) (location_origin : string) (net : Network) (req : Request) cs
            (answer : Response),
        method req = "GET"%string ->
        matchAll (url req) cs = None ->
        net (url req) = Some answer ->
        ok answer = true ->
        matchAll (url req) (storage (onfetch v location_origin net req cs)) = Some answer).
Proof.
  intros H.
  specialize (H label_scanner_v6 "https://scanner.example"%string Scenario.ranged
                Scenario.getIndex [] (Scenario.partial "./index.html")
                eq_refl eq_refl eq_refl eq_refl).
  vm_compute in H. discriminate H.
Qed.

(** C6 (amended): for an intercepted GET request, a cache hit is answered
    with the stored response and nothing else happens; on a miss the request
    goes to the network and its answer is returned as it is.  A 2xx answer
    is also stored under CACHE_NAME, so that the same request hits the cache
    next time, unless the Cache API refuses it (status 206, [Vary: *], or a
    request that is not HTTP(S)): then the cache is opened, nothing is added
    to it and the request still misses.  Any other answer leaves the storage
    alone, and when the network fails the handler answers with a 503
    "Offline" response. *)
Theorem fetch_GET_cache_then_network
    (v : Version) (location_origin : string) (net : Network) (req : Request) cs :
  method req = "GET"%string ->
  let h := onfetch v location_origin net req cs in
  (forall r, accepted req r = true <->
             httpScheme req = true /\ status r <> 206%Z /\ vary_star r = false) /\
  match matchAll (url req) cs with
  | Some stored =>
      respondWith h = Some stored /\ network h = [] /\ storage h = cs
  | None =>
      network h = [url req] /\
      match net (url req) with
      | Some answer =>
          respondWith h = Some answer /\
          if ok answer
          then if accepted req answer
               then (exists c, cacheNamed (CACHE_NAME v) (storage h) = Some c /\
                               c !! url req = Some answer) /\
                    matchAll (url req) (storage h) = Some answer
               else storage h = open (CACHE_NAME v) cs /\
                    matchAll (url req) (storage h) = None
          else storage h = cs
      | None =>
          respondWith h = Some offline /\ status offline = 503 /\ storage h = cs
      end
  end.
Proof.
  intros Hget h. subst h. split; [intros r; apply accepted_spec|]. unfold onfetch.
  destruct (decide (method req ≠ "GET"%string)) as [Hn|_]; [contradiction|].
  assert (Hboth : forall hitLog missLog,
    let h := cacheFirst v net req cs hitLog missLog in
    match matchAll (url req) cs with
    | Some stored =>
        respondWith h = Some stored /\ network h = [] /\ storage h = cs
    | None =>
        network h = [url req] /\
        match net (url req) with
        | Some answer =>
            respondWith h = Some answer /\
            if ok answer
            then if accepted req answer
                 then (exists c, cacheNamed (CACHE_NAME v) (storage h) = Some c /\
                                 c !! url req = Some answer) /\
                      matchAll (url req) (storage h) = Some answer
                 else storage h = open (CACHE_NAME v) cs /\
                      matchAll (url req) (storage h) = None
            else storage h = cs
        | None =>
            respondWith h = Some offline /\ status offline = 503 /\ storage h = cs
        end
    end).
  { intros hitLog missLog. unfold cacheFirst.
    destruct (matchAll (url req) cs) as [stored|] eqn:Hm; simpl; [tauto|].
    split; [destruct (net (url req)); reflexivity|].
    destruct (net (url req)) as [answer|]; simpl; [|tauto].
    split; [reflexivity|].
    destruct (ok answer); [|reflexivity].
    destruct (accepted req answer).
    2:{ split; [reflexivity|]. rewrite matchAll_open. exact Hm. }
    assert (Hopen : cacheNamed (CACHE_NAME v) (open (CACHE_NAME v) cs)
                    = Some (default ∅ (cacheNamed (CACHE_NAME v) cs))).
    { rewrite cacheNamed_open.
      destruct (decide (CACHE_NAME v = CACHE_NAME v)); [reflexivity|contradiction]. }
    split.
    - eexists. split.
      + rewrite cacheNamed_put, Hopen.
        destruct (decide (CACHE_NAME v = CACHE_NAME v)); [reflexivity|contradiction].
      + apply lookup_insert_eq.
    - apply matchAll_put.
      + rewrite matchAll_open. exact Hm.
      + rewrite Hopen. eexists; reflexivity. }
  destruct (decide (origin req = location_origin)); apply Hboth.
Qed.

Lemma fetch_GET_cache_then_network_witness :
  respondWith
    (onfetch label_scanner_v6 "https://scanner.example" Scenario.unplugged
       Scenario.getIndex [])
  = Some offline.
Proof.
  exact (proj1 (proj2 (proj2 (fetch_GET_cache_then_network
                                label_scanner_v6 "https://scanner.example"
                                Scenario.unplugged Scenario.getIndex [] eq_refl)))).
Defined.

End ServiceWorkerClaims.

(** ** Batch processing *)

Section BatchClaims.

Import Batch.

(** Neither the result of a dispatch nor the state it leaves depends on the
    progress callback. *)
Lemma process_callback_irrelevant (env : OCR.Env) (file : OCR.File)
    (cb : OCR.Callback) (o : OCR.State) :
  OCR.result (OCR.process env file cb o) = OCR.result (OCR.process env file None o) /\
  OCR.final (OCR.process env file cb o) = OCR.final (OCR.process env file None o).
Proof.
  rewrite !process_run. simpl.
  set (o1 := {| OCR.isOnline := OCR.navigator_onLine env;
                OCR.tesseractDefined := OCR.tesseractDefined o |}).
  assert (Hoff : forall o2,
    OCR.result (OCR.processOffline env file cb o2)
      = OCR.result (OCR.processOffline env file None o2) /\
    OCR.final (OCR.processOffline env file cb o2)
      = OCR.final (OCR.processOffline env file None o2)).
  { intros o2. rewrite !processOffline_run. simpl.
    destruct (negb (OCR.tesseractDefined o2) && negb (OCR.scriptLoads env));
      [split; reflexivity|].
    destruct (OCR.result (OCR.enhanceImage env file o2)) as [b|e]; [|split; reflexivity].
    destruct (OCR.outcome (OCR.recognize env b)); split; reflexivity. }
  destruct (OCR.navigator_onLine env); [|apply Hoff].
  rewrite !processOnline_run. simpl.
  destruct (OCR.result (OCR.enhanceImage env file o1)) as [b|e]; [|apply Hoff].
  destruct (OCR.fetchApi env b) as [|m|status [data|]]; try apply Hoff.
  - destruct (OCR.ok status); [|apply Hoff].
    destruct (OCR.IsErroredOnProcessing data); [apply Hoff|split; reflexivity].
  - destruct (OCR.ok status); apply Hoff.
Qed.

(** One pass through the [try] block: the counter of saved items grows
    exactly when the item went through without an error, and the database
    grows with it; cancellation is not touched. *)
Lemma tryItem_counts (page : Page) (total : nat) (it : Item) (s : State) :
  let s' := tryItem page total it s in
  processed s' = S (processed s) /\
  saved s' = (saved s + if succeeds page it (ocr s) then 1 else 0)%nat /\
  length (database s') =
    (length (database s) + if succeeds page it (ocr s) then 1 else 0)%nat /\
  ocr s' = ocrAfter it (ocr s) /\
  batchCancelled s' = batchCancelled s /\
  toasts s' = toasts s.
Proof.
  unfold tryItem, succeeds, ocrAfter.
  destruct (readable it); simpl.
  2:{ repeat split; simpl; lia. }
  destruct (process_callback_irrelevant (env it) (file it)
              (Some (fun status : string =>
                 ("Processing " ++ pretty (S (processed s)) ++ "/" ++ pretty total
                    ++ ": " ++ status)%string)) (ocr s)) as [Hr Hf].
  destruct (OCR.process (env it) (file it) (Some _) (ocr s)) as [[r o'] evs].
  unfold OCR.result, OCR.final in *. simpl in *. rewrite <- Hr, <- Hf.
  destruct r as [text|e]; simpl.
  2:{ repeat split; simpl; lia. }
  destruct (parse page text) as [parsed|]; simpl.
  2:{ repeat split; simpl; lia. }
  destruct (stored it); simpl; rewrite ?length_app; simpl; repeat split; lia.
Qed.

(** Clicks on the cancel button set the flag and show one toast each; they
    touch nothing else. *)
Lemma clicks_run (n : nat) (s : State) :
  clicks n s
  = {| ocr := ocr s; batchCancelled := (0 <? n)%nat || batchCancelled s;
       database := database s;
       toasts := (toasts s ++ replicate n "⏹️ Cancelling batch..."%string)%list;
       shown := shown s; processed := processed s; saved := saved s |}.
Proof.
  unfold clicks. induction n as [|n IH].
  - destruct s. simpl. rewrite app_nil_r. reflexivity.
  - rewrite Nat.iter_succ, IH.
    unfold cancelBatchProcessing, toast, setCancelled. cbn.
    rewrite <- app_assoc. do 2 f_equal.
    change (replicate n "⏹️ Cancelling batch..."%string ++ ["⏹️ Cancelling batch..."%string]
            = replicate (S n) "⏹️ Cancelling batch..."%string)%list.
    rewrite replicate_S_end. reflexivity.
Qed.

(** Once the flag is set the loop attempts nothing more. *)
Lemma loop_stopped (page : Page) (total : nat) (items : list Item) (s : State) :
  batchCancelled s = true ->
  let s' := loop page total items s in
  processed s' = processed s /\ saved s' = saved s /\ database s' = database s /\
  batchCancelled s' = true /\ ocr s' = ocr s.
Proof.
  intros Hc. destruct items as [|it rest]; simpl; [|rewrite Hc; simpl]; repeat split;
    try reflexivity; exact Hc.
Qed.

Lemma loop_counts (page : Page) (total : nat) (items : list Item) (s : State) :
  batchCancelled s = false ->
  let s' := loop page total items s in
  processed s' = (processed s + length (attempted items))%nat /\
  saved s' = (saved s + successes page (attempted items) (ocr s))%nat /\
  length (database s') =
    (length (database s) + successes page (attempted items) (ocr s))%nat.
Proof.
  revert s. induction items as [|it rest IH]; intros s Hc.
  - simpl. repeat split; lia.
  - cbn [loop attempted]. rewrite Hc.
    destruct (tryItem_counts page total it s) as (Hp & Hs & Hd & Ho & Hb & _).
    set (s1 := tryItem page total it s) in *.
    rewrite clicks_run. rewrite Hb, Hc. unfold cancelClicked.
    set (s2 := {| ocr := ocr s1; batchCancelled := (0 <? cancelClicks it)%nat || false;
                  database := database s1;
                  toasts := (toasts s1 ++ replicate (cancelClicks it) _)%list;
                  shown := shown s1; processed := processed s1; saved := saved s1 |}).
    destruct (0 <? cancelClicks it)%nat eqn:Hcl.
    + destruct (loop_stopped page total rest s2 eq_refl) as (Hp2 & Hs2 & Hd2 & _).
      rewrite Hp2, Hs2, Hd2. subst s2. cbn [processed saved database].
      rewrite Hp, Hs, Hd. simpl. repeat split; lia.
    + destruct (IH s2 eq_refl) as (Hp2 & Hs2 & Hd2).
      rewrite Hp2, Hs2, Hd2. subst s2. cbn [processed saved database ocr].
      rewrite Hp, Hs, Hd, Ho. simpl. repeat split; lia.
Qed.

(** C10: an item that fails (reading, OCR, parsing or saving) does not stop
    the batch.  Every file up to and including the one during which
    cancellation is requested is attempted, and the number of saved items,
    which is also the number of records added to the database, is the number
    of attempted items that went through without an error. *)
Theorem batch_saves_every_item_that_succeeds
    (page : Page) (files : list Item) (s : State) :
  files ≠ [] ->
  let s' := handleBatchFiles page files s in
  processed s' = length (attempted files) /\
  saved s' = successes page (attempted files) (ocr s) /\
  length (database s') = (length (database s) + saved s')%nat.
Proof.
  intros Hne s'. subst s'. unfold handleBatchFiles.
  destruct files as [|it rest]; [contradiction|].
  set (s0 := {| ocr := ocr s; batchCancelled := false; database := database s;
                toasts := toasts s; shown := shown s; processed := 0; saved := 0 |}).
  destruct (loop_counts page (length (it :: rest)) (it :: rest) s0 eq_refl)
    as (Hp & Hs & Hd).
  rewrite clicks_run.
  destruct (historyLoads page),
    ((0 <? reloadClicks page)%nat
     || batchCancelled (loop page (length (it :: rest)) (it :: rest) s0));
    simpl in *; rewrite Hp, Hs, Hd; repeat split; lia.
Qed.

Lemma batch_saves_every_item_that_succeeds_witness :
  saved (handleBatchFiles Scenario.page
           [Scenario.good; Scenario.torn; Scenario.lastWanted; Scenario.good]
           Scenario.idle) = 2%nat.
Proof.
  refine (proj1 (proj2 (batch_saves_every_item_that_succeeds Scenario.page
            [Scenario.good; Scenario.torn; Scenario.lastWanted; Scenario.good]
            Scenario.idle _))).
  discriminate.
Defined.

End BatchClaims.

(** ** More on the service worker: what the fetch handler writes and keeps *)

Section FetchHandlerFacts.

Import SW.

Implicit Types (cs : CacheStorage) (c : Cache) (name k url : string) (r : Response).

Lemma matchAll_put_ne u name url r cs :
  u ≠ url -> matchAll u (put name url r cs) = matchAll u cs.
Proof.
  intros Hne. unfold put. induction cs as [|[k c] cs IH]; simpl; [reflexivity|].
  destruct (decide (k = name)); simpl.
  - rewrite lookup_insert_ne by congruence. destruct (c !! u); [reflexivity|exact IH].
  - destruct (c !! u); [reflexivity|exact IH].
Qed.

(** The storage a fetch event leaves, spelled out. *)
Lemma onfetch_storage (v : Version) (loc : string) (net : Network) (req : Request) cs :
  storage (onfetch v loc net req cs) =
  if decide (method req ≠ "GET"%string) then cs
  else match matchAll (url req) cs, net (url req) with
       | None, Some answer =>
           if ok answer
           then if accepted req answer
                then put (CACHE_NAME v) (url req) answer (open (CACHE_NAME v) cs)
                else open (CACHE_NAME v) cs
           else cs
       | _, _ => cs
       end.
Proof.
  unfold onfetch, cacheFirst.
  destruct (decide (method req ≠ "GET"%string)); [reflexivity|].
  destruct (decide (origin req = loc));
    destruct (matchAll (url req) cs); try reflexivity;
    destruct (net (url req)); reflexivity.
Qed.

(** X1: whatever the request, a fetch event never changes what an already
    cached request resolves to, and never touches a cache with another
    name. *)
Theorem fetch_keeps_cached_responses
    (v : Version) (loc : string) (net : Network) (req : Request) cs u r :
  matchAll u cs = Some r ->
  matchAll u (storage (onfetch v loc net req cs)) = Some r /\
  (forall k, k ≠ CACHE_NAME v ->
             cacheNamed k (storage (onfetch v loc net req cs)) = cacheNamed k cs).
Proof.
  intros Hu. rewrite onfetch_storage.
  destruct (decide (method req ≠ "GET"%string)); [split; [exact Hu|reflexivity]|].
  destruct (matchAll (url req) cs) as [stored|] eqn:Hm; [split; [exact Hu|reflexivity]|].
  destruct (net (url req)) as [answer|]; [|split; [exact Hu|reflexivity]].
  destruct (ok answer); [|split; [exact Hu|reflexivity]].
  destruct (accepted req answer).
  - split.
    + rewrite matchAll_put_ne by congruence. rewrite matchAll_open. exact Hu.
    + intros k Hk. rewrite cacheNamed_put, cacheNamed_open.
      destruct (decide (k = CACHE_NAME v)); [contradiction|reflexivity].
  - split.
    + rewrite matchAll_open. exact Hu.
    + intros k Hk. rewrite cacheNamed_open.
      destruct (decide (k = CACHE_NAME v)); [contradiction|reflexivity].
Qed.

Lemma fetch_keeps_cached_responses_witness :
  matchAll "./index.html"
    (storage (onfetch label_scanner_v6 "https://scanner.example" Scenario.healthy
                {| method := "GET"; url := "./js/app.js";
                   origin := "https://scanner.example"; pathname := "/js/app.js" |}
                Scenario.threeGenerations))
  = Some (Scenario.page "<html>").
Proof.
  refine (proj1 (fetch_keeps_cached_responses label_scanner_v6 _ Scenario.healthy
                   _ Scenario.threeGenerations "./index.html" _ _)).
  reflexivity.
Defined.

(** X2: the handler changes the cache storage only for a GET request that
    missed every cache and got a 2xx answer from the network, which is then
    also the response it gives.  When the Cache API accepts the answer (it
    is not a 206, has no [Vary: *], and the request is HTTP(S)) it is stored
    under CACHE_NAME; when it does not, the only change is that the cache
    called CACHE_NAME, which did not exist, now exists and is empty.
    Non-GET requests, cache hits, other status codes and network failures
    leave the storage as it was. *)
Theorem fetch_writes_only_ok_GET_answers
    (v : Version) (loc : string) (net : Network) (req : Request) cs :
  storage (onfetch v loc net req cs) ≠ cs ->
  method req = "GET"%string /\
  matchAll (url req) cs = None /\
  exists answer,
    net (url req) = Some answer /\ ok answer = true /\
    respondWith (onfetch v loc net req cs) = Some answer /\
    (accepted req answer = true ->
     storage (onfetch v loc net req cs)
     = put (CACHE_NAME v) (url req) answer (open (CACHE_NAME v) cs)) /\
    (accepted req answer = false ->
     cacheNamed (CACHE_NAME v) cs = None /\
     storage (onfetch v loc net req cs) = (cs ++ [(CACHE_NAME v, ∅)])%list).
Proof.
  rewrite onfetch_storage. unfold onfetch, cacheFirst.
  destruct (decide (method req ≠ "GET"%string)) as [|Hget]; [contradiction|].
  assert (method req = "GET"%string) by (destruct (decide (method req = "GET"%string)); tauto).
  destruct (matchAll (url req) cs); [contradiction|].
  destruct (net (url req)) as [answer|]; [|contradiction].
  destruct (ok answer) eqn:Hok; [|contradiction].
  intros Hchanged. split; [assumption|]. split; [reflexivity|].
  exists answer. rewrite Hok. split; [reflexivity|]. split; [reflexivity|].
  split; [destruct (decide (origin req = loc)); reflexivity|].
  destruct (accepted req answer); (split; [intros Ha|intros Ha]); try discriminate Ha.
  - reflexivity.
  - unfold open in *. destruct (cacheNamed (CACHE_NAME v) cs); [contradiction|].
    split; reflexivity.
Qed.

Lemma fetch_writes_only_ok_GET_answers_witness :
  method Scenario.getIndex = "GET"%string.
Proof.
  refine (proj1 (fetch_writes_only_ok_GET_answers label_scanner_v6
                   "https://scanner.example" Scenario.healthy Scenario.getIndex [] _)).
  vm_compute. discriminate.
Defined.

(** X3: a GET that missed the cache and was answered by the network with a
    2xx status gets that answer.  When the Cache API accepts the answer, the
    same request is answered from the cache the next time, with the same
    response and without any network request, whatever the network has
    become in the meantime.  When it does not (a 206, [Vary: *], or a
    request that is not HTTP(S)), the next request misses again and goes to
    the network. *)
Theorem fetched_once_then_served_from_cache
    (v : Version) (loc : string) (net later : Network) (req : Request) cs answer :
  method req = "GET"%string ->
  matchAll (url req) cs = None ->
  net (url req) = Some answer ->
  ok answer = true ->
  let first := onfetch v loc net req cs in
  let second := onfetch v loc later req (storage first) in
  respondWith first = Some answer /\
  (accepted req answer = true ->
   respondWith second = Some answer /\
   network second = [] /\
   storage second = storage first) /\
  (accepted req answer = false ->
   network second = [url req] /\
   respondWith second = Some (default offline (later (url req)))).
Proof.
  intros Hget Hmiss Hnet Hok first second.
  assert (Hstorage : storage first
                     = if accepted req answer
                       then put (CACHE_NAME v) (url req) answer (open (CACHE_NAME v) cs)
                       else open (CACHE_NAME v) cs).
  { subst first. rewrite onfetch_storage.
    destruct (decide (method req ≠ "GET"%string)); [contradiction|].
    rewrite Hmiss, Hnet, Hok. reflexivity. }
  split; [|split].
  - subst first. unfold onfetch, cacheFirst.
    destruct (decide (method req ≠ "GET"%string)); [contradiction|].
    rewrite Hmiss, Hnet. destruct (decide (origin req = loc)); reflexivity.
  - intros Ha. rewrite Ha in Hstorage.
    assert (Hstored : matchAll (url req) (storage first) = Some answer).
    { rewrite Hstorage. apply matchAll_put.
      - rewrite matchAll_open. exact Hmiss.
      - rewrite cacheNamed_open.
        destruct (decide (CACHE_NAME v = CACHE_NAME v)); [eexists; reflexivity|contradiction]. }
    subst second. unfold onfetch, cacheFirst.
    destruct (decide (method req ≠ "GET"%string)); [contradiction|].
    rewrite Hstored. destruct (decide (origin req = loc)); repeat split; reflexivity.
  - intros Ha. rewrite Ha in Hstorage.
    assert (Hmissing : matchAll (url req) (storage first) = None).
    { rewrite Hstorage, matchAll_open. exact Hmiss. }
    subst second. unfold onfetch, cacheFirst.
    destruct (decide (method req ≠ "GET"%string)); [contradiction|].
    rewrite Hmissing.
    destruct (decide (origin req = loc)); destruct (later (url req)); split; reflexivity.
Qed.

Lemma fetched_once_then_served_from_cache_witness :
  respondWith
    (onfetch label_scanner_v6 "https://scanner.example" Scenario.unplugged Scenario.getIndex
       (storage (onfetch label_scanner_v6 "https://scanner.example" Scenario.healthy
                   Scenario.getIndex [])))
  = Some (Scenario.page "./index.html").
Proof.
  exact (proj1 (proj1 (proj2 (fetched_once_then_served_from_cache label_scanner_v6
           "https://scanner.example" Scenario.healthy Scenario.unplugged
           Scenario.getIndex [] (Scenario.page "./index.html")
           eq_refl eq_refl eq_refl eq_refl)) eq_refl)).
Defined.

End FetchHandlerFacts.

(** ** More on the life cycle: install, activate and fetch together *)

Section LifeCycleFacts.

Import SW.

Implicit Types (cs : CacheStorage) (c : Cache) (name k url : string) (r : Response).

(** What a successful install leaves at each URL of the new generation. *)
Lemma install_lookup (v : Version) (net : Network) (rs : list Response) c url :
  fetchAll net (CACHE_URLS v) = Some rs ->
  putAll (putAll c (zip (CACHE_URLS v) rs)) (settled net (TESSERACT_URLS v)) !! url
  = if decide (url ∈ TESSERACT_URLS v /\ is_Some (fetchOk net url)) then fetchOk net url
    else if decide (url ∈ CACHE_URLS v) then fetchOk net url
    else c !! url.
Proof.
  intros E. apply fetchAll_Some in E. destruct E as [_ E]. apply mapM_Some in E.
  assert (Hreq : forall u r, (u, r) ∈ zip (CACHE_URLS v) rs -> fetchOk net u = Some r)
    by (intros u r; apply zip_functional; exact E).
  assert (Hurls : (zip (CACHE_URLS v) rs).*1 = CACHE_URLS v)
    by (apply fst_zip; rewrite (Forall2_length _ _ _ E); reflexivity).
  rewrite (putAll_lookup (fetchOk net) _ _ url (settled_functional net (TESSERACT_URLS v))).
  rewrite (putAll_lookup (fetchOk net) _ _ url Hreq), Hurls.
  destruct (decide (url ∈ (settled net (TESSERACT_URLS v)).*1)) as [Hs|Hs];
    destruct (decide (url ∈ TESSERACT_URLS v /\ is_Some (fetchOk net url))) as [Ht|Ht];
    try reflexivity; exfalso.
  - apply Ht. apply settled_urls. exact Hs.
  - apply Hs. apply settled_urls. exact Ht.
Qed.

Lemma required_all_fetched (v : Version) (net : Network) :
  NoDup (CACHE_URLS v) ->
  (forall url, url ∈ CACHE_URLS v -> is_Some (fetchOk net url)) ->
  exists rs, fetchAll net (CACHE_URLS v) = Some rs.
Proof.
  intros Hnodup Hall. destruct (fetchAll net (CACHE_URLS v)) as [rs|] eqn:E.
  - exists rs. reflexivity.
  - apply fetchAll_None in E. destruct E as [E|(url & Hin & Hnone)]; [contradiction|].
    destruct (Hall url Hin) as [r Hr]. congruence.
Qed.

(** X4: once a worker has been installed with every required resource
    fetched (answered with a 2xx status other than 206 and without
    [Vary: *]) and has been activated, a GET for any required resource is
    answered from the cache with the response fetched at install time, and
    the network is not asked, so the app shell loads without
    connectivity. *)
Theorem app_shell_served_without_network
    (v : Version) (loc : string) (net later : Network) (reg : Registration)
    (req : Request) :
  wf (caches reg) ->
  NoDup (CACHE_URLS v) ->
  (forall url, url ∈ CACHE_URLS v ->
               exists r, net url = Some r /\ ok r = true /\ status r <> 206%Z /\
                         vary_star r = false) ->
  method req = "GET"%string ->
  url req ∈ CACHE_URLS v ->
  let reg' := deploy v net reg in
  let h := onfetch v loc later req (caches reg') in
  controller reg' = Some (CACHE_NAME v) /\
  keys (caches reg') = [CACHE_NAME v] /\
  network h = [] /\
  storage h = caches reg' /\
  exists r, respondWith h = Some r /\ net (url req) = Some r /\ ok r = true.
Proof.
  intros Hwf Hnodup Hfetched Hget Hin reg' h.
  assert (Hall : forall url, url ∈ CACHE_URLS v -> is_Some (fetchOk net url)).
  { intros url Hurl. destruct (Hfetched url Hurl) as (r & Hr).
    exists r. apply fetchOk_spec. exact Hr. }
  destruct (required_all_fetched v net Hnodup Hall) as [rs E].
  pose proof (install_current v net (caches reg) rs E) as Hcur.
  assert (Hwf' : wf (install v net (caches reg)).2) by (apply install_wf; exact Hwf).
  pose proof (activate_singleton v _ _ Hwf' Hcur) as Hact.
  assert (Hreg : reg' = {| caches := activate v (install v net (caches reg)).2;
                           controller := Some (CACHE_NAME v) |}).
  { subst reg'. unfold deploy. rewrite (install_succeeds v net _ rs E). reflexivity. }
  destruct (Hall (url req) Hin) as [r Hr].
  assert (Hm : matchAll (url req) (caches reg') = Some r).
  { rewrite Hreg. simpl. rewrite Hact. simpl.
    rewrite (install_lookup v net rs _ (url req) E).
    destruct (decide _); [|destruct (decide (url req ∈ CACHE_URLS v)); [|contradiction]];
      rewrite Hr; reflexivity. }
  destruct (proj1 (fetchOk_spec net _ _) Hr) as (Hnet & Hok & _).
  split; [rewrite Hreg; reflexivity|].
  split; [rewrite Hreg; simpl; rewrite Hact; reflexivity|].
  subst h. unfold onfetch, cacheFirst.
  destruct (decide (method req ≠ "GET"%string)); [contradiction|].
  rewrite Hm.
  destruct (decide (origin req = loc)); (split; [reflexivity|]; split; [reflexivity|]);
    exists r; repeat split; assumption.
Qed.

Lemma app_shell_served_without_network_witness :
  network
    (onfetch label_scanner_v6 "https://scanner.example" Scenario.unplugged Scenario.getIndex
       (caches (deploy label_scanner_v6 Scenario.cdnDown
                  {| caches := []; controller := None |})))
  = [].
Proof.
  refine (proj1 (proj2 (proj2 (app_shell_served_without_network label_scanner_v6
            "https://scanner.example" Scenario.cdnDown Scenario.unplugged
            {| caches := []; controller := None |} Scenario.getIndex _ _ _ eq_refl _)))).
  - apply NoDup_nil_2.
  - apply (bool_decide_unpack _). vm_compute. exact I.
  - intros url Hin. vm_compute in Hin.
    repeat (apply elem_of_cons in Hin; destruct Hin as [->|Hin];
            [eexists; vm_compute; repeat split; discriminate|]).
    apply elem_of_nil in Hin. destruct Hin.
  - vm_compute. right. left.
Defined.

Lemma storeAll_fmap name (es : list (string * Response)) cs :
  storeAll name es cs =
  (fun p => if decide (p.1 = name) then (p.1, putAll p.2 es) else p) <$> cs.
Proof.
  unfold storeAll, putAll. revert cs. induction es as [|[u r] es IH]; intros cs.
  - simpl. induction cs as [|[k c] cs IHcs]; [reflexivity|].
    rewrite fmap_cons, <- IHcs. simpl. destruct (decide (k = name)); reflexivity.
  - cbn [foldl]. rewrite IH. unfold put. rewrite <- list_fmap_compose.
    apply list_fmap_ext. intros i [k c] _. simpl.
    destruct (decide (k = name)); simpl; [|destruct (decide (k = name)); tauto].
    destruct (decide (k = name)); [reflexivity|contradiction].
Qed.

Lemma open_present name cs : is_Some (cacheNamed name cs) -> open name cs = cs.
Proof. intros [c Hc]. unfold open. rewrite Hc. reflexivity. Qed.

Lemma open_open name cs : open name (open name cs) = open name cs.
Proof.
  apply open_present. rewrite cacheNamed_open.
  destruct (decide (name = name)); [eexists; reflexivity|contradiction].
Qed.

(** X5: installing the same version again against the same network changes
    nothing: the outcome and the cache storage are those of the first
    install (what is fetched again overwrites equal entries). *)
Theorem install_twice_is_install_once (v : Version) (net : Network) cs :
  install v net (install v net cs).2 = install v net cs.
Proof.
  destruct (fetchAll net (CACHE_URLS v)) as [rs|] eqn:E.
  - assert (Hshape : forall cs0,
      (install v net cs0).2 =
      (fun p => if decide (p.1 = CACHE_NAME v)
                then (p.1, putAll (putAll p.2 (zip (CACHE_URLS v) rs))
                             (settled net (TESSERACT_URLS v)))
                else p) <$> open (CACHE_NAME v) cs0).
    { intros cs0. rewrite (install_succeeds v net cs0 rs E). simpl.
      rewrite (open_present _ (storeAll _ _ _)).
      2:{ rewrite cacheNamed_storeAll, cacheNamed_open.
          destruct (decide (CACHE_NAME v = CACHE_NAME v)); [eexists; reflexivity|contradiction]. }
      rewrite !storeAll_fmap, <- list_fmap_compose.
      apply list_fmap_ext. intros i [k c] _. simpl.
      destruct (decide (k = CACHE_NAME v)); simpl; [|destruct (decide (k = CACHE_NAME v)); tauto].
      destruct (decide (k = CACHE_NAME v)); [reflexivity|contradiction]. }
    assert (Hfst : forall cs0, (install v net cs0).1 = true)
      by (intros cs0; rewrite (install_succeeds v net cs0 rs E); reflexivity).
    apply injective_projections; [rewrite !Hfst; reflexivity|].
    rewrite (Hshape (install v net cs).2), (Hshape cs).
    rewrite (open_present _ (_ <$> _)).
    2:{ rewrite <- (Hshape cs), (install_current v net cs rs E). eexists; reflexivity. }
    rewrite <- list_fmap_compose. apply list_fmap_ext. intros i [k c] _. simpl.
    destruct (decide (k = CACHE_NAME v)); simpl; [|destruct (decide (k = CACHE_NAME v)); tauto].
    destruct (decide (k = CACHE_NAME v)); [|contradiction].
    f_equal. apply map_eq. intros url.
    rewrite !(install_lookup v net rs _ url E).
    repeat case_decide; reflexivity.
  - rewrite !(install_fails v net _ E). simpl. rewrite open_open. reflexivity.
Qed.

End LifeCycleFacts.

(** ** More on the dispatcher *)

Section DispatchFacts.

Import OCR Observe.
Open Scope string_scope.

(** What one run of the local route does to the engine. *)
Lemma processOffline_engine (env : Env) (file : File) (cb : Callback) (s : State) :
  let o := processOffline env file cb s in
  count isScriptAppended (events o) = (if tesseractDefined s then 0 else 1)%nat /\
  tesseractDefined (final o) = tesseractDefined s || scriptLoads env /\
  isOnline (final o) = isOnline s /\
  (result o = Throw ELoadTesseract <->
   tesseractDefined s = false /\ scriptLoads env = false).
Proof.
  simpl. rewrite processOffline_run. simpl.
  destruct (tesseractDefined s) eqn:Hd, (scriptLoads env) eqn:Hl; simpl;
    try (destruct (result (enhanceImage env file s)) as [b|e];
         [destruct (outcome (recognize env b))|]);
    unfold events, final, result; simpl; count_events;
    repeat split; try reflexivity; try assumption;
    try discriminate; try (intros [? ?]; discriminate); try (intros [= ]).
Qed.

Lemma processOnline_engine (env : Env) (file : File) (cb : Callback) (s : State) :
  count isScriptAppended (events (processOnline env file cb s)) = 0%nat /\
  count isLocalAttempt (events (processOnline env file cb s)) = 0%nat /\
  final (processOnline env file cb s) = s.
Proof.
  rewrite processOnline_run. simpl.
  destruct (result (enhanceImage env file s)) as [b|e].
  - destruct (fetchApi env b) as [|m|status [data|]];
      try (destruct (ok status); [try destruct (IsErroredOnProcessing data)|]);
      unfold events, final; simpl; count_events; repeat split.
  - unfold events, final; simpl; count_events; repeat split.
Qed.

(** X7: a dispatch appends the engine's script at most once, only on the
    local route and only while the engine's global is undefined; a dispatch
    that starts with the engine defined appends none; and the engine, once
    defined, is still defined after any dispatch. *)
Theorem engine_loaded_at_most_once_and_kept
    (env : Env) (file : File) (cb : Callback) (s : State) :
  let o := process env file cb s in
  count isScriptAppended (events o)
  = (if tesseractDefined s then 0 else count isLocalAttempt (events o))%nat /\
  (count isScriptAppended (events o) <= 1)%nat /\
  (tesseractDefined s = true -> tesseractDefined (final o) = true) /\
  (tesseractDefined (final o) = true ->
   tesseractDefined s = true \/
   (count isScriptAppended (events o) = 1%nat /\ scriptLoads env = true)).
Proof.
  simpl. rewrite process_run. simpl.
  set (s1 := {| isOnline := navigator_onLine env; tesseractDefined := tesseractDefined s |}).
  assert (Hlocal : forall s2 pre,
    tesseractDefined s2 = tesseractDefined s ->
    count isScriptAppended pre = 0%nat -> count isLocalAttempt pre = 0%nat ->
    let o := processOffline env file cb s2 in
    count isScriptAppended (pre ++ events o)
    = (if tesseractDefined s then 0 else count isLocalAttempt (pre ++ events o))%nat /\
    (count isScriptAppended (pre ++ events o) <= 1)%nat /\
    (tesseractDefined s = true -> tesseractDefined (final o) = true) /\
    (tesseractDefined (final o) = true ->
     tesseractDefined s = true \/
     (count isScriptAppended (pre ++ events o) = 1%nat /\ scriptLoads env = true))).
  { intros s2 pre Hs2 Hp1 Hp2 o.
    destruct (processOffline_engine env file cb s2) as (Hc & Hd & _ & _).
    destruct (processOffline_counts env file cb s2) as (Hl & _ & _).
    fold o in Hc, Hd, Hl. rewrite !count_app, Hp1, Hp2, Hc, Hl, Hd, Hs2.
    destruct (tesseractDefined s), (scriptLoads env); simpl;
      repeat split; auto; try lia; try discriminate. }
  destruct (navigator_onLine env).
  - destruct (processOnline_engine env file cb s1) as (Hc & Hl & Hf).
    destruct (processOnline env file cb s1) as [[[text|err] s2] t].
    + unfold events, final in *. simpl in *. subst s2. rewrite Hc, Hl.
      destruct (tesseractDefined s); simpl; repeat split; auto; discriminate.
    + unfold events, final in Hc, Hl, Hf. simpl in Hc, Hl, Hf. subst s2.
      pose proof (Hlocal s1
        (t ++ ConsoleWarn ("[OCR] Online failed, trying offline: " ++ message err)
           :: shown cb "Online failed, using offline OCR...")%list eq_refl) as H.
      unfold events, final in *. simpl in *.
      repeat (progress (rewrite <- ?app_assoc in H; simpl in H)).
      apply H; count_events; rewrite ?Hc, ?Hl; reflexivity.
  - pose proof (Hlocal s1 (shown cb "📴 Offline mode - using local OCR...") eq_refl) as H.
    unfold events, final in *. simpl in *.
    apply H; count_events; reflexivity.
Qed.

(** X8: a failed engine load is not remembered.  When a dispatch ends with
    the engine-load error, the engine is still undefined afterwards, and a
    later dispatch that takes the local route appends the script again; if
    it loads this time, that dispatch does not end with the engine-load
    error and leaves the engine defined. *)
Theorem engine_load_failure_is_retried
    (env env' : Env) (file file' : File) (cb cb' : Callback) (s : State) :
  result (process env file cb s) = Throw ELoadTesseract ->
  navigator_onLine env' = false ->
  scriptLoads env' = true ->
  let s' := final (process env file cb s) in
  let o' := process env' file' cb' s' in
  tesseractDefined s' = false /\
  count isScriptAppended (events o') = 1%nat /\
  result o' <> Throw ELoadTesseract /\
  tesseractDefined (final o') = true.
Proof.
  intros Hfail Hoff Hloads s' o'.
  assert (Hs' : tesseractDefined s' = false).
  { subst s'. revert Hfail. rewrite process_run. simpl.
    set (s1 := {| isOnline := navigator_onLine env; tesseractDefined := tesseractDefined s |}).
    assert (Hlocal : forall s2,
      result (processOffline env file cb s2) = Throw ELoadTesseract ->
      tesseractDefined (final (processOffline env file cb s2)) = false).
    { intros s2 H. destruct (processOffline_engine env file cb s2) as (_ & Hd & _ & Hiff).
      apply Hiff in H. destruct H as [H1 H2]. rewrite Hd, H1, H2. reflexivity. }
    destruct (navigator_onLine env).
    - pose proof (processOnline_run env file cb s1) as Hrun.
      destruct (processOnline env file cb s1) as [[[text|err] s2] t].
      + unfold result. simpl. discriminate.
      + unfold result, final. simpl. apply Hlocal.
    - unfold result, final. simpl. apply Hlocal. }
  split; [exact Hs'|].
  subst o'. rewrite process_run, Hoff. simpl.
  set (s1 := {| isOnline := false; tesseractDefined := tesseractDefined s' |}).
  destruct (processOffline_engine env' file' cb' s1) as (Hc & Hd & _ & Hiff).
  unfold events, final, result in *. simpl in *.
  rewrite Hs', Hloads in *. simpl in *.
  split; [count_events; exact Hc|]. split; [|exact Hd].
  intros H. apply Hiff in H. destruct H as [_ H]. discriminate H.
Qed.

Lemma engine_load_failure_is_retried_witness :
  count isScriptAppended
    (events
       (process Scenario.disconnected "label.jpg" None
          (final (process
                    {| navigator_onLine := false; loadImage := Scenario.decode;
                       toBlob := fun _ => Some "jpeg";
                       fetchApi := fun _ => FetchFailed "Failed to fetch";
                       jsonError := fun _ => "Unexpected end of JSON input";
                       scriptLoads := false;
                       recognize := fun _ => Scenario.reading |}
                    "label.jpg" None Scenario.fresh)))) = 1%nat.
Proof.
  exact (proj1 (proj2 (engine_load_failure_is_retried
           {| navigator_onLine := false; loadImage := Scenario.decode;
              toBlob := fun _ => Some "jpeg";
              fetchApi := fun _ => FetchFailed "Failed to fetch";
              jsonError := fun _ => "Unexpected end of JSON input";
              scriptLoads := false;
              recognize := fun _ => Scenario.reading |}
           Scenario.disconnected "label.jpg" "label.jpg" None None Scenario.fresh
           eq_refl eq_refl eq_refl))).
Defined.

(** X9: when the service answers with a 2xx status and does not report a
    processing error, the dispatch makes that one request, never enters the
    local route and returns the text of the first parsed result; a missing
    or empty [ParsedResults], or a first result without text, gives the
    empty text and is not an error. *)
Theorem remote_answer_is_returned
    (env : Env) (file : File) (cb : Callback) (s : State)
    (b : Blob) (status : Z) (data : OcrData) :
  navigator_onLine env = true ->
  result (enhanceImage env file s) = Ok b ->
  fetchApi env b = FetchResponse status (Some data) ->
  ok status = true ->
  IsErroredOnProcessing data = false ->
  let o := process env file cb s in
  result o = Ok (parsedText data) /\
  events o = (shown cb "Enhancing image..." ++ [EnhanceCall file]
               ++ shown cb "Sending to OCR..." ++ [RemoteFetch b]
               ++ shown cb "Done!")%list /\
  count isLocalAttempt (events o) = 0%nat /\
  tesseractDefined (final o) = tesseractDefined s /\
  (match ParsedResults data with
   | Some (Some text :: _) => parsedText data = text
   | _ => parsedText data = ""
   end).
Proof.
  intros Hon Hb Hfetch Hok Herr o. subst o.
  set (s1 := {| isOnline := navigator_onLine env; tesseractDefined := tesseractDefined s |}).
  assert (Hb1 : result (enhanceImage env file s1) = Ok b).
  { rewrite (enhanceImage_run env file s1 s). exact Hb. }
  rewrite process_run. fold s1. rewrite Hon. simpl.
  rewrite processOnline_run, Hb1. simpl. rewrite Hfetch, Hok, Herr.
  unfold result, events, final. simpl.
  split; [reflexivity|]. split; [list_eq|]. split; [count_events; reflexivity|].
  split; [reflexivity|].
  unfold parsedText. destruct (ParsedResults data) as [[|[text|] rest]|]; reflexivity.
Qed.

Lemma remote_answer_is_returned_witness :
  result (process Scenario.answering "label.jpg" (Some id) Scenario.fresh) = Ok "BATCH 42".
Proof.
  exact (proj1 (remote_answer_is_returned Scenario.answering "label.jpg" (Some id)
                  Scenario.fresh "jpeg" 200 _ eq_refl eq_refl eq_refl eq_refl eq_refl)).
Defined.

(** X10: for an image whose canvas is not empty, the canvas that
    [enhanceImage] encodes is never wider than 1400 pixels and has at least
    one row.  An image at most that wide keeps its size; a wider one gets
    width 1400 and the height scaled by 1400 / width and truncated, so the
    aspect ratio is kept to within one pixel row.  The raster encoded is the
    enhanced raster of the image drawn at that size. *)
Theorem enhanceImage_canvas_size
    (env : Env) (file : File) (s : State) (img : Image) :
  loadImage env file = Some img ->
  nonEmptyCanvas img ->
  exists canvas,
    result (enhanceImage env file s)
    = match toBlob env canvas with Some blob => Ok blob | None => Throw EProcessing end /\
    canvas_width canvas = Z.min (width img) 1400 /\
    (1 <= canvas_height canvas <= height img)%Z /\
    (width img <= 1400 -> canvas_height canvas = height img)%Z /\
    (1400 < width img ->
     canvas_height canvas * width img <= height img * 1400
       < (canvas_height canvas + 1) * width img)%Z /\
    canvas_data canvas
    = Enhance.applyEnhancements (drawn img (canvas_width canvas) (canvas_height canvas)).
Proof.
  intros Himg (Hw & Hh & Hrow). unfold maxWidth in Hrow.
  unfold enhanceImage, bind, emit, result. simpl. rewrite Himg. unfold maxWidth.
  destruct (Z.ltb_spec 1400 (width img)) as [Hwide|Hnarrow].
  - exists {| canvas_width := 1400;
              canvas_height := height img * 1400 / width img;
              canvas_data :=
                Enhance.applyEnhancements
                  (drawn img 1400 (height img * 1400 / width img)) |}.
    split; [destruct (toBlob env _); reflexivity|]. simpl.
    pose proof (Z.mul_div_le (height img * 1400) (width img) Hw) as Hle.
    pose proof (Z.mul_succ_div_gt (height img * 1400) (width img) Hw) as Hgt.
    assert (1 <= height img * 1400 / width img)%Z.
    { apply Z.div_le_lower_bound; [lia|]. specialize (Hrow Hwide). lia. }
    assert (height img * 1400 / width img <= height img)%Z.
    { apply Z.div_le_upper_bound; [lia|]. nia. }
    repeat split; try lia; try reflexivity.
  - exists {| canvas_width := width img; canvas_height := height img;
              canvas_data :=
                Enhance.applyEnhancements (drawn img (width img) (height img)) |}.
    split; [destruct (toBlob env _); reflexivity|]. simpl.
    repeat split; try lia; try reflexivity.
Qed.

Lemma enhanceImage_canvas_size_witness :
  exists canvas,
    canvas_width canvas = 1400%Z /\ canvas_height canvas = 933%Z.
Proof.
  destruct (enhanceImage_canvas_size
              {| navigator_onLine := true;
                 loadImage := fun _ =>
                   Some {| width := 3000; height := 2000; drawn := fun _ _ => [] |};
                 toBlob := fun _ => Some "jpeg";
                 fetchApi := fun _ => FetchAborted;
                 jsonError := fun _ => "Unexpected end of JSON input";
                 scriptLoads := true;
                 recognize := fun _ => Scenario.reading |}
              "wide.jpg" Scenario.fresh
              {| width := 3000; height := 2000; drawn := fun _ _ => [] |}
              eq_refl ltac:(unfold nonEmptyCanvas, maxWidth; simpl; lia))
    as (canvas & _ & Hw & _ & _ & Hscaled & _).
  exists canvas. simpl in *. split; [exact Hw|].
  specialize (Hscaled ltac:(lia)). lia.
Defined.

(** X11: the three ways the remote attempt is said to fail can be told apart
    in the console warning that precedes the fallback: expiry of the 30 s
    timer is reported as "Request timed out" (the abort error itself is never
    passed on), a status outside 2xx as "HTTP " followed by the status, and
    a processing error of the service by its message, or "OCR failed" when
    the message is missing or empty. *)
Theorem remote_failures_are_told_apart
    (env : Env) (file : File) (cb : Callback) (s : State) (b : Blob) :
  navigator_onLine env = true ->
  result (enhanceImage env file s) = Ok b ->
  let s1 := {| isOnline := true; tesseractDefined := tesseractDefined s |} in
  let thrown := result (processOnline env file cb s1) in
  let logged m := warning m ∈ events (process env file cb s) in
  thrown <> Throw EAbort /\
  match fetchApi env b with
  | FetchAborted => thrown = Throw ETimeout /\ logged "Request timed out"
  | FetchFailed m => thrown = Throw (ENetwork m) /\ logged m
  | FetchResponse status body =>
      if ok status then
        match body with
        | Some data =>
            if IsErroredOnProcessing data then
              match ErrorMessage data with
              | Some m =>
                  if decide (m = "")
                  then thrown = Throw (EApi "OCR failed") /\ logged "OCR failed"
                  else thrown = Throw (EApi m) /\ logged m
              | None => thrown = Throw (EApi "OCR failed") /\ logged "OCR failed"
              end
            else thrown = Ok (parsedText data)
        | None => exists m, thrown = Throw (EJson m) /\ logged m
        end
      else thrown = Throw (EHttp status) /\ logged ("HTTP " ++ pretty status)
  end.
Proof.
  intros Hon Hb s1 thrown logged. subst thrown logged.
  assert (Hb1 : result (enhanceImage env file s1) = Ok b).
  { rewrite (enhanceImage_run env file s1 s). exact Hb. }
  rewrite process_run, Hon. simpl. fold s1.
  rewrite processOnline_run, Hb1. simpl. unfold warning.
  assert (Hin : forall pre m post,
    ConsoleWarn ("[OCR] Online failed, trying offline: " ++ m)
    ∈ (pre ++ ConsoleWarn ("[OCR] Online failed, trying offline: " ++ m) :: post)%list).
  { intros pre m post. apply elem_of_app. right. left. }
  destruct (fetchApi env b) as [|m|status [data|]].
  - unfold result, events. simpl. repeat split; [discriminate|apply Hin].
  - unfold result, events. simpl. repeat split; [discriminate|apply Hin].
  - destruct (ok status); [destruct (IsErroredOnProcessing data)|].
    + unfold errorMessage. destruct (ErrorMessage data) as [m|];
        [destruct (decide (m = ""))|];
        unfold result, events; simpl; repeat split; try discriminate; apply Hin.
    + unfold result. simpl. split; [discriminate|reflexivity].
    + unfold result, events. simpl. repeat split; [discriminate|apply Hin].
  - destruct (ok status).
    + unfold result, events. simpl. split; [discriminate|].
      eexists. split; [reflexivity|apply Hin].
    + unfold result, events. simpl. repeat split; [discriminate|apply Hin].
Qed.

Lemma remote_failures_are_told_apart_witness :
  warning "Request timed out"
  ∈ events (process Scenario.slowEndpoint "label.jpg" None Scenario.fresh).
Proof.
  exact (proj2 (proj2 (remote_failures_are_told_apart Scenario.slowEndpoint "label.jpg"
                         None Scenario.fresh "jpeg" eq_refl eq_refl))).
Defined.

End DispatchFacts.

(** ** More on batch processing *)

Section BatchFacts.

Import Batch BatchView.
Open Scope string_scope.

Lemma attempted_length (items : list Item) : (length (attempted items) <= length items)%nat.
Proof.
  induction items as [|it rest IH]; simpl; [lia|].
  destruct (cancelClicked it); simpl; lia.
Qed.

(** What one pass through the [try] block adds to the database. *)
Lemma tryItem_database (page : Page) (total : nat) (it : Item) (s : State) :
  exists added,
    database (tryItem page total it s) = (database s ++ added)%list /\
    Forall (batchRecord page) added.
Proof.
  unfold tryItem.
  destruct (readable it); simpl; [|exists []; rewrite app_nil_r; split; [reflexivity|constructor]].
  destruct (OCR.process (env it) (file it) (Some _) (ocr s)) as [[[text|e] o'] evs]; simpl;
    [|exists []; rewrite app_nil_r; split; [reflexivity|constructor]].
  destruct (parse page text) as [parsed|] eqn:Hparse; simpl;
    [|exists []; rewrite app_nil_r; split; [reflexivity|constructor]].
  destruct (stored it); simpl;
    [|exists []; rewrite app_nil_r; split; [reflexivity|constructor]].
  eexists [_]. split; [reflexivity|].
  constructor; [|constructor]. unfold batchRecord. simpl. repeat split. exact Hparse.
Qed.

Lemma loop_database (page : Page) (total : nat) (items : list Item) (s : State) :
  exists added,
    database (loop page total items s) = (database s ++ added)%list /\
    Forall (batchRecord page) added.
Proof.
  revert s. induction items as [|it rest IH]; intros s; simpl.
  - exists []. rewrite app_nil_r. split; [reflexivity|constructor].
  - destruct (batchCancelled s).
    + exists []. simpl. rewrite app_nil_r. split; [reflexivity|constructor].
    + destruct (tryItem_database page total it s) as (a1 & H1 & F1).
      destruct (IH (clicks (cancelClicks it) (tryItem page total it s))) as (a2 & H2 & F2).
      exists (a1 ++ a2)%list. split.
      * rewrite H2, clicks_run. cbn [database]. rewrite H1, app_assoc. reflexivity.
      * apply Forall_app. split; assumption.
Qed.

(** X13: every record a batch adds to the database has an empty rack and an
    empty shelf, the movement of the In/Out toggle ("IN" when it is unset),
    and the fields the parser extracted from its raw text; records that were
    there before are kept in place. *)
Theorem batch_records_have_no_location (page : Page) (files : list Item) (s : State) :
  exists added,
    database (handleBatchFiles page files s) = (database s ++ added)%list /\
    Forall (batchRecord page) added /\
    (files ≠ [] -> length added = saved (handleBatchFiles page files s)).
Proof.
  unfold handleBatchFiles. destruct files as [|it rest].
  - exists []. rewrite app_nil_r. split; [reflexivity|]. split; [constructor|]. congruence.
  - set (s0 := {| ocr := ocr s; batchCancelled := false; database := database s;
                  toasts := toasts s; shown := shown s; processed := 0; saved := 0 |}).
    destruct (loop_database page (length (it :: rest)) (it :: rest) s0) as (added & Hd & Hf).
    destruct (loop_counts page (length (it :: rest)) (it :: rest) s0 eq_refl)
      as (_ & Hs & Hl).
    exists added.
    assert (Hlen : length added = saved (loop page (length (it :: rest)) (it :: rest) s0)).
    { rewrite Hd, length_app in Hl. simpl in *. lia. }
    rewrite clicks_run.
    destruct (historyLoads page),
      ((0 <? reloadClicks page)%nat
       || batchCancelled (loop page (length (it :: rest)) (it :: rest) s0));
      simpl; (split; [exact Hd|]); (split; [exact Hf|]); intros _; exact Hlen.
Qed.

Lemma loop_toasts (page : Page) (total : nat) (items : list Item) (s : State) :
  batchCancelled s = false ->
  toasts (loop page total items s)
  = (toasts s
       ++ replicate (sum_list_with cancelClicks (attempted items)) cancellingToast
       ++ if (length (attempted items) <? length items)%nat
          then [cancelledToast (saved s + successes page (attempted items) (ocr s))
                  (processed s + length (attempted items))]
          else [])%list /\
  batchCancelled (loop page total items s) = existsb cancelClicked items.
Proof.
  revert s. induction items as [|it rest IH]; intros s Hc.
  - simpl. rewrite app_nil_r. split; [reflexivity|exact Hc].
  - cbn [loop]. rewrite Hc.
    destruct (tryItem_counts page total it s) as (Hp & Hs & _ & Ho & Hb & Ht).
    set (s1 := tryItem page total it s) in *.
    rewrite clicks_run, Hb, Hc, Ht. fold cancellingToast.
    cbn [attempted existsb sum_list_with].
    change (cancelClicked it) with (0 <? cancelClicks it)%nat.
    set (s2 := {| ocr := ocr s1; batchCancelled := (0 <? cancelClicks it)%nat || false;
                  database := database s1;
                  toasts := (toasts s ++ replicate (cancelClicks it) cancellingToast)%list;
                  shown := shown s1; processed := processed s1; saved := saved s1 |}).
    destruct (0 <? cancelClicks it)%nat eqn:Hcl; cbn [orb].
    + cbn [sum_list_with length]. rewrite Nat.add_0_r.
      destruct rest as [|x rest].
      * simpl. rewrite app_nil_r. split; reflexivity.
      * cbn [loop]. subst s2. cbn [batchCancelled orb toast toasts saved processed].
        rewrite Hs, Hp, <- app_assoc. split; [|reflexivity].
        unfold cancelledToast. simpl.
        replace (saved s + ((if succeeds page it (ocr s) then 1 else 0) + 0))%nat
          with (saved s + (if succeeds page it (ocr s) then 1 else 0))%nat by lia.
        replace (processed s + 1)%nat with (S (processed s)) by lia.
        reflexivity.
    + apply Nat.ltb_ge in Hcl.
      assert (Hzero : cancelClicks it = 0%nat) by lia.
      destruct (IH s2 eq_refl) as [IHt IHc].
      rewrite IHt, IHc. subst s2. cbn [toasts saved processed ocr].
      rewrite Hzero, Hs, Hp, Ho. cbn [replicate]. rewrite app_nil_r.
      split; [|reflexivity]. cbn [length successes].
      replace (S (length (attempted rest)) <? S (length rest))%nat
        with (length (attempted rest) <? length rest)%nat by reflexivity.
      replace (saved s + ((if succeeds page it (ocr s) then 1 else 0)
                          + successes page (attempted rest) (ocrAfter it (ocr s))))%nat
        with (saved s + (if succeeds page it (ocr s) then 1 else 0)
              + successes page (attempted rest) (ocrAfter it (ocr s)))%nat by lia.
      replace (processed s + S (length (attempted rest)))%nat
        with (S (processed s) + length (attempted rest))%nat by lia.
      reflexivity.
Qed.

(** X14: the toasts of a batch.  Every click on the cancel button shows
    "Cancelling batch...".  The loop sees the clicks made during the first
    file that gets one; when files were then left unprocessed it shows the
    "cancelled" summary, with the number saved out of the number attempted,
    and when the click came while the last file was in flight no summary
    follows.  Clicks made while the history is reloaded show their toasts
    after that.  The "complete" summary, with the number saved out of the
    number of files, is shown last, and only when there was no click at all
    and the [loadHistory] before it resolved. *)
Theorem batch_summary_toast (page : Page) (files : list Item) (s : State) :
  files ≠ [] ->
  let s' := handleBatchFiles page files s in
  let k := successes page (attempted files) (ocr s) in
  toasts s' =
  (toasts s
     ++ replicate (sum_list_with cancelClicks (attempted files)) cancellingToast
     ++ (if (length (attempted files) <? length files)%nat
         then [cancelledToast k (length (attempted files))]
         else [])
     ++ replicate (reloadClicks page) cancellingToast
     ++ if historyLoads page && negb (existsb cancelClicked files)
           && (reloadClicks page =? 0)%nat
        then [completeToast k (length files)]
        else [])%list.
Proof.
  intros Hne s' k. subst s' k. unfold handleBatchFiles.
  destruct files as [|it rest]; [contradiction|].
  set (s0 := {| ocr := ocr s; batchCancelled := false; database := database s;
                toasts := toasts s; shown := shown s; processed := 0; saved := 0 |}).
  destruct (loop_toasts page (length (it :: rest)) (it :: rest) s0 eq_refl) as [Ht Hc].
  destruct (loop_counts page (length (it :: rest)) (it :: rest) s0 eq_refl) as (_ & Hs & _).
  rewrite clicks_run. fold cancellingToast. rewrite Hc.
  set (l := loop page (length (it :: rest)) (it :: rest) s0) in *.
  assert (Hzero : (0 <? reloadClicks page)%nat = negb (reloadClicks page =? 0)%nat)
    by (destruct (reloadClicks page); reflexivity).
  rewrite Hzero.
  destruct (historyLoads page); cbn [negb andb toasts].
  2:{ rewrite Ht, app_nil_r, <- !app_assoc. reflexivity. }
  destruct (existsb cancelClicked (it :: rest)), (reloadClicks page =? 0)%nat;
    cbn [negb andb orb batchCancelled toast toasts];
    rewrite ?Hs, Ht, ?app_nil_r, <- ?app_assoc; reflexivity.
Qed.

Lemma batch_summary_toast_witness :
  toasts (handleBatchFiles Scenario.page [Scenario.good; Scenario.lastWanted] Scenario.idle)
  = ["⏹️ Cancelling batch..."].
Proof.
  refine (batch_summary_toast Scenario.page [Scenario.good; Scenario.lastWanted]
            Scenario.idle _).
  discriminate.
Defined.

(** X15: the progress bar stays between 0 and 100 percent for every count a
    batch passes to it (the counter never exceeds the number of files), and
    a total of zero gives 0 percent instead of a division by zero. *)
Theorem batch_progress_within_bar (page : Page) (files : list Item) (s : State) (n : nat) :
  files ≠ [] ->
  (n <= processed (handleBatchFiles page files s))%nat ->
  (n <= length files)%nat /\
  (0 <= percent n (length files))%Q /\
  (percent n (length files) <= 100)%Q /\
  percent n 0 = 0%Q.
Proof.
  intros Hne Hn.
  assert (Hle : (n <= length files)%nat).
  { pose proof (attempted_length files).
    destruct files as [|it rest]; [contradiction|].
    unfold handleBatchFiles in Hn.
    set (s0 := {| ocr := ocr s; batchCancelled := false; database := database s;
                  toasts := toasts s; shown := shown s; processed := 0; saved := 0 |}) in *.
    destruct (loop_counts page (length (it :: rest)) (it :: rest) s0 eq_refl) as (Hp & _ & _).
    rewrite clicks_run in Hn.
    destruct (historyLoads page),
      ((0 <? reloadClicks page)%nat
       || batchCancelled (loop page (length (it :: rest)) (it :: rest) s0));
      cbn [negb batchCancelled] in Hn; try (unfold toast in Hn); cbn [processed] in Hn;
      rewrite Hp in Hn; subst s0; cbn [processed] in Hn; lia. }
  split; [exact Hle|]. unfold percent.
  destruct files as [|it rest]; [contradiction|].
  set (t := length (it :: rest)) in *.
  assert (Ht : (0 < t)%nat) by (subst t; simpl; lia).
  destruct (Nat.ltb_spec 0 t) as [_|]; [|lia].
  assert (Hq : (0 < inject_Z (Z.of_nat t))%Q).
  { change 0%Q with (inject_Z 0). rewrite <- Zlt_Qlt. lia. }
  assert (Hn0 : (0 <= inject_Z (Z.of_nat n))%Q).
  { change 0%Q with (inject_Z 0). rewrite <- Zle_Qle. lia. }
  assert (Hnt : (inject_Z (Z.of_nat n) <= inject_Z (Z.of_nat t))%Q).
  { rewrite <- Zle_Qle. lia. }
  assert (H1 : (0 <= inject_Z (Z.of_nat n) / inject_Z (Z.of_nat t))%Q).
  { apply Qle_shift_div_l; [exact Hq|]. lra. }
  assert (H2 : (inject_Z (Z.of_nat n) / inject_Z (Z.of_nat t) <= 1)%Q).
  { apply Qle_shift_div_r; [exact Hq|]. lra. }
  repeat split; try lra; reflexivity.
Qed.

Lemma batch_progress_within_bar_witness :
  (percent 2 2 <= 100)%Q.
Proof.
  refine (proj1 (proj2 (proj2 (batch_progress_within_bar Scenario.page
            [Scenario.good; Scenario.lastWanted] Scenario.idle 2 _ _)))).
  - discriminate.
  - vm_compute. lia.
Defined.

End BatchFacts.

(** ** The crop box *)

Section CropFacts.

Import Crop.

Lemma resized_fits (corner : string) (c : Container) (s : State) (dx dy : Z) :
  fits c {| left := startL s; top := startT s; width := startW s; height := startH s |} ->
  fits c (resized corner c s dx dy).
Proof.
  unfold fits, resized, minSize. simpl. intros (HL & HT & HW & HH & HR & HB).
  destruct (includes "e"%char corner), (includes "w"%char corner),
           (includes "s"%char corner), (includes "n"%char corner); simpl;
    repeat match goal with
           | |- context [if ?a <? ?b then _ else _] => destruct (Z.ltb_spec a b)
           end; simpl; lia.
Qed.

Lemma handle_anchored (c : Container) (s : State) (e : Pointer) :
  anchored c s -> anchored c (handle c s e).
Proof.
  intros [Hbox Hstart]. destruct e as [target x y|x y|]; simpl.
  - unfold start, anchored. simpl. split; [exact Hbox|]. intros _.
    split; [destruct (box s); exact Hbox|]. intros _. split; reflexivity.
  - unfold move. destruct (mode s) as [| |corner] eqn:Hm.
    + split; [exact Hbox|]. rewrite Hm. intros H. contradiction.
    + destruct Hstart as [Hfit Hsame]; [discriminate|].
      destruct (Hsame eq_refl) as [Hw Hh].
      unfold anchored, withBox, fits, minSize in *. simpl in *. rewrite Hm, Hw, Hh.
      split; [lia|]. intros _. split; [lia|]. intros _. split; reflexivity.
    + destruct Hstart as [Hfit _]; [discriminate|].
      unfold anchored, withBox. simpl. rewrite Hm.
      split; [apply resized_fits; exact Hfit|]. intros _.
      split; [exact Hfit|]. discriminate.
  - unfold stop, anchored. simpl. split; [exact Hbox|]. intros H. contradiction.
Qed.

(** X16: a crop box that lies within the container and measures at least
    50 by 50 pixels still does after any sequence of presses, moves and
    releases, whichever handle is used and however far the pointer goes. *)
Theorem crop_box_stays_inside (c : Container) (events : list Pointer) (s : State) :
  mode s = Idle ->
  fits c (box s) ->
  fits c (box (gesture c events s)).
Proof.
  intros Hidle Hfit.
  assert (Hanch : anchored c s).
  { split; [exact Hfit|]. rewrite Hidle. intros H. contradiction. }
  clear Hidle Hfit. revert s Hanch. unfold gesture.
  induction events as [|e events IH]; intros s Hanch; simpl.
  - exact (proj1 Hanch).
  - apply IH. apply handle_anchored. exact Hanch.
Qed.

Lemma crop_box_stays_inside_witness :
  fits {| clientWidth := 300; clientHeight := 200 |}
    (box (gesture {| clientWidth := 300; clientHeight := 200 |}
            [Down (Handle "nw") 60 60; Moved (-500) 900; Up;
             Down TheBox 100 100; Moved 4000 (-4000); Up]
            {| box := {| left := 50; top := 50; width := 100; height := 80 |};
               mode := Idle; startX := 0; startY := 0;
               startL := 0; startT := 0; startW := 0; startH := 0 |})).
Proof.
  apply crop_box_stays_inside; [reflexivity|].
  unfold fits, minSize. simpl. lia.
Defined.

End CropFacts.

(** ** Regular expressions and e-mail addresses *)

Section RegexFacts.

Import Regex.

Lemma matches_nil_nullable (r : re) (s : list N) :
  matches r s -> s = [] -> nullable r = true.
Proof.
  induction 1 as [|p c Hp|a b s t _ IHa _ IHb|a b s _ IH|a b s _ IH|a|a s t _ _ _ _];
    intros E; simpl; try reflexivity.
  - discriminate E.
  - apply app_eq_nil in E. destruct E as [-> ->].
    rewrite IHa, IHb; reflexivity.
  - rewrite IH by exact E. reflexivity.
  - rewrite IH by exact E. apply orb_true_r.
Qed.

Lemma nullable_matches_nil (r : re) : nullable r = true -> matches r [].
Proof.
  induction r as [| |p|a IHa b IHb|a IHa b IHb|a IHa]; simpl; intros H.
  - discriminate H.
  - constructor.
  - discriminate H.
  - apply andb_true_iff in H. destruct H as [Ha Hb].
    change (@nil N) with (@nil N ++ [])%list. constructor; auto.
  - apply orb_true_iff in H. destruct H as [Ha|Hb];
      [apply m_alt_l|apply m_alt_r]; auto.
  - constructor.
Qed.

Lemma matches_class (p : N -> bool) (s : list N) :
  matches (Class p) s <-> exists c, s = [c] /\ p c = true.
Proof.
  split.
  - intros H. inversion H; subst. eexists; split; [reflexivity|assumption].
  - intros (c & -> & Hp). constructor. exact Hp.
Qed.

Lemma matches_cat (a b : re) (s : list N) :
  matches (Cat a b) s <->
  exists s1 s2, s = (s1 ++ s2)%list /\ matches a s1 /\ matches b s2.
Proof.
  split.
  - intros H. inversion H; subst. eexists _, _. repeat split; assumption.
  - intros (s1 & s2 & -> & H1 & H2). constructor; assumption.
Qed.

Lemma star_cons (a : re) (c : N) (s : list N) :
  matches (Star a) (c :: s) ->
  exists s1 s2, s = (s1 ++ s2)%list /\ matches a (c :: s1) /\ matches (Star a) s2.
Proof.
  intros H. remember (Star a) as r eqn:Er. remember (c :: s) as w eqn:Ew.
  revert s Ew.
  induction H as [|p d Hp|x y u t _ _ _ _|x y u _ _|x y u _ _|x|x u t Hu _ Ht IHt];
    intros s Ew; try discriminate Er.
  - discriminate Ew.
  - inversion Er; subst x. destruct u as [|d u].
    + simpl in Ew. apply (IHt eq_refl s Ew).
    + simpl in Ew. inversion Ew; subst d s.
      exists u, t. repeat split; assumption.
Qed.

Lemma deriv_matches (c : N) (r : re) (s : list N) :
  matches (deriv c r) s <-> matches r (c :: s).
Proof.
  revert s. induction r as [| |p|a IHa b IHb|a IHa b IHb|a IHa]; intros s; simpl.
  - split; intros H; inversion H.
  - split; intros H; inversion H.
  - destruct (p c) eqn:Hp; split; intros H.
    + inversion H; subst. constructor. exact Hp.
    + inversion H; subst. constructor.
    + inversion H.
    + inversion H; subst. congruence.
  - assert (Hcat : forall u, matches (Cat (deriv c a) b) u -> matches (Cat a b) (c :: u)).
    { intros u H. apply matches_cat in H. destruct H as (u1 & u2 & -> & H1 & H2).
      change (c :: u1 ++ u2)%list with ((c :: u1) ++ u2)%list.
      constructor; [apply IHa; exact H1|exact H2]. }
    assert (Hsplit : forall u, matches (Cat a b) (c :: u) ->
              matches (Cat (deriv c a) b) u \/ (matches a [] /\ matches b (c :: u))).
    { intros u H. apply matches_cat in H. destruct H as (u1 & u2 & E & H1 & H2).
      destruct u1 as [|d u1]; simpl in E.
      - right. subst u2. split; assumption.
      - inversion E; subst d u. left. constructor; [apply IHa; exact H1|exact H2]. }
    destruct (nullable a) eqn:Hn; split; intros H.
    + inversion H; subst; [apply Hcat; assumption|].
      change (c :: s) with ([] ++ c :: s)%list.
      constructor; [apply nullable_matches_nil; exact Hn|apply IHb; assumption].
    + destruct (Hsplit s H) as [H1|[_ H2]];
        [apply m_alt_l; exact H1|apply m_alt_r; apply IHb; exact H2].
    + apply Hcat. exact H.
    + destruct (Hsplit s H) as [H1|[H1 _]]; [exact H1|].
      apply (matches_nil_nullable a []) in H1; [congruence|reflexivity].
  - split; intros H; inversion H; subst;
      try (apply m_alt_l; apply IHa; assumption);
      try (apply m_alt_r; apply IHb; assumption).
  - split; intros H.
    + apply matches_cat in H. destruct H as (u1 & u2 & -> & H1 & H2).
      change (c :: u1 ++ u2)%list with ((c :: u1) ++ u2)%list.
      constructor; [apply IHa; exact H1|exact H2].
    + destruct (star_cons a c s H) as (s1 & s2 & -> & H1 & H2).
      constructor; [apply IHa; exact H1|exact H2].
Qed.

(** The matcher decides the language of the expression. *)
Lemma test_matches (r : re) (s : list N) : test r s = true <-> matches r s.
Proof.
  revert r. induction s as [|c s IH]; intros r; simpl.
  - split; [apply nullable_matches_nil|intros H; apply (matches_nil_nullable r [] H eq_refl)].
  - rewrite IH. apply deriv_matches.
Qed.

Lemma matches_star_class (p : N -> bool) (s : list N) :
  matches (Star (Class p)) s <-> Forall (fun c => p c = true) s.
Proof.
  split.
  - intros H. remember (Star (Class p)) as r eqn:Er.
    induction H as [|q d Hq|x y u t _ _ _ _|x y u _ _|x y u _ _|x|x u t Hu _ Ht IHt];
      try discriminate Er.
    + constructor.
    + inversion Er; subst x. apply Forall_app. split; [|apply IHt; reflexivity].
      inversion Hu; subst. constructor; [assumption|constructor].
  - induction 1 as [|c s Hc _ IH]; [constructor|].
    change (c :: s) with ([c] ++ s)%list. constructor; [constructor; exact Hc|exact IH].
Qed.

Lemma matches_plus_class (p : N -> bool) (s : list N) :
  matches (Plus (Class p)) s <-> s <> [] /\ Forall (fun c => p c = true) s.
Proof.
  unfold Plus. rewrite matches_cat. split.
  - intros (s1 & s2 & -> & H1 & H2).
    apply matches_class in H1. destruct H1 as (c & -> & Hc).
    apply matches_star_class in H2. split; [discriminate|].
    constructor; assumption.
  - intros [Hne Hall]. destruct s as [|c s]; [contradiction|].
    inversion Hall; subst. exists [c], s. split; [reflexivity|]. split.
    + constructor. assumption.
    + apply matches_star_class. assumption.
Qed.

End RegexFacts.

Section EmailFacts.

Import Email.

(** X17: [isValidEmail] accepts exactly the strings made of a non-empty local
    part, an at sign, and a domain that has a dot with something on either
    side of it, where none of the three parts contains white space or
    another at sign.  Dots are allowed anywhere in the three parts. *)
Theorem isValidEmail_shape (email : list N) :
  isValidEmail email = true <->
  exists user host tld,
    email = (user ++ at_sign :: host ++ dot :: tld)%list /\
    user <> [] /\ host <> [] /\ tld <> [] /\
    Forall (fun c => plain c = true) (user ++ host ++ tld).
Proof.
  unfold isValidEmail, pattern. rewrite test_matches. split.
  - intros H.
    apply matches_cat in H. destruct H as (user & r1 & -> & Hu & H).
    apply matches_cat in H. destruct H as (a & r2 & -> & Ha & H).
    apply matches_cat in H. destruct H as (host & r3 & -> & Hh & H).
    apply matches_cat in H. destruct H as (d & tld & -> & Hd & Ht).
    apply matches_class in Ha. destruct Ha as (c & -> & Hc). apply N.eqb_eq in Hc. subst c.
    apply matches_class in Hd. destruct Hd as (c & -> & Hc). apply N.eqb_eq in Hc. subst c.
    apply matches_plus_class in Hu, Hh, Ht.
    destruct Hu as [Hu1 Hu2], Hh as [Hh1 Hh2], Ht as [Ht1 Ht2].
    exists user, host, tld. split; [reflexivity|]. repeat split; try assumption.
    apply Forall_app. split; [assumption|]. apply Forall_app. split; assumption.
  - intros (user & host & tld & -> & Hu & Hh & Ht & Hall).
    apply Forall_app in Hall. destruct Hall as [Hau Hall].
    apply Forall_app in Hall. destruct Hall as [Hah Hat].
    apply matches_cat. exists user, (at_sign :: host ++ dot :: tld)%list.
    split; [reflexivity|]. split; [apply matches_plus_class; split; assumption|].
    apply matches_cat. exists [at_sign], (host ++ dot :: tld)%list.
    split; [reflexivity|]. split; [apply matches_class; exists at_sign; split; reflexivity|].
    apply matches_cat. exists host, (dot :: tld)%list.
    split; [reflexivity|]. split; [apply matches_plus_class; split; assumption|].
    apply matches_cat. exists [dot], tld.
    split; [reflexivity|]. split; [apply matches_class; exists dot; split; reflexivity|].
    apply matches_plus_class. split; assumption.
Qed.

Lemma remember_shape (email : list N) (l : list (list N)) :
  exists kept dropped,
    l = (kept ++ dropped)%list /\ remember email l = email :: kept /\
    (length dropped <= 1)%nat /\
    ((length l < 10)%nat -> dropped = []) /\
    ((10 <= length l)%nat -> length dropped = 1%nat).
Proof.
  unfold remember. simpl length.
  destruct (Nat.ltb_spec 10 (S (length l))) as [Hlong|Hshort].
  - destruct l as [|x l]; [simpl in Hlong; lia|].
    pose proof (@app_removelast_last _ (x :: l) x ltac:(discriminate)) as Hl.
    exists (removelast (x :: l)), [List.last (x :: l) x].
    split; [exact Hl|]. split; [reflexivity|]. simpl length.
    repeat split; try lia. intros H. simpl in *. lia.
  - exists l, []. rewrite app_nil_r. simpl.
    split; [reflexivity|]. split; [reflexivity|]. split; [lia|].
    split; [reflexivity|]. intros H. lia.
Qed.

(** X18: [saveEmail] ignores an address that is not valid and leaves the
    list as it is (order included) for one that is already in it; a new
    valid address goes to the front, and the oldest entry is dropped when
    the list would otherwise grow beyond ten.  So a list of at most ten
    distinct valid addresses stays one, and a valid address is in the list
    after it has been saved. *)
Theorem saveEmail_keeps_ten_distinct (email : list N) (saved : Saved) :
  let before := emails saved in
  let after := emails (saveEmail email saved) in
  (isValidEmail email = false -> saveEmail email saved = saved) /\
  (email ∈ before -> saveEmail email saved = saved) /\
  (isValidEmail email = true -> email ∉ before ->
   exists kept dropped,
     before = (kept ++ dropped)%list /\ after = email :: kept /\
     (length dropped <= 1)%nat /\ ((length before < 10)%nat -> dropped = [])) /\
  (isValidEmail email = true -> email ∈ after) /\
  ((length before <= 10)%nat -> (length after <= 10)%nat) /\
  (NoDup before -> NoDup after) /\
  (Forall (fun e => isValidEmail e = true) before ->
   Forall (fun e => isValidEmail e = true) after).
Proof.
  intros before after. subst before after. unfold saveEmail.
  destruct (bool_decide (email = [])) eqn:Hempty; simpl.
  { apply bool_decide_eq_true_1 in Hempty. subst email.
    repeat split; auto; try discriminate. }
  destruct (isValidEmail email) eqn:Hvalid; simpl;
    [|repeat split; auto; discriminate].
  destruct (bool_decide (email ∈ emails saved)) eqn:Hin.
  { apply bool_decide_eq_true_1 in Hin. repeat split; auto; try discriminate.
    intros _ Hn. contradiction. }
  apply bool_decide_eq_false_1 in Hin.
  destruct (remember_shape email (emails saved)) as (kept & dropped & Hl & Hr & Hd & Hs & Hlong).
  unfold emails at 3 4 5 6. simpl. rewrite Hr.
  split; [discriminate|]. split; [intros H; contradiction|].
  split; [intros _ _; exists kept, dropped; repeat split; assumption|].
  split; [intros _; left|].
  split; [|split].
  - intros Hlen. rewrite Hl, length_app in Hlen. simpl.
    destruct (Nat.le_gt_cases 10 (length (emails saved))) as [Hge|Hlt].
    + specialize (Hlong Hge). rewrite Hl, length_app in Hge. lia.
    + specialize (Hs Hlt). subst dropped. rewrite app_nil_r in Hl.
      rewrite <- Hl. lia.
  - intros Hnd. rewrite Hl in Hnd, Hin. apply NoDup_app in Hnd.
    destruct Hnd as (Hk & _ & _). apply NoDup_cons. split; [|exact Hk].
    intros Hk'. apply Hin. apply elem_of_app. left. exact Hk'.
  - intros Hall. rewrite Hl in Hall. apply Forall_app in Hall.
    destruct Hall as [Hk _]. constructor; [exact Hvalid|exact Hk].
Qed.

End EmailFacts.

(** ** Counting characters *)

Section StringFacts.

Import Outbox.

Lemma occurrences_app (c : Ascii.ascii) (s t : string) :
  occurrences c (s ++ t) = (occurrences c s + occurrences c t)%nat.
Proof.
  induction s as [|d s IH]; [reflexivity|].
  simpl. rewrite IH. lia.
Qed.

Lemma occurrences_concat (c : Ascii.ascii) (sep : string) (l : list string) :
  occurrences c (String.concat sep l)
  = (sum_list_with (occurrences c) l + (length l - 1) * occurrences c sep)%nat.
Proof.
  induction l as [|x l IH]; [reflexivity|].
  destruct l as [|y l].
  - cbn. lia.
  - change (String.concat sep (x :: y :: l))
      with (x ++ sep ++ String.concat sep (y :: l)).
    rewrite !occurrences_app, IH. cbn [sum_list_with length]. lia.
Qed.

Lemma sum_list_with_fmap {A B} (f : B -> nat) (g : A -> B) (l : list A) :
  sum_list_with f (g <$> l) = sum_list_with (fun x => f (g x)) l.
Proof. induction l as [|x l IH]; [reflexivity|]. cbn. rewrite <- IH. reflexivity. Qed.

End StringFacts.

(** ** Rack and shelf options *)

Section LocationFacts.

Import Locations.

Lemma setAdd_fold_elem (l acc : list string) (x : string) :
  x ∈ foldl setAdd acc l <-> x ∈ acc \/ x ∈ l.
Proof.
  revert acc. induction l as [|y l IH]; intros acc; cbn [foldl].
  - rewrite elem_of_nil. tauto.
  - rewrite IH, elem_of_cons. unfold setAdd. case_bool_decide as Hy.
    + split; [tauto|]. intros [?|[->|?]]; tauto.
    + rewrite elem_of_app, list_elem_of_singleton. tauto.
Qed.

Lemma setAdd_fold_NoDup (l acc : list string) :
  NoDup acc -> NoDup (foldl setAdd acc l).
Proof.
  revert acc. induction l as [|y l IH]; intros acc Hacc; cbn [foldl]; [exact Hacc|].
  apply IH. unfold setAdd. case_bool_decide as Hy; [exact Hacc|].
  apply NoDup_app. split; [exact Hacc|]. split; [|apply NoDup_singleton].
  intros x Hx Hx'. apply list_elem_of_singleton in Hx'. subst x. contradiction.
Qed.

Lemma setAdd_fold_prefix (l acc : list string) : acc `prefix_of` foldl setAdd acc l.
Proof.
  revert acc. induction l as [|y l IH]; intros acc; cbn [foldl]; [reflexivity|].
  etransitivity; [|apply IH]. unfold setAdd. case_bool_decide; [reflexivity|].
  apply prefix_app_r. reflexivity.
Qed.

Lemma setAdd_fold_fresh (l acc : list string) :
  NoDup (acc ++ l) -> foldl setAdd acc l = (acc ++ l)%list.
Proof.
  revert acc. induction l as [|y l IH]; intros acc Hnd; cbn [foldl].
  - rewrite app_nil_r. reflexivity.
  - assert (Hy : y ∉ acc).
    { apply NoDup_app in Hnd. destruct Hnd as (_ & Hd & _).
      intros Hy. apply (Hd y Hy). left. }
    unfold setAdd. rewrite bool_decide_eq_false_2 by exact Hy.
    rewrite IH; rewrite <- app_assoc; [reflexivity|exact Hnd].
Qed.

Lemma allOptions_defaults_first (d c : list string) :
  NoDup d ->
  NoDup (allOptions d c) /\
  d `prefix_of` allOptions d c /\
  (forall x, x ∈ allOptions d c <-> x ∈ d \/ x ∈ c) /\
  (NoDup c -> (forall x, x ∈ c -> x ∉ d) -> allOptions d c = (d ++ c)%list).
Proof.
  intros Hd. unfold allOptions, distinct.
  assert (Hfold : foldl setAdd [] (d ++ c) = foldl setAdd d c).
  { rewrite foldl_app. f_equal. apply (setAdd_fold_fresh d []). exact Hd. }
  split; [apply setAdd_fold_NoDup; constructor|].
  split; [rewrite Hfold; apply setAdd_fold_prefix|].
  split.
  - intros x. rewrite setAdd_fold_elem, elem_of_nil, elem_of_app. tauto.
  - intros Hc Hdisj. rewrite Hfold. apply setAdd_fold_fresh.
    apply NoDup_app. split; [exact Hd|]. split; [|exact Hc].
    intros x Hx Hx'. exact (Hdisj x Hx' Hx).
Qed.

Lemma defaultRacks_NoDup : NoDup defaultRacks.
Proof. apply (bool_decide_unpack _). vm_compute. exact I. Qed.

Lemma defaultShelves_NoDup : NoDup defaultShelves.
Proof. apply (bool_decide_unpack _). vm_compute. exact I. Qed.

Lemma defaultsFor_NoDup (key : string) : NoDup (defaultsFor key).
Proof.
  unfold defaultsFor. destruct (decide _);
    [apply defaultRacks_NoDup|apply defaultShelves_NoDup].
Qed.

Lemma string_app_nil_r (a : string) : (a ++ EmptyString)%string = a.
Proof.
  induction a as [|x a IH]; [reflexivity|].
  change (String x (a ++ EmptyString)%string = String x a). rewrite IH. reflexivity.
Qed.

Lemma markup_cons (x : string) (l : list string) :
  markup (x :: l) = (optionTag x ++ markup l)%string.
Proof.
  unfold markup. rewrite fmap_cons. destruct l as [|y l].
  - simpl. symmetry. apply string_app_nil_r.
  - reflexivity.
Qed.

Lemma string_app_assoc (a b c : string) : ((a ++ b) ++ c = a ++ b ++ c)%string.
Proof.
  induction a as [|x a IH]; [reflexivity|].
  change (String x ((a ++ b) ++ c)%string = String x (a ++ b ++ c)%string).
  rewrite IH. reflexivity.
Qed.

(** Every name has its tag in the markup, in the place of the name. *)
Lemma markup_split (before after : list string) (x : string) :
  markup (before ++ x :: after)
  = (markup before ++ optionTag x ++ markup after)%string.
Proof.
  induction before as [|y before IH]; simpl.
  - rewrite markup_cons. reflexivity.
  - rewrite !markup_cons, IH, string_app_assoc. reflexivity.
Qed.

Lemma markup_quotes (l : list string) :
  Outbox.occurrences "034" (markup l)
  = (2 * length l + sum_list_with (Outbox.occurrences "034") l)%nat.
Proof.
  induction l as [|x l IH]; [reflexivity|].
  rewrite markup_cons, occurrences_app, IH. unfold optionTag.
  rewrite !occurrences_app. cbn [length sum_list_with].
  replace (Outbox.occurrences "034" "<option value=") with 0%nat by reflexivity.
  replace (Outbox.occurrences "034" dquote) with 1%nat by reflexivity.
  replace (Outbox.occurrences "034" ">") with 0%nat by reflexivity.
  lia.
Qed.

(** X19: the names [loadLocationOptions] writes into each datalist are
    the defaults and the stored custom locations: no name twice, the five
    defaults first and in their order; when the stored ones are distinct and
    none is a default, the names are the defaults followed by the stored
    ones in the order they were stored.  Each name is written as
    [<option value="name">] with the name put in as it is, so the markup
    has two double quotes per name plus those inside the names. *)
Theorem location_options_defaults_first (ls : LocalStorage) :
  let racks := allOptions defaultRacks (stored "rackLocations" ls) in
  let shelves := allOptions defaultShelves (stored "shelfLocations" ls) in
  loadLocationOptions ls = {| rack_list := markup racks; shelf_list := markup shelves |} /\
  (NoDup racks /\
   defaultRacks `prefix_of` racks /\
   (forall x, x ∈ racks <-> x ∈ defaultRacks \/ x ∈ stored "rackLocations" ls) /\
   (clean "rackLocations" ls ->
    racks = (defaultRacks ++ stored "rackLocations" ls)%list)) /\
  (NoDup shelves /\
   defaultShelves `prefix_of` shelves /\
   (forall x, x ∈ shelves <-> x ∈ defaultShelves \/ x ∈ stored "shelfLocations" ls) /\
   (clean "shelfLocations" ls ->
    shelves = (defaultShelves ++ stored "shelfLocations" ls)%list)) /\
  (forall names before after x,
      names = (before ++ x :: after)%list ->
      markup names = (markup before ++ optionTag x ++ markup after)%string /\
      Outbox.occurrences "034" (markup names)
      = (2 * length names + sum_list_with (Outbox.occurrences "034") names)%nat).
Proof.
  cbn zeta. split; [reflexivity|]. split; [|split].
  - destruct (allOptions_defaults_first defaultRacks (stored "rackLocations" ls)
                defaultRacks_NoDup) as (H1 & H2 & H3 & H4).
    repeat split; try assumption; try apply H3.
    intros (Hnd & _ & Hdisj). apply H4; assumption.
  - destruct (allOptions_defaults_first defaultShelves (stored "shelfLocations" ls)
                defaultShelves_NoDup) as (H1 & H2 & H3 & H4).
    repeat split; try assumption; try apply H3.
    intros (Hnd & _ & Hdisj). apply H4; assumption.
  - intros names before after x ->. split; [apply markup_split|apply markup_quotes].
Qed.

Lemma namesFor_elem (key : string) (ls : LocalStorage) (x : string) :
  x ∈ namesFor key ls <-> x ∈ defaultsFor key \/ x ∈ stored key ls.
Proof. apply (allOptions_defaults_first _ _ (defaultsFor_NoDup key)). Qed.

Lemma markupFor_load (key : string) (ls : LocalStorage) :
  key = "rackLocations" \/ key = "shelfLocations" ->
  markupFor key (loadLocationOptions ls) = markup (namesFor key ls).
Proof.
  intros [-> | ->]; unfold markupFor, namesFor, defaultsFor, loadLocationOptions;
    cbn [rack_list shelf_list].
  - rewrite !decide_True by reflexivity. reflexivity.
  - rewrite !decide_False by discriminate. reflexivity.
Qed.

Lemma stored_insert (key k : string) (l : list string) (ls : LocalStorage) :
  stored k (<[key := l]> ls) = if decide (k = key) then l else stored k ls.
Proof.
  unfold stored. destruct (decide (k = key)) as [->|Hk].
  - rewrite lookup_insert_eq. reflexivity.
  - rewrite lookup_insert_ne by congruence. reflexivity.
Qed.

Lemma saveLocationOption_stored (key loc : string) (p : Page) (k : string) :
  stored k (localStorage (saveLocationOption key loc p))
  = if decide (k = key)
    then (if bool_decide (loc = "") || bool_decide (loc ∈ defaultsFor key)
             || bool_decide (loc ∈ stored key (localStorage p))
          then stored key (localStorage p)
          else (stored key (localStorage p) ++ [loc])%list)
    else stored k (localStorage p).
Proof.
  unfold saveLocationOption.
  destruct (bool_decide (loc = "") || bool_decide (loc ∈ defaultsFor key)); cbn [orb].
  { destruct (decide (k = key)) as [->|]; reflexivity. }
  destruct (bool_decide (loc ∈ stored key (localStorage p))).
  { destruct (decide (k = key)) as [->|]; reflexivity. }
  cbn [localStorage]. apply stored_insert.
Qed.

Lemma saveLocationOption_synced (key loc : string) (p : Page) :
  datalists p = loadLocationOptions (localStorage p) ->
  datalists (saveLocationOption key loc p)
  = loadLocationOptions (localStorage (saveLocationOption key loc p)).
Proof.
  intros Hp. unfold saveLocationOption.
  destruct (_ || _); [exact Hp|]. destruct (bool_decide _); [exact Hp|reflexivity].
Qed.

Lemma saveLocationOption_clean (key loc : string) (p : Page) (k : string) :
  clean k (localStorage p) -> clean k (localStorage (saveLocationOption key loc p)).
Proof.
  unfold clean. rewrite saveLocationOption_stored.
  destruct (decide (k = key)) as [->|]; [|tauto].
  destruct (bool_decide (loc = "")) eqn:Hempty; cbn [orb]; [tauto|].
  destruct (bool_decide (loc ∈ defaultsFor key)) eqn:Hdef; cbn [orb]; [tauto|].
  destruct (bool_decide (loc ∈ stored key (localStorage p))) eqn:Hin; [tauto|].
  apply bool_decide_eq_false_1 in Hempty, Hdef, Hin.
  intros (Hnd & Hne & Hdisj). split; [|split].
  - apply NoDup_app. split; [exact Hnd|]. split; [|apply NoDup_singleton].
    intros x Hx Hx'. apply list_elem_of_singleton in Hx'. subst x. contradiction.
  - rewrite elem_of_app, list_elem_of_singleton. intros [?|?]; [tauto|congruence].
  - intros x. rewrite elem_of_app, list_elem_of_singleton.
    intros [Hx| ->]; [apply Hdisj; exact Hx|exact Hdef].
Qed.

(** X20: after [saveLocationOption(key, location)] with a location that is
    not empty, the location is among the names [loadLocationOptions] writes
    for that key, whether it was a default, already stored, or new, and the
    markup written for the key holds [<option value="location">] with the
    location as it is.  The stored list of the key is what it was, or what
    it was with the location at its end; nothing else in the storage
    changes; and a page whose datalists held the markup of what was stored
    still does. *)
Theorem saved_location_is_offered (key location : string) (p : Page)
  (Hkey : key = "rackLocations" \/ key = "shelfLocations")
  (Hlocation : location <> "") :
  let p' := saveLocationOption key location p in
  location ∈ namesFor key (localStorage p') /\
  (exists before after,
      markupFor key (loadLocationOptions (localStorage p'))
      = (markup before ++ optionTag location ++ markup after)%string) /\
  (stored key (localStorage p') = stored key (localStorage p) \/
   stored key (localStorage p') = (stored key (localStorage p) ++ [location])%list) /\
  (forall k, k <> key -> localStorage p' !! k = localStorage p !! k) /\
  (datalists p = loadLocationOptions (localStorage p) ->
   datalists p' = loadLocationOptions (localStorage p')).
Proof.
  cbn zeta.
  assert (Hin : location ∈ namesFor key (localStorage (saveLocationOption key location p))).
  { rewrite namesFor_elem. rewrite saveLocationOption_stored.
    rewrite decide_True by reflexivity.
    rewrite (bool_decide_eq_false_2 (location = "")) by exact Hlocation. cbn [orb].
    destruct (bool_decide (location ∈ defaultsFor key)) eqn:Hdef; cbn [orb].
    { left. apply bool_decide_eq_true_1 in Hdef. exact Hdef. }
    destruct (bool_decide (location ∈ stored key (localStorage p))) eqn:Hin.
    { right. apply bool_decide_eq_true_1 in Hin. exact Hin. }
    right. apply elem_of_app. right. left. }
  split; [exact Hin|]. split; [|split; [|split]].
  - rewrite markupFor_load by exact Hkey.
    apply list_elem_of_split in Hin. destruct Hin as (before & after & ->).
    exists before, after. apply markup_split.
  - rewrite saveLocationOption_stored. rewrite decide_True by reflexivity.
    destruct (_ || _); [left|right]; reflexivity.
  - intros k Hk. unfold saveLocationOption.
    destruct (_ || _); [reflexivity|]. destruct (bool_decide _); [reflexivity|].
    cbn [localStorage]. apply lookup_insert_ne. congruence.
  - apply saveLocationOption_synced.
Qed.

Lemma saved_location_is_offered_witness :
  let p' := saveLocationOption "rackLocations" "Cold room" first_visit in
  "Cold room" ∈ namesFor "rackLocations" (localStorage p') /\
  stored "rackLocations" (localStorage p') = ["Cold room"].
Proof.
  pose proof (saved_location_is_offered "rackLocations" "Cold room" first_visit
                (or_introl eq_refl) ltac:(discriminate)) as (H & _).
  split; [exact H|]. vm_compute. reflexivity.
Defined.

Lemma saveAll_invariant (calls : list (string * string)) (p : Page) (k : string) :
  clean k (localStorage p) ->
  datalists p = loadLocationOptions (localStorage p) ->
  clean k (localStorage (saveAll calls p)) /\
  datalists (saveAll calls p) = loadLocationOptions (localStorage (saveAll calls p)).
Proof.
  unfold saveAll. revert p. induction calls as [|[key loc] calls IH]; intros p Hc Hs;
    cbn [foldl]; [split; assumption|].
  apply IH; [apply saveLocationOption_clean; exact Hc|].
  apply saveLocationOption_synced; exact Hs.
Qed.

Lemma first_visit_clean (k : string) : clean k (localStorage first_visit).
Proof.
  unfold clean, stored, first_visit; cbn [localStorage]. rewrite lookup_empty.
  cbn [default]. split; [constructor|]. split; [apply not_elem_of_nil|].
  intros x Hx. apply elem_of_nil in Hx. contradiction.
Qed.

(** X21: whatever locations are saved on a page that started with an empty
    storage, in whatever order, the stored racks and shelves never hold a
    name twice, an empty name or a default, and the two datalists hold the
    markup of the defaults followed by the stored names in the order they
    were first saved. *)
Theorem saved_locations_stay_clean (calls : list (string * string)) :
  let p := saveAll calls first_visit in
  clean "rackLocations" (localStorage p) /\
  clean "shelfLocations" (localStorage p) /\
  rack_list (datalists p)
  = markup (defaultRacks ++ stored "rackLocations" (localStorage p)) /\
  shelf_list (datalists p)
  = markup (defaultShelves ++ stored "shelfLocations" (localStorage p)).
Proof.
  cbn zeta.
  destruct (saveAll_invariant calls first_visit "rackLocations"
              (first_visit_clean _) eq_refl) as [Hr Hs].
  destruct (saveAll_invariant calls first_visit "shelfLocations"
              (first_visit_clean _) eq_refl) as [Hs' _].
  split; [exact Hr|]. split; [exact Hs'|]. rewrite Hs.
  unfold loadLocationOptions; cbn [rack_list shelf_list]. split; f_equal.
  - apply (allOptions_defaults_first _ _ defaultRacks_NoDup); apply Hr.
  - apply (allOptions_defaults_first _ _ defaultShelves_NoDup); apply Hs'.
Qed.

End LocationFacts.

(** ** Saving the scan on screen *)

Ltac pick_key := repeat (case_decide; try discriminate); try congruence; try reflexivity.

Section EntryFacts.

Import Entry.

Lemma prop_insert (key k : string) (v : option string) (scan : Scan) :
  prop k (<[key := v]> scan) = if decide (k = key) then v else prop k scan.
Proof.
  unfold prop. destruct (decide (k = key)) as [->|Hk].
  - rewrite lookup_insert_eq. destruct v; reflexivity.
  - rewrite lookup_insert_ne by congruence. reflexivity.
Qed.

Lemma readForm_rackNo (f : Form) (scan : Scan) :
  prop "rackNo" (readForm f scan) = orNull (rackNo f).
Proof. unfold readForm. rewrite !prop_insert. pick_key. Qed.

Lemma readForm_shelfNo (f : Form) (scan : Scan) :
  prop "shelfNo" (readForm f scan) = orNull (shelfNo f).
Proof. unfold readForm. rewrite !prop_insert. pick_key. Qed.

Lemma readForm_movement (f : Form) (scan : Scan) :
  prop "movement" (readForm f scan) = Some (orIN (movement f)).
Proof. unfold readForm. rewrite !prop_insert. pick_key. Qed.

Lemma missing_orNull (v : string) : missing (orNull v) = bool_decide (v = "").
Proof.
  unfold orNull. destruct (decide (v = "")) as [->|Hv]; cbn [missing].
  - reflexivity.
  - rewrite !bool_decide_eq_false_2 by exact Hv. reflexivity.
Qed.

Lemma rememberLocation_offers (key location : string) (s : State) :
  location <> "" ->
  location ∈ Locations.defaultsFor key \/
  location ∈ Locations.stored key
               (Locations.localStorage
                  (locations (rememberLocation key (Some location) s))).
Proof.
  intros Hl. unfold rememberLocation. rewrite decide_False by exact Hl.
  cbn [locations setLocations]. rewrite saveLocationOption_stored.
  rewrite decide_True by reflexivity.
  rewrite (bool_decide_eq_false_2 (location = "")) by exact Hl. cbn [orb].
  destruct (bool_decide (location ∈ Locations.defaultsFor key)) eqn:Hdef; cbn [orb].
  { left. apply bool_decide_eq_true_1 in Hdef. exact Hdef. }
  destruct (bool_decide (location ∈ Locations.stored key _)) eqn:Hin.
  { right. apply bool_decide_eq_true_1 in Hin. exact Hin. }
  right. apply elem_of_app. right. left.
Qed.

Lemma rememberLocation_other (key location k : string) (s : State) :
  k <> key ->
  Locations.stored k (Locations.localStorage (locations (rememberLocation key (Some location) s)))
  = Locations.stored k (Locations.localStorage (locations s)).
Proof.
  intros Hk. unfold rememberLocation. destruct (decide (location = "")); [reflexivity|].
  cbn [locations setLocations]. rewrite saveLocationOption_stored.
  rewrite decide_False by exact Hk. reflexivity.
Qed.

Lemma rememberLocation_rest (key : string) (location : option string) (s : State) :
  currentScan (rememberLocation key location s) = currentScan s /\
  form (rememberLocation key location s) = form s /\
  database (rememberLocation key location s) = database s /\
  toasts (rememberLocation key location s) = toasts s /\
  resultsHidden (rememberLocation key location s) = resultsHidden s.
Proof.
  unfold rememberLocation. destruct location as [l|]; [|repeat split].
  destruct (decide (l = "")); repeat split.
Qed.

(** What [save] does once both mandatory fields are there. *)
Lemma save_located (io : Storage) (s : State) (before : Scan) :
  currentScan s = Some before ->
  rackNo (form s) <> "" -> shelfNo (form s) <> "" ->
  let scan := readForm (form s) before in
  let s1 := rememberLocation "shelfLocations" (Some (shelfNo (form s)))
              (rememberLocation "rackLocations" (Some (rackNo (form s)))
                 (setScan (Some scan) s)) in
  save io s =
  match saveError io with
  | Some m => (Rejected m, s1)
  | None =>
      match getAllError io with
      | Some m => (Rejected m, toast "💾 Saved!" (store scan s1))
      | None => (Returned, clear (toast "💾 Saved!" (store scan s1)))
      end
  end.
Proof.
  intros Hscan Hr Hs. cbn zeta. unfold save. rewrite Hscan.
  rewrite readForm_rackNo, readForm_shelfNo, !missing_orNull.
  rewrite !bool_decide_eq_false_2 by assumption. cbn [orb].
  unfold orNull. rewrite !decide_False by assumption. reflexivity.
Qed.

Lemma save_refused (io : Storage) (s : State) (before : Scan) :
  currentScan s = Some before ->
  rackNo (form s) = "" \/ shelfNo (form s) = "" ->
  save io s =
  (Returned,
   toast "❌ Rack and Shelf are mandatory" (setScan (Some (readForm (form s) before)) s)).
Proof.
  intros Hscan Hempty. unfold save. rewrite Hscan.
  rewrite readForm_rackNo, readForm_shelfNo, !missing_orNull.
  destruct Hempty as [-> | ->]; rewrite ?orb_true_r; reflexivity.
Qed.

Lemma readForm_located (f : Form) (scan : Scan) :
  rackNo f <> "" -> shelfNo f <> "" -> located (readForm f scan).
Proof.
  intros Hr Hs. exists (rackNo f), (shelfNo f).
  rewrite readForm_rackNo, readForm_shelfNo. unfold orNull.
  rewrite !decide_False by assumption. repeat split; assumption.
Qed.

(** X22: [save] writes to the database only when both the rack and the
    shelf input are filled in.  Without one of them it returns after a
    toast, and the database, the stored locations and the form are as they
    were.  With both it adds at most one record, which carries the rack, the
    shelf and the movement of the form (IN when that is empty), and both
    names are among the stored or default locations afterwards; when it
    then returns normally the form is blank again and no scan is current.
    So every record stays located if those before were. *)
Theorem save_needs_rack_and_shelf (io : Storage) (s : State) :
  let o := (save io s).1 in
  let s' := (save io s).2 in
  (rackNo (form s) = "" \/ shelfNo (form s) = "" ->
   o = Returned /\ database s' = database s /\ locations s' = locations s /\
   form s' = form s /\ resultsHidden s' = resultsHidden s /\
   (toasts s' = (toasts s ++ ["Nothing to save"])%list \/
    toasts s' = (toasts s ++ ["❌ Rack and Shelf are mandatory"])%list)) /\
  (database s' = database s \/
   exists before,
     currentScan s = Some before /\
     saveError io = None /\
     database s' = (database s ++ [readForm (form s) before])%list /\
     prop "rackNo" (readForm (form s) before) = Some (rackNo (form s)) /\
     prop "shelfNo" (readForm (form s) before) = Some (shelfNo (form s)) /\
     prop "movement" (readForm (form s) before) = Some (orIN (movement (form s))) /\
     (rackNo (form s) ∈ Locations.defaultRacks \/
      rackNo (form s)
        ∈ Locations.stored "rackLocations" (Locations.localStorage (locations s'))) /\
     (shelfNo (form s) ∈ Locations.defaultShelves \/
      shelfNo (form s)
        ∈ Locations.stored "shelfLocations" (Locations.localStorage (locations s')))) /\
  (Forall located (database s) -> Forall located (database s')) /\
  (o = Returned -> database s' <> database s ->
   currentScan s' = None /\ form s' = blank /\ resultsHidden s' = true).
Proof.
  cbn zeta. destruct (currentScan s) as [before|] eqn:Hscan.
  2: { unfold save. rewrite Hscan. cbn. repeat split; auto. congruence. }
  destruct (decide (rackNo (form s) = "" \/ shelfNo (form s) = "")) as [Hempty|Hfull].
  { rewrite (save_refused io s before Hscan Hempty). cbn.
    repeat split; auto; try congruence. }
  assert (Hr : rackNo (form s) <> "") by tauto.
  assert (Hs : shelfNo (form s) <> "") by tauto.
  pose proof (readForm_located (form s) before Hr Hs) as Hloc.
  rewrite (save_located io s before Hscan Hr Hs).
  set (s0 := setScan (Some (readForm (form s) before)) s).
  set (s1 := rememberLocation "rackLocations" (Some (rackNo (form s))) s0).
  set (s2 := rememberLocation "shelfLocations" (Some (shelfNo (form s))) s1).
  destruct (rememberLocation_rest "rackLocations" (Some (rackNo (form s))) s0)
    as (_ & _ & Hd1 & _ & _).
  destruct (rememberLocation_rest "shelfLocations" (Some (shelfNo (form s))) s1)
    as (_ & _ & Hd2 & _ & _).
  fold s1 in Hd1, Hd2. fold s2 in Hd2.
  assert (Hdb : database s2 = database s) by (rewrite Hd2, Hd1; reflexivity).
  assert (Hrack : rackNo (form s) ∈ Locations.defaultRacks \/
                  rackNo (form s) ∈ Locations.stored "rackLocations"
                                      (Locations.localStorage (locations s2))).
  { unfold s2. rewrite rememberLocation_other by discriminate.
    exact (rememberLocation_offers "rackLocations" (rackNo (form s)) s0 Hr). }
  assert (Hshelf : shelfNo (form s) ∈ Locations.defaultShelves \/
                   shelfNo (form s) ∈ Locations.stored "shelfLocations"
                                        (Locations.localStorage (locations s2))).
  { exact (rememberLocation_offers "shelfLocations" (shelfNo (form s)) s1 Hs). }
  split; [tauto|].
  assert (Hadded : exists before0,
    Some before = Some before0 /\
    (database s2 ++ [readForm (form s) before] = database s ++ [readForm (form s) before0])%list /\
    prop "rackNo" (readForm (form s) before0) = Some (rackNo (form s)) /\
    prop "shelfNo" (readForm (form s) before0) = Some (shelfNo (form s)) /\
    prop "movement" (readForm (form s) before0) = Some (orIN (movement (form s)))).
  { exists before. rewrite Hdb, readForm_rackNo, readForm_shelfNo, readForm_movement.
    unfold orNull. rewrite !decide_False by assumption. repeat split. }
  destruct Hadded as (b0 & Hb0 & Hdb0 & Hp1 & Hp2 & Hp3).
  destruct (saveError io) as [m|] eqn:Hsave; cbn [fst snd].
  { split; [left; exact Hdb|]. split; [rewrite Hdb; tauto|].
    intros _ Hne. contradiction. }
  destruct (getAllError io) as [m|] eqn:Hget; cbn [fst snd];
    cbn [database clear toast store locations currentScan form resultsHidden].
  - split; [right; exists b0; repeat split; assumption|].
    split; [|discriminate].
    intros Hall. rewrite Hdb. apply Forall_app. split; [exact Hall|].
    constructor; [exact Hloc|constructor].
  - split; [right; exists b0; repeat split; assumption|].
    split; [|intros _ _; repeat split].
    intros Hall. rewrite Hdb. apply Forall_app. split; [exact Hall|].
    constructor; [exact Hloc|constructor].
Qed.

End EntryFacts.

(** ** One photo *)

Section SingleFacts.

Import Single.

Lemma process_throws_local (env : OCR.Env) (file : OCR.File) (cb : OCR.Callback)
    (s : OCR.State) (e : OCR.Error) :
  OCR.result (OCR.process env file cb s) = OCR.Throw e ->
  OCR.message e = "Failed to load Tesseract.js" \/
  exists m, OCR.message e = ("Offline OCR failed: " ++ m)%string.
Proof.
  intros Hthrow.
  assert (Hlocal : OCR.isLocalError e = true).
  { revert Hthrow. rewrite process_run. cbn zeta.
    destruct (OCR.navigator_onLine env).
    - destruct (OCR.processOnline env file cb _) as [[[text|err] s2] t];
        [discriminate|].
      intros H. exact (proj1 (processOffline_error env file cb s2 e H)).
    - intros H. exact (proj1 (processOffline_error env file cb _ e H)). }
  destruct e; try discriminate; [left; reflexivity|right; eexists; reflexivity].
Qed.

Lemma handleFile_dispatched (c : Selection) (s : State) (image : OCR.File) :
  dispatched c = Some image ->
  exists url,
    dataUrl c = Some url /\
    handleFile c s =
    let o := OCR.process (env c) image (Some (fun status => status)) (ocr s) in
    let a0 := Entry.setResultsHidden true (app s) in
    match OCR.result o with
    | OCR.Throw err => finish s o (Entry.toast ("❌ " ++ OCR.message err) a0)
    | OCR.Ok text =>
        match parse c text with
        | None => finish s o (Entry.toast ("❌ " ++ parseError c) a0)
        | Some parsed =>
            let scan := newScan (now c) text parsed in
            let a := Entry.showResults scan
                       (Entry.setPreview url (Entry.setScan (Some scan) a0)) in
            if continuous c then
              match Entry.save (storage c) a with
              | (Entry.Rejected m, a) => finish s o (Entry.toast ("❌ " ++ m) a)
              | (Entry.Returned, a) =>
                  finish s o (Entry.toast "✅ Saved! Ready for next" a)
              end
            else finish s o a
        end
    end.
Proof.
  unfold dispatched, handleFile, attempt.
  destruct (chosen c) as [file|]; [|discriminate].
  destruct (dataUrl c) as [url|]; [|discriminate].
  intros Himage. exists url. split; [reflexivity|]. rewrite Himage.
  cbn [setLoadingHidden setApp app ocr].
  destruct (OCR.process (env c) image _ (ocr s)) as [[[text|err] o'] evs];
    cbn [OCR.result fst snd]; [|reflexivity].
  destruct (parse c text) as [parsed|]; [|reflexivity].
  destruct (continuous c); [|reflexivity].
  cbn [app shown loadingHidden inputValue ocr].
  destruct (Entry.save (storage c) _) as [[|m] a]; reflexivity.
Qed.

(** X23: once a file was chosen, [handleFile] always ends with the loading
    indicator hidden and the file input emptied.  When the file could not be
    read, or the crop dialog was answered with Skip, no OCR dispatch takes
    place and the database, the current scan and the form are untouched;
    otherwise exactly one dispatch runs, on the chosen file in quick mode and
    on the cropped image otherwise. *)
Theorem handleFile_tidies_up (c : Selection) (s : State) (file : OCR.File)
  (Hfile : chosen c = Some file) :
  let s' := handleFile c s in
  loadingHidden s' = true /\ inputValue s' = "" /\
  (dispatched c = None ->
   ocr s' = ocr s /\ shown s' = shown s /\
   Entry.database (app s') = Entry.database (app s) /\
   Entry.currentScan (app s') = Entry.currentScan (app s) /\
   Entry.form (app s') = Entry.form (app s) /\
   (dataUrl c <> None -> app s' = app s)) /\
  (forall image, dispatched c = Some image ->
   image = (if quickMode c then file else image) /\
   let o := OCR.process (env c) image (Some (fun status => status)) (ocr s) in
   ocr s' = OCR.final o /\ shown s' = (shown s ++ OCR.events o)%list).
Proof.
  cbn zeta.
  destruct (dispatched c) as [image|] eqn:Hd.
  - destruct (handleFile_dispatched c s image Hd) as (url & Hurl & ->). cbn zeta.
    assert (Hall : forall a, let s' := finish s
                     (OCR.process (env c) image (Some (fun status => status)) (ocr s)) a in
                   loadingHidden s' = true /\ inputValue s' = "" /\
                   ocr s' = OCR.final (OCR.process (env c) image
                                         (Some (fun status => status)) (ocr s)) /\
                   shown s' = (shown s ++ OCR.events (OCR.process (env c) image
                                         (Some (fun status => status)) (ocr s)))%list).
    { intros a. repeat split. }
    assert (Himage : image = (if quickMode c then file else image)).
    { unfold dispatched in Hd. rewrite Hfile, Hurl in Hd.
      destruct (quickMode c); congruence. }
    destruct (OCR.result _) as [text|err].
    2: { split; [reflexivity|]. split; [reflexivity|]. split; [discriminate|].
         intros image' [= <-]. split; [exact Himage|]. split; reflexivity. }
    destruct (parse c text) as [parsed|].
    2: { split; [reflexivity|]. split; [reflexivity|]. split; [discriminate|].
         intros image' [= <-]. split; [exact Himage|]. split; reflexivity. }
    destruct (continuous c).
    2: { split; [reflexivity|]. split; [reflexivity|]. split; [discriminate|].
         intros image' [= <-]. split; [exact Himage|]. split; reflexivity. }
    destruct (Entry.save (storage c) _) as [[|m] a];
      (split; [reflexivity|]; split; [reflexivity|]; split; [discriminate|];
       intros image' [= <-]; split; [exact Himage|]; split; reflexivity).
  - split; [|split; [|split; [|discriminate]]];
      unfold dispatched in Hd; unfold handleFile, attempt; rewrite Hfile in *;
      destruct (dataUrl c) as [url|]; try reflexivity.
    + destruct (quickMode c); [discriminate|]. rewrite Hd. reflexivity.
    + destruct (quickMode c); [discriminate|]. rewrite Hd. reflexivity.
    + intros _. destruct (quickMode c); [discriminate|]. rewrite Hd.
      repeat split.
    + intros _. repeat split. intros H. contradiction.
Qed.

Lemma handleFile_tidies_up_witness :
  loadingHidden (handleFile Scenario.hurried Scenario.idle) = true /\
  inputValue (handleFile Scenario.hurried Scenario.idle) = "".
Proof.
  destruct (handleFile_tidies_up Scenario.hurried Scenario.idle "label.jpg" eq_refl)
    as (H1 & H2 & _).
  split; [exact H1|exact H2].
Defined.

(** X24: when the dispatch ends in an error, [handleFile] shows it in a
    toast, and the text is that of one of the two errors of the local
    route; the results panel stays hidden, and the database, the form and
    the current scan are those from before the file was chosen. *)
Theorem failed_scan_is_reported (c : Selection) (s : State) (image : OCR.File)
    (e : OCR.Error)
  (Hdispatched : dispatched c = Some image)
  (Hthrow : OCR.result (OCR.process (env c) image (Some (fun status => status)) (ocr s))
            = OCR.Throw e) :
  let s' := handleFile c s in
  Entry.toasts (app s') = (Entry.toasts (app s) ++ [("❌ " ++ OCR.message e)%string])%list /\
  (OCR.message e = "Failed to load Tesseract.js" \/
   exists m, OCR.message e = "Offline OCR failed: " ++ m) /\
  Entry.resultsHidden (app s') = true /\
  loadingHidden s' = true /\
  Entry.database (app s') = Entry.database (app s) /\
  Entry.form (app s') = Entry.form (app s) /\
  Entry.currentScan (app s') = Entry.currentScan (app s).
Proof.
  cbn zeta.
  destruct (handleFile_dispatched c s image Hdispatched) as (url & Hurl & ->).
  cbn zeta. rewrite Hthrow.
  split; [reflexivity|]. split; [exact (process_throws_local _ _ _ _ _ Hthrow)|].
  repeat split.
Qed.

Lemma failed_scan_is_reported_witness :
  Entry.toasts (app (handleFile Scenario.torn Scenario.idle))
  = ["❌ Offline OCR failed: Failed to load image"].
Proof.
  exact (proj1 (failed_scan_is_reported Scenario.torn Scenario.idle "torn.bin"
                  (OCR.EOffline "Failed to load image") eq_refl eq_refl)).
Defined.

(** X25: in continuous mode, after a text was recognised and parsed,
    [handleFile] calls [save] with the rack and shelf that were in the form
    before the file was chosen.  Without one of them nothing is stored, the
    scan stays on screen, and the toast about the mandatory fields is
    followed by the one that says Saved.  With both, and a storage that
    works, exactly one record is stored, it is located, and the form is
    blank afterwards; when [Storage.save] rejects, nothing is stored and the
    error is shown. *)
Theorem continuous_mode_needs_location (c : Selection) (s : State) (image : OCR.File)
    (text : string) (parsed : Batch.Parsed)
  (Hcontinuous : continuous c = true)
  (Hdispatched : dispatched c = Some image)
  (Htext : OCR.result (OCR.process (env c) image (Some (fun status => status)) (ocr s))
           = OCR.Ok text)
  (Hparsed : parse c text = Some parsed) :
  let s' := handleFile c s in
  let f := Entry.form (app s) in
  let fresh := newScan (now c) text parsed in
  let scan := Entry.readForm (Entry.form (Entry.showResults fresh (app s))) fresh in
  (Entry.rackNo f = "" \/ Entry.shelfNo f = "" ->
   Entry.database (app s') = Entry.database (app s) /\
   Entry.toasts (app s')
   = (Entry.toasts (app s)
        ++ ["❌ Rack and Shelf are mandatory"; "✅ Saved! Ready for next"])%list /\
   Entry.currentScan (app s') = Some scan /\
   Entry.resultsHidden (app s') = false) /\
  (Entry.rackNo f <> "" -> Entry.shelfNo f <> "" ->
   match Entry.saveError (storage c), Entry.getAllError (storage c) with
   | None, None =>
       Entry.database (app s') = (Entry.database (app s) ++ [scan])%list /\
       Entry.located scan /\
       Entry.toasts (app s')
       = (Entry.toasts (app s) ++ ["💾 Saved!"; "✅ Saved! Ready for next"])%list /\
       Entry.currentScan (app s') = None /\
       Entry.form (app s') = Entry.blank
   | None, Some m =>
       Entry.database (app s') = (Entry.database (app s) ++ [scan])%list /\
       Entry.toasts (app s')
       = (Entry.toasts (app s) ++ ["💾 Saved!"; ("❌ " ++ m)%string])%list
   | Some m, _ =>
       Entry.database (app s') = Entry.database (app s) /\
       Entry.toasts (app s') = (Entry.toasts (app s) ++ [("❌ " ++ m)%string])%list
   end).
Proof.
  cbn zeta.
  destruct (handleFile_dispatched c s image Hdispatched) as (url & Hurl & ->).
  cbn zeta. rewrite Htext, Hparsed, Hcontinuous.
  set (fresh := newScan (now c) text parsed).
  set (a := Entry.showResults fresh _).
  assert (Hscan : Entry.currentScan a = Some fresh) by reflexivity.
  assert (Hform : Entry.form a = Entry.form (Entry.showResults fresh (app s)))
    by reflexivity.
  assert (Hrack : Entry.rackNo (Entry.form a) = Entry.rackNo (Entry.form (app s)))
    by reflexivity.
  assert (Hshelf : Entry.shelfNo (Entry.form a) = Entry.shelfNo (Entry.form (app s)))
    by reflexivity.
  split.
  - intros Hempty. rewrite <- Hrack, <- Hshelf in Hempty.
    rewrite (save_refused (storage c) a fresh Hscan Hempty). rewrite Hform.
    cbn [finish app Entry.toast Entry.setScan Entry.database Entry.toasts
         Entry.currentScan Entry.resultsHidden].
    split; [reflexivity|]. split; [|split; reflexivity].
    subst a. cbn [Entry.toasts Entry.showResults Entry.setPreview Entry.setScan
                  Entry.setResultsHidden].
    rewrite <- app_assoc. reflexivity.
  - intros Hr Hs. rewrite <- Hrack in Hr. rewrite <- Hshelf in Hs.
    rewrite (save_located (storage c) a fresh Hscan Hr Hs). cbn zeta.
    set (scan := Entry.readForm (Entry.form a) fresh).
    set (a1 := Entry.rememberLocation "rackLocations" _ _).
    set (a2 := Entry.rememberLocation "shelfLocations" _ a1).
    destruct (rememberLocation_rest "rackLocations"
                (Some (Entry.rackNo (Entry.form a))) (Entry.setScan (Some scan) a))
      as (_ & _ & Hd1 & Ht1 & _).
    destruct (rememberLocation_rest "shelfLocations"
                (Some (Entry.shelfNo (Entry.form a))) a1)
      as (_ & _ & Hd2 & Ht2 & _).
    fold a1 in Hd1, Ht1. fold a2 in Hd2, Ht2.
    assert (Hdb : Entry.database a2 = Entry.database (app s))
      by (rewrite Hd2, Hd1; reflexivity).
    assert (Hto : Entry.toasts a2 = Entry.toasts (app s))
      by (rewrite Ht2, Ht1; reflexivity).
    destruct (Entry.saveError (storage c)) as [m|].
    { cbn [finish app Entry.toast Entry.database Entry.toasts].
      rewrite Hdb, Hto. split; reflexivity. }
    destruct (Entry.getAllError (storage c)) as [m|];
      cbn [finish app Entry.toast Entry.store Entry.clear Entry.database Entry.toasts
           Entry.currentScan Entry.form];
      rewrite Hdb, Hto, <- ?app_assoc.
    + split; reflexivity.
    + split; [reflexivity|]. split; [|repeat split].
      exact (readForm_located (Entry.form a) fresh Hr Hs).
Qed.

Lemma continuous_mode_needs_location_witness :
  Entry.database (app (handleFile Scenario.hurried Scenario.idle)) = [] /\
  Entry.toasts (app (handleFile Scenario.hurried Scenario.idle))
  = ["❌ Rack and Shelf are mandatory"; "✅ Saved! Ready for next"].
Proof.
  destruct (continuous_mode_needs_location Scenario.hurried Scenario.idle "label.jpg"
              "BATCH 42" [("batchNo", "BATCH 42")] eq_refl eq_refl eq_refl eq_refl)
    as [Hrefused _].
  destruct (Hrefused (or_introl eq_refl)) as (Hdb & Htoasts & _).
  split; [exact Hdb|exact Htoasts].
Defined.

End SingleFacts.

(** ** Export *)

Section OutboxFacts.

Import Outbox.

Lemma occurrences_row (c : Ascii.ascii) (scan : Entry.Scan) :
  occurrences c (row scan)
  = (16 * occurrences c quote + 7 * occurrences c "," 
     + sum_list_with (occurrences c) (cells scan))%nat.
Proof.
  unfold row. rewrite occurrences_concat, sum_list_with_fmap.
  unfold cells. cbn [sum_list_with length fmap list_fmap].
  rewrite !occurrences_app. lia.
Qed.

(** X26: the text [generateCSV] builds has one line break per scan plus the
    line breaks inside the values, and each row has eight values between
    sixteen quotation marks and seven commas plus the marks and commas
    inside the values: values are written as they are, without escaping. *)
Theorem generateCSV_counts (scans : list Entry.Scan) :
  occurrences "010" (generateCSV scans)
  = (length scans
     + sum_list_with (fun scan => sum_list_with (occurrences "010") (cells scan)) scans)%nat /\
  Forall (fun scan =>
            length (cells scan) = 8%nat /\
            occurrences "034" (row scan)
            = (16 + sum_list_with (occurrences "034") (cells scan))%nat /\
            occurrences "," (row scan)
            = (7 + sum_list_with (occurrences ",") (cells scan))%nat) scans.
Proof.
  split.
  - unfold generateCSV. rewrite occurrences_concat.
    cbn [sum_list_with length]. rewrite length_fmap, sum_list_with_fmap.
    replace (occurrences "010" header) with 0%nat by reflexivity.
    replace (occurrences "010" newline) with 1%nat by reflexivity.
    replace (sum_list_with (fun x => occurrences "010" (row x)) scans)
      with (sum_list_with (fun scan => sum_list_with (occurrences "010") (cells scan)) scans).
    + lia.
    + induction scans as [|scan scans IH]; [reflexivity|].
      cbn [sum_list_with]. rewrite IH, occurrences_row.
      replace (occurrences "010" quote) with 0%nat by reflexivity.
      replace (occurrences "010" ",") with 0%nat by reflexivity. lia.
  - apply Forall_forall. intros scan _. split; [reflexivity|].
    rewrite !occurrences_row.
    replace (occurrences "034" quote) with 1%nat by reflexivity.
    replace (occurrences "034" ",") with 0%nat by reflexivity.
    replace (occurrences "," quote) with 0%nat by reflexivity.
    replace (occurrences "," ",") with 1%nat by reflexivity.
    split; lia.
Qed.

Lemma saveEmail_member (email : list N) (saved : Email.Saved) :
  Email.isValidEmail email = true ->
  email ∈ Email.emails (Email.saveEmail email saved).
Proof.
  intros Hvalid. unfold Email.saveEmail. rewrite Hvalid.
  destruct (bool_decide (email = [])) eqn:Hempty.
  { apply bool_decide_eq_true_1 in Hempty. subst email. discriminate Hvalid. }
  cbn [orb negb].
  destruct (bool_decide (email ∈ Email.emails saved)) eqn:Hin.
  { apply bool_decide_eq_true_1 in Hin. exact Hin. }
  destruct (remember_shape email (Email.emails saved)) as (kept & dropped & _ & Hr & _).
  cbn [Email.emails default]. rewrite Hr. left.
Qed.

(** X27: [sendEmail] posts at most one request, and only for an address
    that is valid once trimmed and a pending list of scans that is not
    empty; the request carries that address and the CSV of the pending
    scans.  Without a request nothing but the toast changes.  When the
    request is rejected, the scans and the saved addresses are kept.  When
    it resolves, the address is among the saved ones, and once
    [Storage.clearAll] resolves the database is empty, whatever it held. *)
Theorem sendEmail_clears_after_sending (net : Network) (s : State) :
  let s' := sendEmail net s in
  let email := trim (recipient s) in
  (requests s' = requests s /\
   database s' = database s /\ savedEmails s' = savedEmails s /\
   modalHidden s' = modalHidden s /\ recipient s' = recipient s /\
   pendingExportScans s' = pendingExportScans s /\
   exists msg, toasts s' = (toasts s ++ [msg])%list)
  \/
  (exists scans,
     pendingExportScans s = Some scans /\ scans <> [] /\
     Email.isValidEmail email = true /\
     requests s'
     = (requests s ++ [{| to_email := email; csv_data := generateCSV scans |}])%list /\
     match fetchError net with
     | Some m =>
         database s' = database s /\ savedEmails s' = savedEmails s /\
         pendingExportScans s' = pendingExportScans s /\
         toasts s'
         = (toasts s ++ ["📤 Sending email..."; ("❌ Failed to send email: " ++ m)%string])%list
     | None =>
         email ∈ Email.emails (savedEmails s') /\
         match clearAllError net with
         | Some m => database s' = database s
         | None =>
             database s' = [] /\
             (getAllError net = None ->
              modalHidden s' = true /\ recipient s' = [] /\ pendingExportScans s' = None)
         end
     end).
Proof.
  cbn zeta. unfold sendEmail.
  destruct (bool_decide (trim (recipient s) = [])); [left; repeat split; eexists; reflexivity|].
  destruct (Email.isValidEmail (trim (recipient s))) eqn:Hvalid; cbn [negb];
    [|left; repeat split; eexists; reflexivity].
  destruct (bool_decide (GMAIL_EMAIL_URL = ""));
    [left; repeat split; eexists; reflexivity|].
  destruct (pendingExportScans s) as [[|scan scans]|] eqn:Hpending;
    try (left; cbn; rewrite ?Hpending; repeat split; eexists; reflexivity).
  right. exists (scan :: scans). split; [reflexivity|]. split; [discriminate|].
  split; [reflexivity|]. unfold send, failed.
  split.
  { destruct (fetchError net); [reflexivity|].
    destruct (clearAllError net); [reflexivity|].
    destruct (getAllError net); reflexivity. }
  destruct (fetchError net) as [m|].
  { cbn -[generateCSV]. rewrite <- app_assoc, ?Hpending. repeat split. }
  pose proof (saveEmail_member _ (savedEmails s) Hvalid) as Hsaved.
  destruct (clearAllError net) as [m|].
  { cbn -[generateCSV]. split; [exact Hsaved|reflexivity]. }
  destruct (getAllError net) as [m|]; cbn -[generateCSV].
  - split; [exact Hsaved|]. split; [reflexivity|discriminate].
  - split; [exact Hsaved|]. repeat split.
Qed.

End OutboxFacts.

(** ** Google Sheets *)

Section SheetsFacts.

Import Sheets.

(** X28: with a scan on screen, [sendToSheets] posts the values of the form
    once, before anything is checked, and stores the scan locally only
    afterwards through [save].  So a row without rack or shelf reaches the
    sheet while the local database stays as it was, and a request that is
    rejected leaves the database as it was too. *)
Theorem sendToSheets_posts_before_saving (fetchError : option string)
    (io : Entry.Storage) (s : State) (scan : Entry.Scan)
  (Hscan : Entry.currentScan (app s) = Some scan) :
  let s' := sendToSheets fetchError io s in
  let f := Entry.form (app s) in
  posted s' = (posted s ++ [data f])%list /\
  guideShown s' = guideShown s /\
  (Entry.rackNo f = "" \/ Entry.shelfNo f = "" \/ fetchError <> None ->
   Entry.database (app s') = Entry.database (app s)) /\
  (Entry.rackNo f = "" \/ Entry.shelfNo f = "" -> fetchError = None ->
   Entry.toasts (app s')
   = (Entry.toasts (app s)
        ++ ["📤 Sending..."; "✅ Sent to Google Sheets!";
            "❌ Rack and Shelf are mandatory"])%list) /\
  (Entry.rackNo f <> "" -> Entry.shelfNo f <> "" -> fetchError = None ->
   Entry.saveError io = None ->
   Entry.database (app s')
   = (Entry.database (app s) ++ [Entry.readForm f scan])%list).
Proof.
  cbn zeta. unfold sendToSheets. rewrite Hscan.
  rewrite bool_decide_eq_false_2 by discriminate.
  set (a := Entry.toast "✅ Sent to Google Sheets!" _).
  assert (Ha : Entry.currentScan a = Some scan) by exact Hscan.
  assert (Hrefused : Entry.rackNo (Entry.form (app s)) = ""
                     \/ Entry.shelfNo (Entry.form (app s)) = "" ->
                     Entry.save io a
                     = (Entry.Returned,
                        Entry.toast "❌ Rack and Shelf are mandatory"
                          (Entry.setScan
                             (Some (Entry.readForm (Entry.form (app s)) scan)) a))).
  { intros Hempty. exact (save_refused io a scan Ha Hempty). }
  split; [|split; [|split; [|split]]].
  - destruct fetchError; [reflexivity|]. destruct (Entry.save io a) as [[|m] a']; reflexivity.
  - destruct fetchError; [reflexivity|]. destruct (Entry.save io a) as [[|m] a']; reflexivity.
  - intros Hcase. destruct fetchError as [m|]; [reflexivity|].
    destruct Hcase as [Hr|[Hs|Hf]]; [| |congruence].
    + rewrite Hrefused by (left; exact Hr). reflexivity.
    + rewrite Hrefused by (right; exact Hs). reflexivity.
  - intros Hempty ->. rewrite (Hrefused Hempty). subst a. cbn.
    rewrite <- !app_assoc. reflexivity.
  - intros Hr Hs -> Hsave.
    rewrite (save_located io a scan Ha Hr Hs). cbn zeta. rewrite Hsave.
    set (a1 := Entry.rememberLocation "rackLocations" _ _).
    set (a2 := Entry.rememberLocation "shelfLocations" _ a1).
    destruct (rememberLocation_rest "rackLocations"
                (Some (Entry.rackNo (Entry.form a)))
                (Entry.setScan (Some (Entry.readForm (Entry.form a) scan)) a))
      as (_ & _ & Hd1 & _).
    destruct (rememberLocation_rest "shelfLocations"
                (Some (Entry.shelfNo (Entry.form a))) a1)
      as (_ & _ & Hd2 & _).
    fold a1 in Hd1. fold a2 in Hd2.
    assert (Hdb : Entry.database a2 = Entry.database (app s))
      by (rewrite Hd2, Hd1; reflexivity).
    clearbody a2. destruct (Entry.getAllError io); cbn; rewrite Hdb; reflexivity.
Qed.

Lemma sendToSheets_posts_before_saving_witness :
  let s := {| app := Entry.setScan (Some ∅) (Entry.clear Entry.Scenario.filled);
              posted := []; guideShown := false |} in
  posted (sendToSheets None Entry.Scenario.working s) = [data Entry.blank] /\
  Entry.database (app (sendToSheets None Entry.Scenario.working s)) = [].
Proof.
  cbn zeta.
  destruct (sendToSheets_posts_before_saving None Entry.Scenario.working
              {| app := Entry.setScan (Some ∅) (Entry.clear Entry.Scenario.filled);
                 posted := []; guideShown := false |} ∅ eq_refl)
    as (Hposted & _ & Hdb & _).
  split; [exact Hposted|]. exact (Hdb (or_introl eq_refl)).
Defined.

End SheetsFacts.

(** ** Sync with the inventory database *)

Section SyncFacts.

Import Sync.

Ltac nothing_sent p :=
  split; [left; reflexivity|];
  split; [left; reflexivity|];
  split; [destruct (Sync.reply p) as [?|?|[|] ? ?]; try exact I;
          intros Hsent; exfalso; apply Hsent; reflexivity|].

(** What the [try] block does once the body of the request is there. *)
Lemma exchange_facts (d : Dialogs) (p : Platform) (body : Request) (s : State)
    (u : UserData) (C R : Prop) :
  database s <> [] -> C ->
  (forall m, u <> Garbled m) -> (forall m, u <> NullUser m) -> R ->
  let s' := exchange d p body (toast "⏳ Syncing to database..." s) in
  (sent s' = sent s \/
   (sent s' = (sent s ++ [body])%list /\ database s <> [] /\
    C /\ None = (None : option string) /\
    (forall m, u <> Garbled m) /\ (forall m, u <> NullUser m))) /\
  (database s' = database s \/
   (database s' = [] /\ sent s' = (sent s ++ [body])%list /\
    confirmClear d = true /\ clearAllError p = None /\
    exists synced error, reply p = Answer true synced error)) /\
  match reply p with
  | Answer true _ _ => True
  | _ =>
      sent s' <> sent s ->
      exists m,
        toasts s'
        = (toasts s ++ ["⏳ Syncing to database..."; ("❌ Sync failed: " ++ m)%string])%list
  end /\
  R /\
  (Entry.Returned <> Entry.Returned -> s' = s).
Proof.
  intros Hdb Hconfirm Hg Hn HR. cbn zeta. unfold exchange, failed.
  assert (Hsent : forall l : list Request, l = (sent s ++ [body])%list ->
            l = sent s \/
            (l = (sent s ++ [body])%list /\ database s <> [] /\
             C /\ None = (None : option string) /\
             (forall m, u <> Garbled m) /\ (forall m, u <> NullUser m))).
  { intros l Hl. right. repeat split; assumption. }
  destruct (reply p) as [m|m|[|] synced error].
  - cbn. split; [apply Hsent; reflexivity|]. split; [left; reflexivity|].
    split; [intros _; exists m; rewrite <- !app_assoc; reflexivity|].
    split; [exact HR|intros H; contradiction].
  - cbn. split; [apply Hsent; reflexivity|]. split; [left; reflexivity|].
    split; [intros _; exists m; rewrite <- !app_assoc; reflexivity|].
    split; [exact HR|intros H; contradiction].
  - destruct (confirmClear d) eqn:Hclear.
    + destruct (clearAllError p) as [m|] eqn:Hclr.
      * cbn. split; [apply Hsent; reflexivity|]. split; [left; reflexivity|].
        split; [exact I|]. split; [exact HR|intros H; contradiction].
      * destruct (getAllError p) as [m|]; cbn.
        -- split; [apply Hsent; reflexivity|].
           split; [right; repeat split; exists synced, error; reflexivity|].
           split; [exact I|]. split; [exact HR|intros H; contradiction].
        -- split; [apply Hsent; reflexivity|].
           split; [right; repeat split; exists synced, error; reflexivity|].
           split; [exact I|]. split; [exact HR|intros H; contradiction].
    + cbn. split; [apply Hsent; reflexivity|]. split; [left; reflexivity|].
      split; [exact I|]. split; [exact HR|intros H; contradiction].
  - cbn. split; [apply Hsent; reflexivity|]. split; [left; reflexivity|].
    split; [intros _; exists (orUnknown error); rewrite <- !app_assoc; reflexivity|].
    split; [exact HR|intros H; contradiction].
Qed.

(** X29: [syncToDatabase] sends at most one request, with every scan of the
    local database and the user's name, and only after the first dialog was
    confirmed for a database that is not empty and a user entry that could
    be read.  The local database is either left as it was or emptied, and
    it is emptied only when the server's answer had a truthy [success], the
    second dialog was confirmed and [Storage.clearAll] resolved; a rejected
    request, a body that is not JSON and an answer without [success] all
    keep the scans and are reported in a toast that follows the one about
    syncing.  The function rejects, without a toast and without a dialog,
    exactly when the scans cannot be read or, the database not being empty,
    the stored user is not JSON. *)
Theorem sync_clears_only_after_success (d : Dialogs) (p : Platform) (s : State) :
  let o := (syncToDatabase d p s).1 in
  let s' := (syncToDatabase d p s).2 in
  (sent s' = sent s \/
   (sent s' = (sent s ++ [bodyOf p s])%list /\ database s <> [] /\
    confirmSync d = true /\ readError p = None /\
    (forall m, userData p <> Garbled m) /\ (forall m, userData p <> NullUser m))) /\
  (database s' = database s \/
   (database s' = [] /\ sent s' = (sent s ++ [bodyOf p s])%list /\
    confirmClear d = true /\ clearAllError p = None /\
    exists synced error, reply p = Answer true synced error)) /\
  match reply p with
  | Answer true _ _ => True
  | _ =>
      sent s' <> sent s ->
      exists m,
        toasts s'
        = (toasts s ++ ["⏳ Syncing to database..."; ("❌ Sync failed: " ++ m)%string])%list
  end /\
  (forall m, o = Entry.Rejected m <->
             readError p = Some m \/
             (readError p = None /\ database s <> [] /\ userData p = Garbled m)) /\
  (o <> Entry.Returned -> s' = s).
Proof.
  cbn zeta. unfold syncToDatabase.
  destruct (readError p) as [m|]; cbn [fst snd].
  { nothing_sent p. split; [|reflexivity].
    intros m'. split; [intros [= ->]; left; reflexivity|].
    intros [[= ->]|(H & _)]; [reflexivity|discriminate H]. }
  case_bool_decide as Hempty; cbn [fst snd].
  { nothing_sent p. split; [|intros H; contradiction].
    intros m'. split; [discriminate|].
    intros [H|(_ & H & _)]; [discriminate H|contradiction]. }
  assert (Hnot : forall u, (forall m0, u <> Garbled m0) ->
            forall m', Entry.Returned = Entry.Rejected m' <->
                       None = Some m' \/
                       (None = (None : option string) /\ database s <> [] /\ u = Garbled m')).
  { intros u Hu m'. split; [discriminate|].
    intros [H|(_ & _ & H)]; [discriminate H|]. exfalso. exact (Hu _ H). }
  destruct (userData p) as [|m|m|name branch] eqn:Huser; cbn [fst snd].
  - (* no user entry *)
    destruct (confirmSync d); cbn [negb fst snd].
    2:{ nothing_sent p. split; [apply Hnot; discriminate|intros H; contradiction]. }
    unfold bodyOf. rewrite Huser.
    eapply exchange_facts; try eassumption; try reflexivity; try discriminate.
    apply Hnot; discriminate.
  - (* the entry is not JSON *)
    nothing_sent p. split; [|reflexivity].
    intros m'. split; [intros [= ->]; right; repeat split; assumption|].
    intros [H|(_ & _ & [= ->])]; [discriminate H|reflexivity].
  - (* the entry is null *)
    destruct (confirmSync d); cbn [negb fst snd].
    2:{ nothing_sent p. split; [apply Hnot; discriminate|intros H; contradiction]. }
    unfold failed. nothing_sent p.
    split; [apply Hnot; discriminate|intros H; contradiction].
  - (* a user *)
    destruct (confirmSync d); cbn [negb fst snd].
    2:{ nothing_sent p. split; [apply Hnot; discriminate|intros H; contradiction]. }
    unfold bodyOf. rewrite Huser.
    eapply exchange_facts; try eassumption; try reflexivity; try discriminate.
    apply Hnot; discriminate.
Qed.

End SyncFacts.
